(** * VLC: media-library list model and Win32 video-output window management

  A shallow embedding of

  - [modules/gui/qt/medialibrary/mlbasemodel.cpp]: the Qt list model
    [MLBaseModel] and its loader [MLListCacheLoader];
  - [modules/video_output/win32/common.c]: [UpdateRects],
    [CommonControlSetFullscreen] and [CommonControl].

  C++ objects become records, member functions become functions that take
  the object and return the updated object together with what they emitted
  (Qt signals, calls into the list cache, OS calls).  Classes that the two
  files only use (the list cache, the media library operations, the event
  thread, the Win32 API) appear as interfaces. *)

From Stdlib Require Import ZArith Lia Bool.
From stdpp Require Import base tactics option numbers list list_numbers sorting strings gmap.

Local Open Scope Z_scope.

(** ** Machine integers *)

Module CInt.

Definition INT_MIN : Z := - 2 ^ 31.
Definition INT_MAX : Z := 2 ^ 31 - 1.
Definition UINT_MAX : Z := 2 ^ 32 - 1.

(** Result of an [int] operation whose mathematical value is [z]
    (two's complement wrap-around). *)
Definition wrap_int (z : Z) : Z := (z + 2 ^ 31) `mod` 2 ^ 32 - 2 ^ 31.

(** Conversion to [unsigned] (as in [static_cast<unsigned>]). *)
Definition to_unsigned (z : Z) : Z := z `mod` 2 ^ 32.

End CInt.

(** ** Qt strings

  A [QString] (and a [QByteArray]) is either null or holds a possibly empty
  sequence of characters; the two are different objects that compare equal
  with [operator==]. *)

Module Qt.

Inductive QString : Type :=
| QString_null
| QString_of (chars : string).

Inductive QByteArray : Type :=
| QByteArray_null
| QByteArray_of (bytes : string).

#[global] Instance QString_eq_dec : EqDecision QString.
Proof. solve_decision. Defined.
#[global] Instance QByteArray_eq_dec : EqDecision QByteArray.
Proof. solve_decision. Defined.

Definition QString_chars (s : QString) : string :=
  match s with QString_null => EmptyString | QString_of c => c end.

Definition QString_length (s : QString) : Z :=
  Z.of_nat (String.length (QString_chars s)).

Definition QString_isNull (s : QString) : bool :=
  match s with QString_null => true | QString_of _ => false end.

(** [operator==]: comparison of the characters, so that a null string
    equals an empty one. *)
Definition QString_equal (a b : QString) : bool :=
  bool_decide (QString_chars a = QString_chars b).

Definition QByteArray_isNull (b : QByteArray) : bool :=
  match b with QByteArray_null => true | QByteArray_of _ => false end.

(** [QString::toUtf8]: a null string gives a null byte array, any other
    string a byte array (the model keeps the text as its own encoding). *)
Definition toUtf8 (s : QString) : QByteArray :=
  match s with
  | QString_null => QByteArray_null
  | QString_of c => QByteArray_of c
  end.

End Qt.

(** ** Media-library values *)

Module ML.
Import CInt.

(** [MLItemId]: the identifier and the kind of parent it designates. *)
Record MLItemId : Type := mkMLItemId { id : Z; type : Z }.

#[global] Instance MLItemId_eq_dec : EqDecision MLItemId.
Proof. solve_decision. Defined.

(** The C enumeration [vlc_ml_sorting_criteria_t]. *)
Definition vlc_ml_sorting_criteria_t : Type := Z.

(** [vlc_ml_query_params_t], with the fields [getQueryParams] fills in.
    [psz_pattern] is a C string or [nullptr] ([None]); [i_nbResults] and
    [i_offset] are [uint32_t] ([vlc_media_library.h]), so that a [size_t] or
    an [int] stored in them is reduced modulo 2^32. *)
Record vlc_ml_query_params_t : Type := mkQueryParams {
  psz_pattern : option string;
  i_nbResults : Z;
  i_offset : Z;
  i_sort : vlc_ml_sorting_criteria_t;
  b_desc : bool
}.

#[global] Instance query_params_eq_dec : EqDecision vlc_ml_query_params_t.
Proof. solve_decision. Defined.

(** [queryParam.i_offset = offset; queryParam.i_nbResults = nb;] *)
Definition set_window (q : vlc_ml_query_params_t) (offset nb : Z) :
    vlc_ml_query_params_t :=
  {| psz_pattern := psz_pattern q; i_nbResults := to_unsigned nb;
     i_offset := to_unsigned offset;
     i_sort := i_sort q; b_desc := b_desc q |}.

End ML.

(** ** The cache loader, [MLListCacheLoader] *)

Module Loader.
Import CInt Qt ML.

(** [MLListCacheLoader::MLOp]: the data members set by the constructor. *)
Record MLOp : Type := mkMLOp {
  m_parent : MLItemId;
  m_searchPattern : QByteArray;
  m_sort : vlc_ml_sorting_criteria_t;
  m_sortDesc : bool
}.

(** [MLOp::MLOp(parentId, searchPattern, sort, sort_desc)] *)
Definition MLOp_new (parentId : MLItemId) (searchPattern : QString)
    (sort : vlc_ml_sorting_criteria_t) (sort_desc : bool) : MLOp :=
  {| m_parent := parentId;
     m_searchPattern := toUtf8 searchPattern;
     m_sort := sort;
     m_sortDesc := sort_desc |}.

Definition constData (b : QByteArray) : string :=
  match b with QByteArray_null => EmptyString | QByteArray_of s => s end.

(** [MLOp::getQueryParams(offset, limit)]; the two [size_t] arguments are
    stored in the 32-bit fields. *)
Definition getQueryParams (op : MLOp) (offset limit : Z) : vlc_ml_query_params_t :=
  {| psz_pattern :=
       if QByteArray_isNull (m_searchPattern op) then None
       else Some (constData (m_searchPattern op));
     i_nbResults := to_unsigned limit;
     i_offset := to_unsigned offset;
     i_sort := m_sort op;
     b_desc := m_sortDesc op |}.

(** The pure virtual members of [MLOp], implemented by each model
    ([load], [count], [loadItemById]); [MediaLibrary] stands for what
    [vlc_medialibrary_t*] gives access to and [MLItem] for the item class.
    A [std::unique_ptr<MLItem>] is an [option MLItem], [None] being
    [nullptr]. *)
Class MLOpVirtuals (MediaLibrary MLItem : Type) : Type := {
  load : MLOp → MediaLibrary → vlc_ml_query_params_t → list (option MLItem);
  count : MLOp → MediaLibrary → vlc_ml_query_params_t → Z;
  loadItemById : MLOp → MediaLibrary → MLItemId → option MLItem
}.

(** *** [loadItemsTask] *)

(** [struct Range { int low, high; }], both bounds included. *)
Record Range : Type := mkRange { low : Z; high : Z }.

#[global] Instance Range_eq_dec : EqDecision Range.
Proof. solve_decision. Defined.

Definition MAX_DIFFERENCE : Z := 4.

(** One turn of [for (const auto index : sortedIndexes)]: the last range
    grows or a new range is pushed. *)
Definition range_step (ranges : list Range) (index : Z) : list Range :=
  match last ranges with
  | Some back =>
      if wrap_int (index - high back) <? MAX_DIFFERENCE
      then <[pred (length ranges) := mkRange (low back) index]> ranges
      else ranges ++ [mkRange index index]
  | None => ranges
  end.

(** The ranges built from the sorted indexes (a non-empty vector). *)
Definition build_ranges (sortedIndexes : list Z) : list Range :=
  match sortedIndexes with
  | [] => []
  | first :: _ => foldl range_step [mkRange first first] sortedIndexes
  end.

(** [std::vector::at] with an [int] argument: [None] stands for the
    [std::out_of_range] exception. *)
Definition vector_at {A} (v : list A) (k : Z) : option A :=
  if bool_decide (0 ≤ k < Z.of_nat (length v)) then v !! Z.to_nat k else None.

Section Items.
Context {MLItem : Type}.
Abbreviation ItemType := (option MLItem).

(** [ctx.items.at(i) = std::move(data.at(k))]: the pointer moves to the
    slot and the source element is left null. *)
Definition move_slot (data items : list ItemType) (k : Z) (i : nat) :
    option (list ItemType * list ItemType) :=
  src ← vector_at data k;
  _ ← vector_at items (Z.of_nat i);
  Some (<[Z.to_nat k := None]> data, <[i := src]> items).

(** [for (int i = 0; i < indexes.size(); ++i)] from position [i] on,
    [rest] being the indexes not yet visited. *)
Fixpoint fill_from_range (range : Range) (rest : list Z) (i : nat)
    (data items : list ItemType) : option (list ItemType * list ItemType) :=
  match rest with
  | [] => Some (data, items)
  | targetIndex :: rest' =>
      if bool_decide (low range ≤ targetIndex) && bool_decide (targetIndex ≤ high range)
      then
        '(data', items') ← move_slot data items (wrap_int (targetIndex - low range)) i;
        fill_from_range range rest' (S i) data' items'
      else fill_from_range range rest' (S i) data items
  end.

(** [queryParam.i_nbResults = range.high - range.low + 1] *)
Definition range_count (range : Range) : Z :=
  wrap_int (wrap_int (high range - low range) + 1).

Context {MediaLibrary : Type} {V : MLOpVirtuals MediaLibrary MLItem}.

(** [for (const auto range : ranges)]: one [load] per range.  The result
    is the list of queries given to [load], in order, and the items. *)
Fixpoint load_ranges (op : MLOp) (ml : MediaLibrary)
    (queryParam : vlc_ml_query_params_t) (indexes : list Z)
    (ranges : list Range) (items : list ItemType) :
    option (list vlc_ml_query_params_t * list ItemType) :=
  match ranges with
  | [] => Some ([], items)
  | range :: ranges' =>
      let queryParam := set_window queryParam (low range) (range_count range) in
      let data := load op ml queryParam in
      '(_, items') ← fill_from_range range indexes 0 data items;
      '(queries, items'') ← load_ranges op ml queryParam indexes ranges' items';
      Some (queryParam :: queries, items'')
  end.

(** The work [loadItemsTask] runs on the ML thread; it fills [ctx.items].
    [std::sort] on integers gives the one sorted rearrangement of its input,
    as [merge_sort] does.  [default_offset] and [default_limit] are the
    default arguments of [getQueryParams], declared in the header. *)
Definition loadItemsTask_ml (default_offset default_limit : Z)
    (op : MLOp) (ml : MediaLibrary) (indexes : list Z) :
    option (list vlc_ml_query_params_t * list ItemType) :=
  if bool_decide (indexes = []) then Some ([], [])
  else
    let sortedIndexes := merge_sort Z.le indexes in
    let ranges := build_ranges sortedIndexes in
    let items := replicate (length indexes) None in
    let queryParam := getQueryParams op default_offset default_limit in
    load_ranges op ml queryParam indexes ranges items.

(** What a task does on the UI thread: calls of the callback given to
    the task, with the task id. *)
Inductive ItemsCall : Type :=
| ItemsCb (id : Z) (items : list ItemType).

Definition loadItemsTask_ui (id : Z) (ctx_items : list ItemType) : list ItemsCall :=
  [ItemsCb id ctx_items].

(** The whole of a [loadItemsTask] that ran under task id [id]. *)
Definition loadItemsTask (default_offset default_limit : Z)
    (op : MLOp) (ml : MediaLibrary) (id : Z) (indexes : list Z) :
    option (list vlc_ml_query_params_t * list ItemsCall) :=
  '(queries, items) ← loadItemsTask_ml default_offset default_limit op ml indexes;
  Some (queries, loadItemsTask_ui id items).

(** *** [loadItemByIdTask] *)

Inductive ItemCall : Type :=
| ItemCb (id : Z) (item : MLItem).

Definition loadItemByIdTask_ml (op : MLOp) (ml : MediaLibrary) (itemId : MLItemId) :
    ItemType :=
  loadItemById op ml itemId.

Definition loadItemByIdTask_ui (taskId : Z) (ctx_item : ItemType) : list ItemCall :=
  match ctx_item with
  | None => []
  | Some item => [ItemCb taskId item]
  end.

Definition loadItemByIdTask (op : MLOp) (ml : MediaLibrary) (taskId : Z)
    (itemId : MLItemId) : list ItemCall :=
  loadItemByIdTask_ui taskId (loadItemByIdTask_ml op ml itemId).

End Items.

End Loader.

(** ** The list model, [MLBaseModel] *)

Module Model.
Import CInt Qt ML Loader.

(** [Qt::SortOrder] *)
Inductive SortOrder : Type := AscendingOrder | DescendingOrder.

#[global] Instance SortOrder_eq_dec : EqDecision SortOrder.
Proof. solve_decision. Defined.

(** [QModelIndex]: valid when it has a row, a column and a model. *)
Record QModelIndex : Type := mkQModelIndex { row : Z; column : Z; has_model : bool }.

Definition isValid (index : QModelIndex) : bool :=
  (0 <=? row index) && (0 <=? column index) && has_model index.

(** [QModelIndex()] *)
Definition no_index : QModelIndex := mkQModelIndex (-1) (-1) false.

(** [QJSValue]: a handle on a JavaScript value. *)
Record QJSValue : Type := mkQJSValue { js_handle : Z; isCallable : bool }.

#[global] Instance QJSValue_eq_dec : EqDecision QJSValue.
Proof. solve_decision. Defined.

(** [MLListCacheLoader]: a media library (by address) and the operations
    that query it. *)
Record MLListCacheLoader : Type := mkLoader { m_medialib : Z; m_op : MLOp }.

(** The signals of the model and the notifications it gives to
    [QAbstractListModel], in the order of emission.  The constructor connects
    [resetRequested] to the slot [onResetRequested], and [mlChanged] and
    [countChanged] to the signal [loadingChanged]; sender and receiver are
    the model itself, so that a slot runs within the emission. *)
Inductive Signal : Type :=
| resetRequested
| parentIdChanged
| sortOrderChanged
| sortCriteriaChanged
| limitChanged
| offsetChanged
| loadingChanged
| mlChanged
| countChanged (queryCount : Z)
| maximumCountChanged (maximumCount : Z)
| beginResetModel
| endResetModel.

#[global] Instance Signal_eq_dec : EqDecision Signal.
Proof. solve_decision. Defined.

(** The callbacks the model gives to its loader, as the data they capture.
    [GetDataCallback] is the closure built by [getData]: it holds the number
    of requested rows, the JavaScript function and the address of the shared
    [quint64] that receives the request id. *)
Inductive ItemCallback : Type :=
| GetDataCallback (indxSize : Z) (callback : QJSValue) (requestId : positive)
| AddAndPlayCallback (options : list string).

(** The closure [updateItemInCache] gives to [loadItemByIdTask]. *)
Inductive ItemByIdCallback : Type :=
| UpdateItemCallback.

(** A task handed to [MediaLib::runOnMLThread] by the loader. *)
Inductive Task : Type :=
| LoadItemsTask (loader : MLListCacheLoader) (indexes : list Z) (cb : ItemCallback)
| LoadItemByIdTask (loader : MLListCacheLoader) (itemId : MLItemId) (cb : ItemByIdCallback).

Section WithInterfaces.
Context {MLItem Cache MediaLib QVariant : Type}.

(** The class template [ListCache] ([util/listcache.hpp]) as the model uses
    it.  [find] gives the item and its row. *)
Class ListCacheOps : Type := {
  COUNT_UNINITIALIZED : Z;
  cache_new : MLListCacheLoader → bool → Z → Z → Cache;
  initCount : Cache → Cache;
  invalidate : Cache → Cache;
  queryCount : Cache → Z;
  maximumCount : Cache → Z;
  find : Cache → (MLItem → bool) → option (MLItem * Z);
  updateItem : Cache → MLItem → Cache;
  deleteItem : Cache → (MLItem → bool) → Cache;
  moveRange : Cache → Z → Z → Z → Cache;
  deleteRange : Cache → Z → Z → Cache
}.

(** [COUNT_UNINITIALIZED] is an [ssize_t] that is no count. *)
Class ListCacheLaws {CO : ListCacheOps} : Prop := {
  COUNT_UNINITIALIZED_negative : COUNT_UNINITIALIZED < 0
}.

(** [MediaLib::runOnMLThread]: queues the task and returns its id. *)
Class MediaLibOps : Type := {
  runOnMLThread : MediaLib → Task → Z * MediaLib
}.

(** The data members of [MLBaseModel]. *)
Record MLBaseModel : Type := mkModel {
  m_mediaLib : option Z;
  m_parent : MLItemId;
  m_search_pattern : QString;
  m_sort : vlc_ml_sorting_criteria_t;
  m_sort_desc : bool;
  m_limit : Z;
  m_offset : Z;
  m_cache : option Cache;
  m_itemLoader : option MLListCacheLoader;
  m_need_reset : bool;
  m_qmlInitializing : bool
}.

(** The virtual members of [MLBaseModel] and of [MLItem] that the model
    calls. *)
Class ModelVirtuals : Type := {
  nameToCriteria : QByteArray → vlc_ml_sorting_criteria_t;
  cachable : MLBaseModel → bool;
  createLoader : MLBaseModel → MLListCacheLoader;
  roleNames : list (Z * string);
  itemRoleData : MLItem → Z → QVariant;
  getId : MLItem → MLItemId
}.

(** The model and what it shares with others: the media library, the
    [quint64] cells held through [std::shared_ptr], and whether a JavaScript
    engine is attached to the model ([qjsEngine(this)]). *)
Record World : Type := mkWorld {
  model : MLBaseModel;
  medialib : MediaLib;
  cells : gmap positive Z;
  issued : list (Z * Task);
  jsEngine : bool
}.

Definition with_model (f : MLBaseModel → MLBaseModel) (w : World) : World :=
  {| model := f (model w); medialib := medialib w; cells := cells w;
     issued := issued w; jsEngine := jsEngine w |}.

Definition set_parent (v : MLItemId) (m : MLBaseModel) : MLBaseModel :=
  {| m_mediaLib := m_mediaLib m; m_parent := v;
     m_search_pattern := m_search_pattern m; m_sort := m_sort m;
     m_sort_desc := m_sort_desc m; m_limit := m_limit m; m_offset := m_offset m;
     m_cache := m_cache m; m_itemLoader := m_itemLoader m;
     m_need_reset := m_need_reset m; m_qmlInitializing := m_qmlInitializing m |}.

Definition set_search_pattern (v : QString) (m : MLBaseModel) : MLBaseModel :=
  {| m_mediaLib := m_mediaLib m; m_parent := m_parent m;
     m_search_pattern := v; m_sort := m_sort m;
     m_sort_desc := m_sort_desc m; m_limit := m_limit m; m_offset := m_offset m;
     m_cache := m_cache m; m_itemLoader := m_itemLoader m;
     m_need_reset := m_need_reset m; m_qmlInitializing := m_qmlInitializing m |}.

Definition set_sort (v : vlc_ml_sorting_criteria_t) (m : MLBaseModel) : MLBaseModel :=
  {| m_mediaLib := m_mediaLib m; m_parent := m_parent m;
     m_search_pattern := m_search_pattern m; m_sort := v;
     m_sort_desc := m_sort_desc m; m_limit := m_limit m; m_offset := m_offset m;
     m_cache := m_cache m; m_itemLoader := m_itemLoader m;
     m_need_reset := m_need_reset m; m_qmlInitializing := m_qmlInitializing m |}.

Definition set_sort_desc (v : bool) (m : MLBaseModel) : MLBaseModel :=
  {| m_mediaLib := m_mediaLib m; m_parent := m_parent m;
     m_search_pattern := m_search_pattern m; m_sort := m_sort m;
     m_sort_desc := v; m_limit := m_limit m; m_offset := m_offset m;
     m_cache := m_cache m; m_itemLoader := m_itemLoader m;
     m_need_reset := m_need_reset m; m_qmlInitializing := m_qmlInitializing m |}.

Definition set_limit (v : Z) (m : MLBaseModel) : MLBaseModel :=
  {| m_mediaLib := m_mediaLib m; m_parent := m_parent m;
     m_search_pattern := m_search_pattern m; m_sort := m_sort m;
     m_sort_desc := m_sort_desc m; m_limit := v; m_offset := m_offset m;
     m_cache := m_cache m; m_itemLoader := m_itemLoader m;
     m_need_reset := m_need_reset m; m_qmlInitializing := m_qmlInitializing m |}.

Definition set_offset (v : Z) (m : MLBaseModel) : MLBaseModel :=
  {| m_mediaLib := m_mediaLib m; m_parent := m_parent m;
     m_search_pattern := m_search_pattern m; m_sort := m_sort m;
     m_sort_desc := m_sort_desc m; m_limit := m_limit m; m_offset := v;
     m_cache := m_cache m; m_itemLoader := m_itemLoader m;
     m_need_reset := m_need_reset m; m_qmlInitializing := m_qmlInitializing m |}.

Definition set_cache (v : option Cache) (m : MLBaseModel) : MLBaseModel :=
  {| m_mediaLib := m_mediaLib m; m_parent := m_parent m;
     m_search_pattern := m_search_pattern m; m_sort := m_sort m;
     m_sort_desc := m_sort_desc m; m_limit := m_limit m; m_offset := m_offset m;
     m_cache := v; m_itemLoader := m_itemLoader m;
     m_need_reset := m_need_reset m; m_qmlInitializing := m_qmlInitializing m |}.

Definition set_itemLoader (v : option MLListCacheLoader) (m : MLBaseModel) : MLBaseModel :=
  {| m_mediaLib := m_mediaLib m; m_parent := m_parent m;
     m_search_pattern := m_search_pattern m; m_sort := m_sort m;
     m_sort_desc := m_sort_desc m; m_limit := m_limit m; m_offset := m_offset m;
     m_cache := m_cache m; m_itemLoader := v;
     m_need_reset := m_need_reset m; m_qmlInitializing := m_qmlInitializing m |}.

(** A member function: from the world before the call to its result, the
    world after it and the signals it emitted. *)
Definition Op (A : Type) : Type := World → A * World * list Signal.

Definition ret {A} (a : A) : Op A := λ w, (a, w, []).

Definition bind {A B} (f : Op A) (g : A → Op B) : Op B :=
  λ w, let '(a, w1, s1) := f w in
       let '(b, w2, s2) := g a w1 in
       (b, w2, s1 ++ s2).

(** A signal joins the log of the emissions. *)
Definition signal (s : Signal) : Op unit := λ w, (tt, w, [s]).

Definition get_model : Op MLBaseModel := λ w, (model w, w, []).

Definition update_model (f : MLBaseModel → MLBaseModel) : Op unit :=
  λ w, (tt, with_model f w, []).

End WithInterfaces.

Arguments ListCacheOps : clear implicits.
Arguments MediaLibOps : clear implicits.
Arguments MLBaseModel : clear implicits.
Arguments ModelVirtuals : clear implicits.
Arguments World : clear implicits.
Arguments Op : clear implicits.

#[global] Instance Op_ret {Cache MediaLib : Type} : MRet (Op Cache MediaLib) :=
  λ A, ret.
#[global] Instance Op_bind {Cache MediaLib : Type} : MBind (Op Cache MediaLib) :=
  λ A B g f, bind f g.

Section Members.
Context {MLItem Cache MediaLib QVariant : Type}.
Context {CO : ListCacheOps MLItem Cache} {MO : MediaLibOps MediaLib}.
Context {MV : ModelVirtuals MLItem Cache QVariant}.

Abbreviation model_t := (MLBaseModel Cache).
Abbreviation op_t := (Op Cache MediaLib).

(** [emit loadingChanged()]: the constructor connects nothing to
    [loadingChanged]. *)
Definition emit_loadingChanged : op_t unit := signal loadingChanged.

(** [MLBaseModel::validateCache] *)
Definition validateCache : op_t unit :=
  m ← get_model;
  match m_cache m with
  | Some _ => ret tt
  | None =>
      if negb (cachable m) then ret tt
      else
        let loader := createLoader m in
        let cache := cache_new loader false (m_limit m) (m_offset m) in
        update_model (set_cache (Some (initCount cache)));;
        emit_loadingChanged
  end.

(** [MLBaseModel::invalidateCache] *)
Definition invalidateCache : op_t unit :=
  m ← get_model;
  match m_cache m with
  | Some cache =>
      update_model (set_cache (Some (invalidate cache)));;
      emit_loadingChanged
  | None => validateCache
  end.

(** [MLBaseModel::onResetRequested], the slot of [resetRequested] *)
Definition onResetRequested : op_t unit := invalidateCache.

(** The connections made by the constructor: [resetRequested] runs
    [onResetRequested]; [mlChanged] and [countChanged] are relayed to
    [loadingChanged]. *)
Definition connected (s : Signal) : op_t unit :=
  match s with
  | resetRequested => onResetRequested
  | mlChanged | countChanged _ => emit_loadingChanged
  | _ => ret tt
  end.

(** [emit s]: the signal, then what the constructor connected to it. *)
Definition emit (s : Signal) : op_t unit :=
  bind (signal s) (λ _, connected s).

(** [MLBaseModel::resetCache] *)
Definition resetCache : op_t unit :=
  emit beginResetModel;;
  update_model (set_cache None);;
  emit endResetModel;;
  validateCache.


(** [MLBaseModel::setParentId] *)
Definition setParentId (parentId : MLItemId) : op_t unit :=
  update_model (set_parent parentId);;
  resetCache;;
  emit parentIdChanged.

(** [MLBaseModel::setSearchPattern] *)
Definition setSearchPattern (pattern : QString) : op_t unit :=
  let patternToApply :=
    if QString_length pattern =? 0 then QString_null else pattern in
  m ← get_model;
  if QString_equal patternToApply (m_search_pattern m) then ret tt
  else
    update_model (set_search_pattern patternToApply);;
    resetCache.

(** [MLBaseModel::setSortOrder] *)
Definition setSortOrder (order : SortOrder) : op_t unit :=
  let desc := bool_decide (order = DescendingOrder) in
  m ← get_model;
  if bool_decide (m_sort_desc m = desc) then ret tt
  else
    update_model (set_sort_desc desc);;
    resetCache;;
    emit sortOrderChanged.

(** [MLBaseModel::setSortCriteria] *)
Definition setSortCriteria (criteria : QString) : op_t unit :=
  let sort := nameToCriteria (toUtf8 criteria) in
  m ← get_model;
  if bool_decide (m_sort m = sort) then ret tt
  else
    update_model (set_sort sort);;
    resetCache;;
    emit sortCriteriaChanged.

(** [MLBaseModel::setLimit] *)
Definition setLimit (limit : Z) : op_t unit :=
  m ← get_model;
  if bool_decide (m_limit m = limit) then ret tt
  else
    update_model (set_limit limit);;
    resetCache;;
    emit limitChanged.

(** [MLBaseModel::setOffset] *)
Definition setOffset (offset : Z) : op_t unit :=
  m ← get_model;
  if bool_decide (m_offset m = offset) then ret tt
  else
    update_model (set_offset offset);;
    resetCache;;
    emit offsetChanged.

(** [MLBaseModel::rowCount]; the [ssize_t] count is returned as an [int]. *)
Definition rowCount (m : model_t) (parent : QModelIndex) : Z :=
  match m_cache m with
  | None => 0
  | Some cache => if isValid parent then 0 else wrap_int (queryCount cache)
  end.

(** [MLBaseModel::getCount] *)
Definition getCount (m : model_t) : Z :=
  match m_cache m with
  | None => 0
  | Some cache =>
      if bool_decide (queryCount cache = COUNT_UNINITIALIZED) then 0
      else to_unsigned (queryCount cache)
  end.

(** [MLBaseModel::getMaximumCount] *)
Definition getMaximumCount (m : model_t) : Z :=
  match m_cache m with
  | None => 0
  | Some cache =>
      if bool_decide (maximumCount cache = COUNT_UNINITIALIZED) then 0
      else to_unsigned (maximumCount cache)
  end.

(** [MLBaseModel::loading] *)
Definition loading (m : model_t) : bool :=
  negb (bool_decide (is_Some (m_mediaLib m))
        && match m_cache m with
           | Some cache => negb (bool_decide (queryCount cache = COUNT_UNINITIALIZED))
           | None => false
           end).

(** [MLBaseModel::findInCache], without the row. *)
Definition findInCache (cache : Cache) (id : MLItemId) : option MLItem :=
  fst <$> find cache (λ item, bool_decide (getId item = id)).

(** The loader hands a task to the media library; the id is returned. *)
Definition run_task (task : Task) : op_t Z :=
  λ w, let '(taskId, ml) := runOnMLThread (medialib w) task in
       (taskId,
        {| model := model w; medialib := ml; cells := cells w;
           issued := issued w ++ [(taskId, task)]; jsEngine := jsEngine w |},
        []).

(** [if (!m_itemLoader) m_itemLoader = createLoader();] *)
Definition itemLoader : op_t MLListCacheLoader :=
  m ← get_model;
  match m_itemLoader m with
  | Some loader => ret loader
  | None =>
      let loader := createLoader m in
      update_model (set_itemLoader (Some loader));;
      ret loader
  end.

(** [MLBaseModel::loadItems] *)
Definition loadItems (indexes : list Z) (cb : ItemCallback) : op_t Z :=
  loader ← itemLoader;
  run_task (LoadItemsTask loader indexes cb).

(** [std::make_shared<quint64>()]: a fresh cell holding zero. *)
Definition make_shared : op_t positive :=
  λ w, let l := fresh (dom (cells w)) in
       (l,
        {| model := model w; medialib := medialib w; cells := <[l := 0]> (cells w);
           issued := issued w; jsEngine := jsEngine w |},
        []).

(** [*requestId = v] *)
Definition store (l : positive) (v : Z) : op_t unit :=
  λ w, (tt,
        {| model := model w; medialib := medialib w; cells := <[l := v]> (cells w);
           issued := issued w; jsEngine := jsEngine w |},
        []).

(** [MLBaseModel::getData] *)
Definition getData (indexes : list QModelIndex) (callback : QJSValue) : op_t unit :=
  if negb (isCallable callback) then ret tt
  else
    let indx := row <$> indexes in
    requestId ← make_shared;
    let cb := GetDataCallback (Z.of_nat (length indx)) callback requestId in
    taskId ← loadItems indx cb;
    store requestId taskId.

(** [MLBaseModel::addAndPlay] *)
Definition addAndPlay (indexes : list QModelIndex) (options : list string) :
    op_t unit :=
  let indx := row <$> indexes in
  loadItems indx (AddAndPlayCallback options);;
  ret tt.

(** What a call of a closure of [getData] or [addAndPlay] does: nothing, a
    failed assertion, a call of the JavaScript function with an array of
    dictionaries, or a call of [MediaLib::addAndPlay] with the ids of the
    items (none for a null item). *)
Inductive CallbackEffect : Type :=
| Dropped
| AssertionFailed
| JSCall (callback : QJSValue) (jsArray : list (gmap string QVariant))
| MediaLibAddAndPlay (ids : list (option MLItemId)) (options : list string).

(** The dictionary of an item: [dataDict[roles[role]] = itemRoleData(item,
    role)] for each role in turn, and no entry for a null item. *)
Definition dataDict (item : option MLItem) : gmap string QVariant :=
  match item with
  | Some it =>
      foldl (λ dict role, <[role.2 := itemRoleData it role.1]> dict) ∅ roleNames
  | None => ∅
  end.

(** The body of the closure of [getData], called with a task id and the
    loaded items. *)
Definition GetDataCallback_call (w : World Cache MediaLib)
    (indxSize : Z) (callback : QJSValue) (requestId : positive)
    (id : Z) (items : list (option MLItem)) : CallbackEffect :=
  if negb (jsEngine w) || negb (bool_decide (cells w !! requestId = Some id))
  then Dropped
  else if negb (bool_decide (wrap_int (Z.of_nat (length items)) = indxSize))
  then AssertionFailed
  else JSCall callback (dataDict <$> items).

(** The body of the closure of [addAndPlay]. *)
Definition AddAndPlayCallback_call (w : World Cache MediaLib) (options : list string)
    (items : list (option MLItem)) : CallbackEffect :=
  match m_mediaLib (model w) with
  | None => Dropped
  | Some _ =>
      MediaLibAddAndPlay
        ((λ item : option MLItem, getId <$> item) <$> items) options
  end.

(** A call of an [ItemCallback]. *)
Definition ItemCallback_call (w : World Cache MediaLib) (cb : ItemCallback)
    (id : Z) (items : list (option MLItem)) : CallbackEffect :=
  match cb with
  | GetDataCallback indxSize callback requestId =>
      GetDataCallback_call w indxSize callback requestId id items
  | AddAndPlayCallback options => AddAndPlayCallback_call w options items
  end.

(** [MLBaseModel::updateItemInCache] *)
Definition updateItemInCache (mlid : MLItemId) : op_t unit :=
  m ← get_model;
  match m_cache m with
  | None => emit resetRequested
  | Some cache =>
      match findInCache cache mlid with
      | None => ret tt
      | Some _ =>
          loader ← itemLoader;
          run_task (LoadItemByIdTask loader mlid UpdateItemCallback);;
          ret tt
      end
  end.

(** The closure given by [updateItemInCache], called with a loaded item:
    [m_cache->updateItem(std::move(item))].  [None] when there is no cache
    to dereference. *)
Definition UpdateItemCallback_call (w : World Cache MediaLib) (item : MLItem) :
    option (World Cache MediaLib) :=
  match m_cache (model w) with
  | Some cache => Some (with_model (set_cache (Some (updateItem cache item))) w)
  | None => None
  end.

(** [MLBaseModel::deleteItemInCache] *)
Definition deleteItemInCache (mlid : MLItemId) : op_t unit :=
  m ← get_model;
  match m_cache m with
  | None => emit resetRequested
  | Some cache =>
      update_model (set_cache (Some
        (deleteItem cache (λ item, bool_decide (getId item = mlid)))))
  end.

(** [MLBaseModel::moveRangeInCache] *)
Definition moveRangeInCache (first last to : Z) : op_t unit :=
  m ← get_model;
  match m_cache m with
  | None => emit resetRequested
  | Some cache => update_model (set_cache (Some (moveRange cache first last to)))
  end.

(** [MLBaseModel::deleteRangeInCache] *)
Definition deleteRangeInCache (first last : Z) : op_t unit :=
  m ← get_model;
  match m_cache m with
  | None => emit resetRequested
  | Some cache => update_model (set_cache (Some (deleteRange cache first last)))
  end.

End Members.

End Model.

(** ** Windows video output, [common.c] *)

Module Win32.
Import CInt.

(** The configurations of the preprocessor that [common.c] tests. *)
Inductive module_name : Type :=
| direct3d9
| direct3d11
| glwin32
| other_module.

#[global] Instance module_name_eq_dec : EqDecision module_name.
Proof. solve_decision. Defined.

Record build : Type := mkBuild {
  VLC_WINSTORE_APP : bool;
  MODULE_NAME : module_name
}.

(** Handles and pointers are addresses, [NULL] being 0. *)
Definition HWND : Type := Z.
Definition NULL : Z := 0.

Record RECT : Type := mkRECT { left : Z; top : Z; right : Z; bottom : Z }.
Record POINT : Type := mkPOINT { x : Z; y : Z }.

#[global] Instance RECT_eq_dec : EqDecision RECT.
Proof. solve_decision. Defined.
#[global] Instance POINT_eq_dec : EqDecision POINT.
Proof. solve_decision. Defined.

(** The macros [RECTWidth] and [RECTHeight] of [common.h]. *)
Definition RECTWidth (r : RECT) : Z := wrap_int (right r - left r).
Definition RECTHeight (r : RECT) : Z := wrap_int (bottom r - top r).

Definition EqualRect (r1 r2 : RECT) : bool :=
  bool_decide (left r1 = left r2) && bool_decide (right r1 = right r2) &&
  bool_decide (top r1 = top r2) && bool_decide (bottom r1 = bottom r2).

Definition OffsetRect (r : RECT) (dx dy : Z) : RECT :=
  {| left := wrap_int (left r + dx); top := wrap_int (top r + dy);
     right := wrap_int (right r + dx); bottom := wrap_int (bottom r + dy) |}.

(** Constants of the Windows headers. *)
Definition SWP_NOSIZE : Z := 0x0001.
Definition SWP_NOMOVE : Z := 0x0002.
Definition SWP_NOZORDER : Z := 0x0004.
Definition SWP_FRAMECHANGED : Z := 0x0020.
Definition SWP_SHOWWINDOW : Z := 0x0040.
Definition SWP_NOCOPYBITS : Z := 0x0100.
Definition SWP_ASYNCWINDOWPOS : Z := 0x4000.
Definition GWL_STYLE : Z := -16.
Definition GWL_EXSTYLE : Z := -20.
Definition WS_CLIPCHILDREN : Z := 0x02000000.
Definition WS_VISIBLE : Z := 0x10000000.
Definition WS_EX_TOPMOST : Z := 0x00000008.
Definition SW_HIDE : Z := 0.
Definition SW_SHOWNORMAL : Z := 1.
Definition SW_SHOWMAXIMIZED : Z := 3.
Definition SW_SHOW : Z := 5.
Definition HWND_TOPMOST : Z := -1.
Definition HWND_NOTOPMOST : Z := -2.
Definition GA_ROOT : Z := 2.
Definition MONITOR_DEFAULTTONEAREST : Z := 2.
Definition MF_BYCOMMAND : Z := 0.
Definition MFS_CHECKED : Z := 8.
Definition MFS_UNCHECKED : Z := 0.
Definition S_OK : Z := 0.

(** Return codes of [vlc_common.h]. *)
Definition VLC_SUCCESS : Z := 0.
Definition VLC_EGENERIC : Z := -1.

(** [video_format_t], the fields read here. *)
Record video_format_t : Type := mkVideoFormat {
  i_width : Z;
  i_height : Z;
  i_x_offset : Z;
  i_y_offset : Z;
  i_visible_width : Z;
  i_visible_height : Z
}.

Inductive vertical_align : Type :=
| VLC_VIDEO_ALIGN_CENTER
| VLC_VIDEO_ALIGN_TOP
| VLC_VIDEO_ALIGN_BOTTOM.

#[global] Instance vertical_align_eq_dec : EqDecision vertical_align.
Proof. solve_decision. Defined.

(** [vout_display_cfg_t], the fields read or written here; [cfg_rest]
    stands for the others. *)
Record vout_display_cfg_t : Type := mkCfg {
  display_width : Z;
  display_height : Z;
  align_vertical : vertical_align;
  is_fullscreen : bool;
  cfg_rest : Z
}.

Definition set_display_size (cfg : vout_display_cfg_t) (width height : Z) :
    vout_display_cfg_t :=
  {| display_width := width; display_height := height;
     align_vertical := align_vertical cfg; is_fullscreen := is_fullscreen cfg;
     cfg_rest := cfg_rest cfg |}.

Definition set_align_vertical (cfg : vout_display_cfg_t) (v : vertical_align) :
    vout_display_cfg_t :=
  {| display_width := display_width cfg; display_height := display_height cfg;
     align_vertical := v; is_fullscreen := is_fullscreen cfg;
     cfg_rest := cfg_rest cfg |}.

(** [vout_display_place_t] *)
Record vout_display_place_t : Type := mkPlace {
  place_x : Z;
  place_y : Z;
  place_width : Z;
  place_height : Z
}.

(** [vout_display_t], of which only the source format is read. *)
Record vout_display_t : Type := mkVout { source : video_format_t }.

(** [WINDOWPLACEMENT] and [MONITORINFO], by what they hold. *)
Record WINDOWPLACEMENT : Type := mkPlacement { placement_data : Z }.
Record MONITORINFO : Type := mkMonitorInfo { rcMonitor : RECT }.

#[global] Instance WINDOWPLACEMENT_eq_dec : EqDecision WINDOWPLACEMENT.
Proof. solve_decision. Defined.

(** What [sys->pf_GetRect] points to: the [GetRect] of [common.c], set by
    [CommonInit], or a function of the display module. *)
Inductive GetRect_fn : Type :=
| GetRect_common
| GetRect_module.

(** [vout_display_sys_win32_t] *)
Record vout_display_sys_win32_t : Type := mkSys {
  event : Z;
  parent_window : Z;
  hwnd : HWND;
  hvideownd : HWND;
  hparent : HWND;
  hfswnd : HWND;
  rect_dest_changed : bool;
  b_windowless : bool;
  is_first_placement : bool;
  is_on_top : bool;
  use_desktop : bool;
  rect_display : RECT;
  rect_parent : RECT;
  rect_dest : RECT;
  vdcfg : vout_display_cfg_t;
  pf_GetRect : GetRect_fn
}.

Definition set_vdcfg (v : vout_display_cfg_t) (s : vout_display_sys_win32_t) :
    vout_display_sys_win32_t :=
  {| event := event s; parent_window := parent_window s; hwnd := hwnd s;
     hvideownd := hvideownd s; hparent := hparent s; hfswnd := hfswnd s;
     rect_dest_changed := rect_dest_changed s; b_windowless := b_windowless s;
     is_first_placement := is_first_placement s; is_on_top := is_on_top s;
     use_desktop := use_desktop s; rect_display := rect_display s;
     rect_parent := rect_parent s; rect_dest := rect_dest s; vdcfg := v;
     pf_GetRect := pf_GetRect s |}.

Definition set_rect_display (v : RECT) (s : vout_display_sys_win32_t) :
    vout_display_sys_win32_t :=
  {| event := event s; parent_window := parent_window s; hwnd := hwnd s;
     hvideownd := hvideownd s; hparent := hparent s; hfswnd := hfswnd s;
     rect_dest_changed := rect_dest_changed s; b_windowless := b_windowless s;
     is_first_placement := is_first_placement s; is_on_top := is_on_top s;
     use_desktop := use_desktop s; rect_display := v;
     rect_parent := rect_parent s; rect_dest := rect_dest s; vdcfg := vdcfg s;
     pf_GetRect := pf_GetRect s |}.

Definition set_is_first_placement (v : bool) (s : vout_display_sys_win32_t) :
    vout_display_sys_win32_t :=
  {| event := event s; parent_window := parent_window s; hwnd := hwnd s;
     hvideownd := hvideownd s; hparent := hparent s; hfswnd := hfswnd s;
     rect_dest_changed := rect_dest_changed s; b_windowless := b_windowless s;
     is_first_placement := v; is_on_top := is_on_top s;
     use_desktop := use_desktop s; rect_display := rect_display s;
     rect_parent := rect_parent s; rect_dest := rect_dest s; vdcfg := vdcfg s;
     pf_GetRect := pf_GetRect s |}.

Definition set_rect_dest (v : RECT) (changed : bool) (s : vout_display_sys_win32_t) :
    vout_display_sys_win32_t :=
  {| event := event s; parent_window := parent_window s; hwnd := hwnd s;
     hvideownd := hvideownd s; hparent := hparent s; hfswnd := hfswnd s;
     rect_dest_changed := changed; b_windowless := b_windowless s;
     is_first_placement := is_first_placement s; is_on_top := is_on_top s;
     use_desktop := use_desktop s; rect_display := rect_display s;
     rect_parent := rect_parent s; rect_dest := v; vdcfg := vdcfg s;
     pf_GetRect := pf_GetRect s |}.

Definition set_is_on_top (v : bool) (s : vout_display_sys_win32_t) :
    vout_display_sys_win32_t :=
  {| event := event s; parent_window := parent_window s; hwnd := hwnd s;
     hvideownd := hvideownd s; hparent := hparent s; hfswnd := hfswnd s;
     rect_dest_changed := rect_dest_changed s; b_windowless := b_windowless s;
     is_first_placement := is_first_placement s; is_on_top := v;
     use_desktop := use_desktop s; rect_display := rect_display s;
     rect_parent := rect_parent s; rect_dest := rect_dest s; vdcfg := vdcfg s;
     pf_GetRect := pf_GetRect s |}.

(** The calls that act on the windows, the taskbar or COM, in the order
    they are made.  Diagnostic messages are left out. *)
Inductive os_call : Type :=
| SetWindowPos (h insert_after : HWND) (X Y cx cy : Z) (flags : Z)
| SetWindowLong (h : HWND) (index value : Z)
| ShowWindow (h : HWND) (cmd : Z)
| SetParent (child new_parent : HWND)
| SetForegroundWindow (h : HWND)
| SetWindowPlacement (h : HWND) (placement : WINDOWPLACEMENT)
| CheckMenuItem (menu : Z) (item : Z) (flags : Z)
| CoInitializeEx
| CoCreateInstance_TaskbarList
| TaskbarList_HrInit
| TaskbarList_SetThumbnailClip (hroot : HWND) (clip : option RECT)
| TaskbarList_Release
| CoUninitialize.

#[global] Instance os_call_eq_dec : EqDecision os_call.
Proof. solve_decision. Defined.

Definition is_SetWindowPos_of (h : HWND) (c : os_call) : bool :=
  match c with
  | SetWindowPos h' _ _ _ _ _ _ => bool_decide (h' = h)
  | _ => false
  end.

Section WithInterfaces.
Context {EventThread : Type}.

(** What the Windows API answers, given the calls made so far. *)
Class Win32Answers : Type := {
  GetClientRect : list os_call → HWND → bool * RECT;
  ClientToScreen : list os_call → HWND → POINT → POINT;
  ScreenToClient : list os_call → HWND → POINT → bool * POINT;
  GetWindowRect : list os_call → HWND → RECT;
  GetWindowPlacement : list os_call → HWND → WINDOWPLACEMENT;
  GetWindowLong : list os_call → HWND → Z → Z;
  GetAncestor : list os_call → HWND → Z → HWND;
  GetSystemMenu : list os_call → HWND → Z;
  MonitorFromWindow : list os_call → HWND → Z → Z;
  GetMonitorInfo : list os_call → Z → option MONITORINFO;
  AdjustWindowRect : list os_call → RECT → Z → RECT;
  GetVersionEx : list os_call → option Z;
  CoInitializeEx_succeeds : list os_call → bool;
  CoCreateInstance_result : list os_call → Z
}.

(** The event thread ([events.c]) and the parts of the core and of the
    display module that [common.c] calls. *)
Class VoutOps : Type := {
  EventThreadUpdateWindowPosition : EventThread → RECT → bool * EventThread;
  EventThreadUpdateSourceAndPlace :
    EventThread → video_format_t → vout_display_place_t → EventThread;
  EventThreadGetWindowStyle : EventThread → Z;
  EventThreadGetAndResetHasMoved : EventThread → bool * EventThread;
  vout_display_PlacePicture : video_format_t → vout_display_cfg_t → vout_display_place_t;
  module_GetRect : vout_display_sys_win32_t → list os_call → bool * RECT;
  VOUT_WINDOW_STATE_ABOVE : Z;
  IDM_TOGGLE_ON_TOP : Z
}.

(** The display, its event thread and the calls made to the system. *)
Record World : Type := mkWorld {
  sys : vout_display_sys_win32_t;
  event_thread : EventThread;
  os : list os_call
}.

Definition with_sys (f : vout_display_sys_win32_t → vout_display_sys_win32_t)
    (w : World) : World :=
  {| sys := f (sys w); event_thread := event_thread w; os := os w |}.

Definition with_event_thread (e : EventThread) (w : World) : World :=
  {| sys := sys w; event_thread := e; os := os w |}.

Definition call (c : os_call) (w : World) : World :=
  {| sys := sys w; event_thread := event_thread w; os := os w ++ [c] |}.

End WithInterfaces.

Arguments Win32Answers : clear implicits.
Arguments VoutOps : clear implicits.
Arguments World : clear implicits.

Section Functions.
Context {EventThread : Type}.
Context {WA : Win32Answers} {VO : VoutOps EventThread}.

Abbreviation world := (World EventThread).

(** [GetRect], the function [CommonInit] stores in [pf_GetRect]. *)
Definition GetRect (s : vout_display_sys_win32_t) (calls : list os_call) : bool * RECT :=
  if b_windowless s then (false, mkRECT 0 0 0 0)
  else GetClientRect calls (hwnd s).

(** [sys->pf_GetRect(sys, &rect)] *)
Definition call_pf_GetRect (w : world) : bool * RECT :=
  match pf_GetRect (sys w) with
  | GetRect_common => GetRect (sys w) (os w)
  | GetRect_module => module_GetRect (sys w) (os w)
  end.

(** [CommonChangeThumbnailClip]; [None] when [vlc_assert_unreachable] is
    reached. *)
Definition CommonChangeThumbnailClip (show : bool) (w : world) : option world :=
  match GetVersionEx (os w) with
  | None => Some w
  | Some dwMajorVersion =>
      if dwMajorVersion <=? 5 then Some w
      else if negb (CoInitializeEx_succeeds (os w)) then None
      else
        let w := call CoInitializeEx w in
        let hr := CoCreateInstance_result (os w) in
        let w := call CoCreateInstance_TaskbarList w in
        let w :=
          if bool_decide (hr = S_OK) then
            let w := call TaskbarList_HrInit w in
            let hroot := GetAncestor (os w) (hwnd (sys w)) GA_ROOT in
            let video :=
              if show then
                let video := GetWindowRect (os w) (hparent (sys w)) in
                let '(ok, client) :=
                  ScreenToClient (os w) hroot (mkPOINT (left video) (top video)) in
                if ok then
                  let width := to_unsigned (RECTWidth video) in
                  let height := to_unsigned (RECTHeight video) in
                  {| left := x client; top := y client;
                     right := wrap_int (x client + width);
                     bottom := wrap_int (y client + height) |}
                else video
              else mkRECT 0 0 0 0 in
            let w :=
              call (TaskbarList_SetThumbnailClip hroot
                      (if show then Some video else None)) w in
            call TaskbarList_Release w
          else w in
        Some (call CoUninitialize w)
  end.

(** [UpdateRects], "Retrieve the window size": whether a size was found,
    and the size. *)
Definition window_size (vd : vout_display_t) (w : world) : bool * RECT :=
  if b_windowless (sys w)
  then (true, mkRECT 0 0 (i_visible_width (source vd)) (i_visible_height (source vd)))
  else call_pf_GetRect w.

(** [UpdateRects], "If nothing changed, we can return": the value of
    [moved_or_resized], the rectangle of the window on the screen and the
    position of its corner. *)
Definition observe_geometry (b : build) (rect : RECT) (w : world) :
    bool * RECT * POINT * world :=
  if VLC_WINSTORE_APP b then
    (negb (bool_decide (RECTWidth rect = RECTWidth (rect_display (sys w))))
     || negb (bool_decide (RECTHeight rect = RECTHeight (rect_display (sys w)))),
     rect, mkPOINT 0 0, with_sys (set_rect_display rect) w)
  else if b_windowless (sys w) then (false, rect, mkPOINT 0 0, w)
  else
    let point := ClientToScreen (os w) (hwnd (sys w)) (mkPOINT 0 0) in
    let rect := OffsetRect rect (x point) (y point) in
    let '(moved, e) := EventThreadUpdateWindowPosition (event_thread w) rect in
    (moved, rect, point, with_event_thread e w).

(** [UpdateRects], from "Update the window position and size" to the end. *)
Definition place_picture (b : build) (vd : vout_display_t) (rect : RECT)
    (point : POINT) (w : world) : option world :=
  let src := source vd in
  let cfg := vdcfg (sys w) in
  let place_cfg := set_display_size cfg (RECTWidth rect) (RECTHeight rect) in
  let place_cfg :=
    if bool_decide (MODULE_NAME b = glwin32) then
      match align_vertical place_cfg with
      | VLC_VIDEO_ALIGN_TOP => set_align_vertical place_cfg VLC_VIDEO_ALIGN_BOTTOM
      | VLC_VIDEO_ALIGN_BOTTOM => set_align_vertical place_cfg VLC_VIDEO_ALIGN_TOP
      | VLC_VIDEO_ALIGN_CENTER => place_cfg
      end
    else place_cfg in
  let place := vout_display_PlacePicture src place_cfg in
  let w :=
    if negb (VLC_WINSTORE_APP b) && negb (b_windowless (sys w)) then
      let w :=
        with_event_thread
          (EventThreadUpdateSourceAndPlace (event_thread w) src place) w in
      let swpFlags :=
        Z.lor (Z.lor SWP_NOCOPYBITS SWP_NOZORDER) SWP_ASYNCWINDOWPOS in
      let '(swpFlags, w) :=
        if is_first_placement (sys w)
        then (Z.lor swpFlags SWP_SHOWWINDOW,
              with_sys (set_is_first_placement false) w)
        else (swpFlags, w) in
      call (SetWindowPos (hvideownd (sys w)) 0
              (place_x place) (place_y place)
              (place_width place) (place_height place) swpFlags) w
    else w in
  let before_rect_dest := rect_dest (sys w) in
  let new_rect_dest :=
    if bool_decide (MODULE_NAME b = direct3d11) && negb (VLC_WINSTORE_APP b) then
      {| left := 0; right := place_width place;
         top := 0; bottom := place_height place |}
    else
      let l := wrap_int (x point + place_x place) in
      let t := wrap_int (y point + place_y place) in
      {| left := l; right := wrap_int (l + place_width place);
         top := t; bottom := wrap_int (t + place_height place) |} in
  let changed :=
    if negb (EqualRect before_rect_dest new_rect_dest) then true
    else rect_dest_changed (sys w) in
  let w := with_sys (set_rect_dest new_rect_dest changed) w in
  if negb (VLC_WINSTORE_APP b) then CommonChangeThumbnailClip true w
  else Some w.

(** [UpdateRects]; [None] when [vlc_assert_unreachable] is reached. *)
Definition UpdateRects (b : build) (vd : vout_display_t) (is_forced : bool)
    (w : world) : option world :=
  let '(got, rect) := window_size vd w in
  if negb got then Some w
  else
    let '(moved_or_resized, rect, point, w) := observe_geometry b rect w in
    if negb is_forced && negb moved_or_resized then Some w
    else place_picture b vd rect point w.

(** [CommonControlSetFullscreen] (builds that are not a Windows Store
    app): the return code and the world after the call. *)
Definition CommonControlSetFullscreen (b : build) (fullscreen : bool) (w : world) :
    Z * world :=
  let s := sys w in
  if bool_decide (MODULE_NAME b = direct3d9) && use_desktop s && fullscreen
  then (VLC_EGENERIC, w)
  else if negb (bool_decide (parent_window s = NULL)) then (VLC_EGENERIC, w)
  else if b_windowless s then (VLC_SUCCESS, w)
  else
    let has_parent := negb (bool_decide (hparent s = NULL)) in
    let h :=
      if has_parent && negb (bool_decide (hfswnd s = NULL)) then hfswnd s else hwnd s in
    let window_placement := GetWindowPlacement (os w) h in
    if fullscreen then
      let w := call (SetWindowLong h GWL_STYLE (Z.lor WS_CLIPCHILDREN WS_VISIBLE)) w in
      let w :=
        if has_parent then
          let hmon := MonitorFromWindow (os w) (hparent s) MONITOR_DEFAULTTONEAREST in
          match GetMonitorInfo (os w) hmon with
          | Some mi =>
              call (SetWindowPos h 0 (left (rcMonitor mi)) (top (rcMonitor mi))
                      (RECTWidth (rcMonitor mi)) (RECTHeight (rcMonitor mi))
                      (Z.lor SWP_NOZORDER SWP_FRAMECHANGED)) w
          | None => w
          end
        else call (ShowWindow h SW_SHOWMAXIMIZED) w in
      let w :=
        if has_parent then
          let rect := (GetClientRect (os w) h).2 in
          let w := call (SetParent (hwnd s) h) w in
          let w :=
            call (SetWindowPos (hwnd s) 0 0 0 (right rect) (bottom rect)
                    (Z.lor SWP_NOZORDER SWP_FRAMECHANGED)) w in
          let topLevelParent := GetAncestor (os w) (hparent s) GA_ROOT in
          call (ShowWindow topLevelParent SW_HIDE) w
        else w in
      (VLC_SUCCESS, call (SetForegroundWindow h) w)
    else
      let w :=
        call (SetWindowLong h GWL_STYLE (EventThreadGetWindowStyle (event_thread w))) w in
      let w :=
        if has_parent then
          let rect := (GetClientRect (os w) (hparent s)).2 in
          let w := call (SetParent (hwnd s) (hparent s)) w in
          let w :=
            call (SetWindowPos (hwnd s) 0 0 0 (right rect) (bottom rect)
                    (Z.lor SWP_NOZORDER SWP_FRAMECHANGED)) w in
          let topLevelParent := GetAncestor (os w) (hparent s) GA_ROOT in
          let w := call (ShowWindow topLevelParent SW_SHOW) w in
          let w := call (SetForegroundWindow (hparent s)) w in
          call (ShowWindow h SW_HIDE) w
        else
          let w := call (SetWindowPlacement h window_placement) w in
          call (ShowWindow h SW_SHOWNORMAL) w in
      (VLC_SUCCESS, w).

(** The queries of [CommonControl] with their arguments. *)
Inductive control : Type :=
| VOUT_DISPLAY_CHANGE_DISPLAY_FILLED (cfg : vout_display_cfg_t)
| VOUT_DISPLAY_CHANGE_ZOOM (cfg : vout_display_cfg_t)
| VOUT_DISPLAY_CHANGE_SOURCE_ASPECT (cfg : vout_display_cfg_t)
| VOUT_DISPLAY_CHANGE_SOURCE_CROP (cfg : vout_display_cfg_t)
| VOUT_DISPLAY_CHANGE_DISPLAY_SIZE (cfg : vout_display_cfg_t)
| VOUT_DISPLAY_CHANGE_WINDOW_STATE (state : Z)
| VOUT_DISPLAY_CHANGE_FULLSCREEN (fs : Z)
| VOUT_DISPLAY_RESET_PICTURES
| other_query (query : Z).

Definition update_with_cfg (b : build) (vd : vout_display_t)
    (cfg : vout_display_cfg_t) (is_forced : bool) (w : world) : option (Z * world) :=
  w' ← UpdateRects b vd is_forced (with_sys (set_vdcfg cfg) w);
  Some (VLC_SUCCESS, w').

(** [CommonControl]; [None] when [vlc_assert_unreachable] is reached. *)
Definition CommonControl (b : build) (vd : vout_display_t) (query : control)
    (w : world) : option (Z * world) :=
  match query with
  | VOUT_DISPLAY_CHANGE_DISPLAY_FILLED cfg
  | VOUT_DISPLAY_CHANGE_ZOOM cfg
  | VOUT_DISPLAY_CHANGE_SOURCE_ASPECT cfg
  | VOUT_DISPLAY_CHANGE_SOURCE_CROP cfg => update_with_cfg b vd cfg true w
  | VOUT_DISPLAY_CHANGE_DISPLAY_SIZE cfg =>
      if VLC_WINSTORE_APP b then Some (VLC_EGENERIC, w)
      else
        let rect_window := mkRECT 0 0 (display_width cfg) (display_height cfg) in
        let w :=
          if negb (is_fullscreen cfg) && negb (b_windowless (sys w)) then
            let rect_window :=
              AdjustWindowRect (os w) rect_window
                (EventThreadGetWindowStyle (event_thread w)) in
            call (SetWindowPos (hwnd (sys w)) 0 0 0
                    (RECTWidth rect_window) (RECTHeight rect_window) SWP_NOMOVE) w
          else w in
        update_with_cfg b vd cfg false w
  | VOUT_DISPLAY_CHANGE_WINDOW_STATE state =>
      if VLC_WINSTORE_APP b then Some (VLC_EGENERIC, w)
      else
        let on_top := negb (bool_decide (Z.land state VOUT_WINDOW_STATE_ABOVE = 0)) in
        if bool_decide (MODULE_NAME b = direct3d9) && use_desktop (sys w) && on_top
        then Some (VLC_EGENERIC, w)
        else
          let hMenu := GetSystemMenu (os w) (hwnd (sys w)) in
          let topmost :=
            negb (bool_decide
              (Z.land (GetWindowLong (os w) (hwnd (sys w)) GWL_EXSTYLE) WS_EX_TOPMOST = 0)) in
          let w :=
            if on_top && negb topmost then
              let w :=
                call (CheckMenuItem hMenu IDM_TOGGLE_ON_TOP
                        (Z.lor MF_BYCOMMAND MFS_CHECKED)) w in
              call (SetWindowPos (hwnd (sys w)) HWND_TOPMOST 0 0 0 0
                      (Z.lor SWP_NOSIZE SWP_NOMOVE)) w
            else if negb on_top && topmost then
              let w :=
                call (CheckMenuItem hMenu IDM_TOGGLE_ON_TOP
                        (Z.lor MF_BYCOMMAND MFS_UNCHECKED)) w in
              call (SetWindowPos (hwnd (sys w)) HWND_NOTOPMOST 0 0 0 0
                      (Z.lor SWP_NOSIZE SWP_NOMOVE)) w
            else w in
          Some (VLC_SUCCESS, with_sys (set_is_on_top on_top) w)
  | VOUT_DISPLAY_CHANGE_FULLSCREEN fs =>
      if VLC_WINSTORE_APP b then Some (VLC_EGENERIC, w)
      else
        let '(ret, w) := CommonControlSetFullscreen b (negb (bool_decide (fs = 0))) w in
        if negb (bool_decide (ret = 0)) then Some (VLC_EGENERIC, w)
        else
          w' ← UpdateRects b vd false w;
          Some (VLC_SUCCESS, w')
  | VOUT_DISPLAY_RESET_PICTURES =>
      if VLC_WINSTORE_APP b then Some (VLC_EGENERIC, w) else None
  | other_query _ => Some (VLC_EGENERIC, w)
  end.

End Functions.

End Win32.

(** ** Specification vocabulary for [UpdateRects] *)

Module Win32Spec.
Import CInt Win32.

Section WithInterfaces.
Context {EventThread : Type}.
Context {WA : Win32Answers} {VO : VoutOps EventThread}.

(** What [UpdateRects] finds out about the geometry of the window: [None]
    when the size of the window cannot be read, otherwise whether the
    window moved or was resized since the last time it was observed. *)
Definition moved_or_resized (b : build) (vd : vout_display_t)
    (w : World EventThread) : option bool :=
  let '(got, rect) := window_size vd w in
  if negb got then None
  else Some (observe_geometry b rect w).1.1.1.

(** The window whose style and placement the fullscreen switch changes. *)
Definition fullscreen_window (s : vout_display_sys_win32_t) : HWND :=
  if negb (bool_decide (hparent s = NULL)) && negb (bool_decide (hfswnd s = NULL))
  then hfswnd s else hwnd s.

(** The fullscreen switch refuses: desktop mode of Direct3D9 cannot enter
    fullscreen, and a window embedded in a window of the host is not ours to
    switch. *)
Definition switch_refused (b : build) (fullscreen : bool)
    (s : vout_display_sys_win32_t) : Prop :=
  (MODULE_NAME b = direct3d9 ∧ use_desktop s = true ∧ fullscreen = true) ∨
  parent_window s ≠ NULL.

End WithInterfaces.

End Win32Spec.

(** ** Specification vocabulary for [loadItemsTask] *)

Module LoaderSpec.
Import CInt ML Loader.

(** A row of a list model: a non-negative [int] below the largest row count. *)
Definition is_row (x : Z) : Prop := 0 ≤ x < INT_MAX.

Definition in_range (r : Range) (x : Z) : bool :=
  bool_decide (low r ≤ x) && bool_decide (x ≤ high r).

(** A range between two rows. *)
Definition valid_range (r : Range) : Prop :=
  low r ≤ high r ∧ is_row (low r) ∧ is_row (high r).

(** The range loop seen from its last range: [cur] is [ranges.back()] and
    the ranges before it are no longer touched. *)
Fixpoint extend_ranges (cur : Range) (l : list Z) : list Range :=
  match l with
  | [] => [cur]
  | index :: l' =>
      if wrap_int (index - high cur) <? MAX_DIFFERENCE
      then extend_ranges (mkRange (low cur) index) l'
      else cur :: extend_ranges (mkRange index index) l'
  end.

(** Each element of a block is less than [MAX_DIFFERENCE] above the one
    before it. *)
Fixpoint close_chain (b : list Z) : Prop :=
  match b with
  | x :: (y :: _) as b' => y - x < MAX_DIFFERENCE ∧ close_chain b'
  | _ => True
  end.

(** A block of sorted indexes and the range that stands for it. *)
Definition block_of (b : list Z) (r : Range) : Prop :=
  head b = Some (low r) ∧ last b = Some (high r) ∧ close_chain b.

(** A range starts at least [MAX_DIFFERENCE] above the end of the one
    before it. *)
Fixpoint far_apart (rs : list Range) : Prop :=
  match rs with
  | r :: (r' :: _) as rs' => MAX_DIFFERENCE ≤ low r' - high r ∧ far_apart rs'
  | _ => True
  end.

(** [ranges] partitions the sorted indexes: the sorted vector is cut into
    consecutive blocks, one per range, an index joining the block of the
    index before it exactly when it is less than [MAX_DIFFERENCE] above
    it. *)
Definition ranges_partition (indexes : list Z) (ranges : list Range) : Prop :=
  ∃ (sorted : list Z) (blocks : list (list Z)),
    sorted ≡ₚ indexes ∧ StronglySorted Z.le sorted ∧
    concat blocks = sorted ∧
    Forall2 block_of blocks ranges ∧
    far_apart ranges.

(** The query [loadItemsTask] issues for a range. *)
Definition range_query (q : vlc_ml_query_params_t) (r : Range) : vlc_ml_query_params_t :=
  set_window q (low r) (high r - low r + 1).

Section Slots.
Context {MLItem : Type} (row_item : Z → option MLItem).

(** What slot [j] receives for row [x]: the item of the row, unless an
    earlier slot asked for the same row and took it. *)
Definition first_occurrence (indexes : list Z) (j : nat) (x : Z) : option MLItem :=
  if bool_decide (x ∈ take j indexes) then None else row_item x.

(** The items after the inner loop visited the indexes [pre] for the range
    [r]. *)
Definition filled (r : Range) (pre : list Z) (items0 : list (option MLItem)) :
    list (option MLItem) :=
  imap (λ j old,
          match pre !! j with
          | Some x => if in_range r x then first_occurrence pre j x else old
          | None => old
          end) items0.

(** The loaded window after the inner loop visited the indexes [pre]. *)
Definition drained (r : Range) (pre : list Z) : list (option MLItem) :=
  (λ x, if bool_decide (x ∈ pre) then None else row_item x)
    <$> seqZ (low r) (high r - low r + 1).

End Slots.

(** The loader returns one item per row of each requested window of rows:
    [row_item] gives the item (possibly null) the media library has at each
    row under the query [q]. *)
Definition loads_rows {MediaLibrary MLItem : Type} {V : MLOpVirtuals MediaLibrary MLItem}
    (op : MLOp) (ml : MediaLibrary) (q : vlc_ml_query_params_t)
    (row_item : Z → option MLItem) : Prop :=
  ∀ offset nb, 0 ≤ offset → 0 < nb → offset + nb ≤ INT_MAX →
    load op ml (set_window q offset nb) = row_item <$> seqZ offset nb.

End LoaderSpec.

(** ** Specification vocabulary for the model *)

Module ModelSpec.
Import Qt ML Loader Model.

Section WithInterfaces.
Context {MLItem Cache MediaLib QVariant : Type}.
Context {CO : ListCacheOps MLItem Cache} {MV : ModelVirtuals MLItem Cache QVariant}.

(** [MLBaseModel::getSortOrder] *)
Definition getSortOrder (m : MLBaseModel Cache) : SortOrder :=
  if m_sort_desc m then DescendingOrder else AscendingOrder.

(** The cache [validateCache] builds for a model without cache. *)
Definition fresh_cache (m : MLBaseModel Cache) : Cache :=
  initCount (cache_new (createLoader m) false (m_limit m) (m_offset m)).

(** The model after [resetCache]: the cache is dropped, and a new one is
    made if the model can have one. *)
Definition reset_model (m : MLBaseModel Cache) : MLBaseModel Cache :=
  let m0 := set_cache None m in
  if cachable m0 then set_cache (Some (fresh_cache m0)) m0 else m0.

(** The signals of [resetCache]. *)
Definition reset_signals (m : MLBaseModel Cache) : list Signal :=
  [beginResetModel; endResetModel] ++
  (if cachable (set_cache None m) then [loadingChanged] else []).

(** The stored search pattern is null or has characters: the states that
    [setSearchPattern] produces from a null pattern. *)
Definition pattern_normal (m : MLBaseModel Cache) : Prop :=
  m_search_pattern m ≠ QString_of EmptyString.

End WithInterfaces.

End ModelSpec.

(** ** Small media libraries, used to run the model *)

Module Examples.
Import ML Loader.

(** A library in which row [r] holds the item [r], and the item of
    identifier [i] exists when [i] is not negative. *)
Definition row_library : MLOpVirtuals unit Z :=
  {| load := λ _ _ q, Some <$> seqZ (i_offset q) (i_nbResults q);
     count := λ _ _ _, 1000;
     loadItemById := λ _ _ i, if bool_decide (0 ≤ id i) then Some (id i) else None |}.

Definition some_op : MLOp :=
  MLOp_new (mkMLItemId 0 0) Qt.QString_null 0 false.

(** A list cache that keeps its counts, the items it holds and the
    operations it was asked to do (the latest first). *)
Inductive cache_request : Type :=
| ReqUpdateItem (item : Z)
| ReqDeleteItem
| ReqMoveRange (first last to : Z)
| ReqDeleteRange (first last : Z).

Record simple_cache : Type := mkSimpleCache {
  sc_queryCount : Z;
  sc_maximumCount : Z;
  sc_items : list Z;
  sc_requests : list cache_request
}.

Fixpoint find_from (p : Z → bool) (items : list Z) (row : Z) : option (Z * Z) :=
  match items with
  | [] => None
  | item :: items' => if p item then Some (item, row) else find_from p items' (row + 1)
  end.

Definition simple_cache_ops : Model.ListCacheOps Z simple_cache :=
  {| Model.COUNT_UNINITIALIZED := -1;
     Model.cache_new := λ _ _ _ _, mkSimpleCache (-1) (-1) [] [];
     Model.initCount := λ c, c;
     Model.invalidate := λ c, mkSimpleCache (-1) (-1) [] (sc_requests c);
     Model.queryCount := sc_queryCount;
     Model.maximumCount := sc_maximumCount;
     Model.find := λ c p, find_from p (sc_items c) 0;
     Model.updateItem := λ c item,
       mkSimpleCache (sc_queryCount c) (sc_maximumCount c) (sc_items c)
                     (ReqUpdateItem item :: sc_requests c);
     Model.deleteItem := λ c p,
       mkSimpleCache (sc_queryCount c) (sc_maximumCount c) (sc_items c)
                     (ReqDeleteItem :: sc_requests c);
     Model.moveRange := λ c first last to,
       mkSimpleCache (sc_queryCount c) (sc_maximumCount c) (sc_items c)
                     (ReqMoveRange first last to :: sc_requests c);
     Model.deleteRange := λ c first last,
       mkSimpleCache (sc_queryCount c) (sc_maximumCount c) (sc_items c)
                     (ReqDeleteRange first last :: sc_requests c) |}.

(** A media library that numbers its tasks. *)
Definition counting_medialib : Model.MediaLibOps Z :=
  {| Model.runOnMLThread := λ next _, (next, next + 1) |}.

Definition simple_virtuals : Model.ModelVirtuals Z simple_cache Z :=
  {| Model.nameToCriteria := λ name,
       match name with
       | Qt.QByteArray_of "title" => 1
       | _ => 0
       end;
     Model.cachable := λ m,
       bool_decide (is_Some (Model.m_mediaLib m)) && negb (Model.m_qmlInitializing m);
     Model.createLoader := λ m,
       Model.mkLoader 1 (MLOp_new (Model.m_parent m) (Model.m_search_pattern m)
                                  (Model.m_sort m) (Model.m_sort_desc m));
     Model.roleNames := [(0, "id"%string)];
     Model.itemRoleData := λ item _, item;
     Model.getId := λ item, mkMLItemId item 0 |}.

(** A model with a media library and the given cache. *)
Definition model_with (cache : option simple_cache) : Model.MLBaseModel simple_cache :=
  {| Model.m_mediaLib := Some 1;
     Model.m_parent := mkMLItemId 0 0;
     Model.m_search_pattern := Qt.QString_null;
     Model.m_sort := 0;
     Model.m_sort_desc := false;
     Model.m_limit := 0;
     Model.m_offset := 0;
     Model.m_cache := cache;
     Model.m_itemLoader := None;
     Model.m_need_reset := false;
     Model.m_qmlInitializing := false |}.

Definition world_with (cache : option simple_cache) : Model.World simple_cache Z :=
  {| Model.model := model_with cache;
     Model.medialib := 1;
     Model.cells := ∅;
     Model.issued := [];
     Model.jsEngine := true |}.

(** A cache created a moment ago, whose count has not arrived. *)
Definition unloaded_cache : simple_cache := mkSimpleCache (-1) (-1) [] [].

(** A cache of three rows holding the items 10, 11 and 12. *)
Definition loaded_cache : simple_cache := mkSimpleCache 3 3 [10; 11; 12] [].

(** A video output with a plain event thread (the last window position)
    and a system that answers with fixed values. *)
Definition fixed_answers : Win32.Win32Answers :=
  {| Win32.GetClientRect := λ _ _, (true, Win32.mkRECT 0 0 800 600);
     Win32.ClientToScreen := λ _ _ p, Win32.mkPOINT (Win32.x p + 10) (Win32.y p + 20);
     Win32.ScreenToClient := λ _ _ p, (true, p);
     Win32.GetWindowRect := λ _ _, Win32.mkRECT 10 20 810 620;
     Win32.GetWindowPlacement := λ _ _, Win32.mkPlacement 0;
     Win32.GetWindowLong := λ _ _ _, 0;
     Win32.GetAncestor := λ _ h _, h;
     Win32.GetSystemMenu := λ _ _, 1;
     Win32.MonitorFromWindow := λ _ _ _, 1;
     Win32.GetMonitorInfo := λ _ _, Some (Win32.mkMonitorInfo (Win32.mkRECT 0 0 1920 1080));
     Win32.AdjustWindowRect := λ _ r _, r;
     Win32.GetVersionEx := λ _, Some 10;
     Win32.CoInitializeEx_succeeds := λ _, true;
     Win32.CoCreateInstance_result := λ _, 0 |}.

Definition simple_vout : Win32.VoutOps Win32.RECT :=
  {| Win32.EventThreadUpdateWindowPosition := λ last r,
       (negb (bool_decide (last = r)), r);
     Win32.EventThreadUpdateSourceAndPlace := λ e _ _, e;
     Win32.EventThreadGetWindowStyle := λ _, 0x00CF0000;
     Win32.EventThreadGetAndResetHasMoved := λ e, (false, e);
     Win32.vout_display_PlacePicture := λ _ cfg,
       Win32.mkPlace 0 0 (Win32.display_width cfg) (Win32.display_height cfg);
     Win32.module_GetRect := λ _ _, (true, Win32.mkRECT 0 0 800 600);
     Win32.VOUT_WINDOW_STATE_ABOVE := 1;
     Win32.IDM_TOGGLE_ON_TOP := 0x0401 |}.

Definition some_cfg : Win32.vout_display_cfg_t :=
  Win32.mkCfg 800 600 Win32.VLC_VIDEO_ALIGN_CENTER false 0.

Definition some_video : Win32.vout_display_t :=
  Win32.mkVout (Win32.mkVideoFormat 640 480 0 0 640 480).

(** The display after [CommonInit]: its own window 100 with the video
    window 101, or no window at all. *)
Definition sys_after_init (windowless : bool) (desktop : bool) :
    Win32.vout_display_sys_win32_t :=
  {| Win32.event := if windowless then 0 else 1;
     Win32.parent_window := 0;
     Win32.hwnd := if windowless then 0 else 100;
     Win32.hvideownd := if windowless then 0 else 101;
     Win32.hparent := 0;
     Win32.hfswnd := 0;
     Win32.rect_dest_changed := false;
     Win32.b_windowless := windowless;
     Win32.is_first_placement := true;
     Win32.is_on_top := false;
     Win32.use_desktop := desktop;
     Win32.rect_display := Win32.mkRECT 0 0 0 0;
     Win32.rect_parent := Win32.mkRECT 0 0 0 0;
     Win32.rect_dest := Win32.mkRECT 0 0 0 0;
     Win32.vdcfg := some_cfg;
     Win32.pf_GetRect := Win32.GetRect_common |}.

Definition vout_world (windowless desktop : bool) : Win32.World Win32.RECT :=
  {| Win32.sys := sys_after_init windowless desktop;
     Win32.event_thread := Win32.mkRECT 0 0 0 0;
     Win32.os := [] |}.

Definition desktop_build (m : Win32.module_name) : Win32.build :=
  Win32.mkBuild false m.

Definition winstore_build : Win32.build := Win32.mkBuild true Win32.direct3d11.

End Examples.

(** ** The other tasks of [MLListCacheLoader] *)

Module LoaderTasks.
Import CInt Qt ML Loader.

Section Tasks.
Context {MediaLibrary MLItem : Type} {V : MLOpVirtuals MediaLibrary MLItem}.

(** The calls of the callbacks given to [countTask], [loadTask] and
    [countAndLoadTask]. *)
Inductive TaskCall : Type :=
| CountCb (taskId count : Z)
| LoadCb (taskId : Z) (items : list (option MLItem))
| CountAndLoadCb (taskId maximumCount : Z) (items : list (option MLItem)).

(** [MLListCacheLoader::countTask], run under the task id [taskId];
    [default_offset] and [default_limit] are the default arguments of
    [getQueryParams]. *)
Definition countTask (default_offset default_limit : Z) (op : MLOp)
    (ml : MediaLibrary) (taskId : Z) : list TaskCall :=
  let query := getQueryParams op default_offset default_limit in
  let ctx_count := count op ml query in
  [CountCb taskId ctx_count].

(** [MLListCacheLoader::loadTask] *)
Definition loadTask (op : MLOp) (ml : MediaLibrary) (taskId : Z) (offset limit : Z) :
    list TaskCall :=
  let query := getQueryParams op offset limit in
  let ctx_list := load op ml query in
  [LoadCb taskId ctx_list].

(** [MLListCacheLoader::countAndLoadTask] *)
Definition countAndLoadTask (op : MLOp) (ml : MediaLibrary) (taskId : Z)
    (offset limit : Z) : list TaskCall :=
  let query := getQueryParams op offset limit in
  let ctx_list := load op ml query in
  let ctx_maximumCount := count op ml query in
  [CountAndLoadCb taskId ctx_maximumCount ctx_list].

End Tasks.

(** The number of rows the queries ask for. *)
Definition rows_asked (queries : list vlc_ml_query_params_t) : Z :=
  foldr (λ q n, i_nbResults q + n) 0 queries.

(** The rows of a query: from [i_offset] to [i_offset + i_nbResults - 1]. *)
Definition query_first (q : vlc_ml_query_params_t) : Z := i_offset q.
Definition query_last (q : vlc_ml_query_params_t) : Z := i_offset q + i_nbResults q - 1.

(** A later window starts at least [MAX_DIFFERENCE] rows after the end of
    an earlier one. *)
Definition window_before (q q' : vlc_ml_query_params_t) : Prop :=
  query_last q + MAX_DIFFERENCE ≤ query_first q'.

End LoaderTasks.

(** ** The other members of [MLBaseModel] *)

Module ModelMore.
Import CInt Qt ML Loader Model ModelSpec.

(** [MLEvent], by the fields [onVlcMlEvent] reads. *)
Inductive MLEvent : Type :=
| VLC_ML_EVENT_BACKGROUND_IDLE_CHANGED (b_idle : bool)
| VLC_ML_EVENT_MEDIA_THUMBNAIL_GENERATED (b_success : bool) (i_media_id : Z)
    (psz_mrl : option string) (i_status : Z)
| other_event (i_type : Z).

(** [qfu]: the [QString] of a C string. *)
Definition qfu (psz : option string) : QString :=
  match psz with
  | None => QString_null
  | Some s => QString_of s
  end.

Section WithInterfaces.
Context {MLItem Cache MediaLib QVariant : Type}.

(** The members of [ListCache] that read items: [refer] asks the cache to
    have the row, [get] gives the pointer kept for a row, if any. *)
Class ListCacheAccess : Type := {
  refer : Cache → Z → Cache;
  get : Cache → Z → option (option MLItem)
}.

(** Constants of the headers, and the members of [MediaLib] the model
    calls: [idle], and [registerEventListener], which gives the handle of the
    listener or a null pointer. *)
Class ModelConstants : Type := {
  VLC_ML_SORTING_DEFAULT : vlc_ml_sorting_criteria_t;
  VLC_ML_PARENT_UNKNOWN : Z;
  VLC_ML_THUMBNAIL_STATUS_FAILURE : Z;
  MLItemId_default : MLItemId;
  idle : MediaLib → bool;
  registerEventListener : Z → option Z
}.

(** The calls of the virtual member [thumbnailUpdated]. *)
Inductive ThumbnailCall : Type :=
| thumbnailUpdated (idx : QModelIndex) (item : MLItem) (mrl : QString) (status : Z).

(** What [setMl] keeps beside the model: the handle of the registered
    event listener, and the media libraries [registerEventListener] was
    called on. *)
Record Listener : Type := mkListener {
  m_ml_event_handle : option Z;
  registered : list Z
}.

End WithInterfaces.

Arguments ListCacheAccess : clear implicits.
Arguments ModelConstants : clear implicits.
Arguments ThumbnailCall : clear implicits.

Section Members.
Context {MLItem Cache MediaLib QVariant : Type}.
Context {CO : ListCacheOps MLItem Cache} {MO : MediaLibOps MediaLib}.
Context {MV : ModelVirtuals MLItem Cache QVariant}.
Context {CA : ListCacheAccess MLItem Cache} {MC : ModelConstants MediaLib}.

Abbreviation model_t := (MLBaseModel Cache).
Abbreviation world_t := (World Cache MediaLib).
Abbreviation op_t := (Op Cache MediaLib).

Definition set_need_reset (v : bool) (m : model_t) : model_t :=
  {| m_mediaLib := m_mediaLib m; m_parent := Model.m_parent m;
     m_search_pattern := m_search_pattern m; m_sort := Model.m_sort m;
     m_sort_desc := m_sort_desc m; m_limit := m_limit m; m_offset := m_offset m;
     m_cache := m_cache m; m_itemLoader := m_itemLoader m;
     m_need_reset := v; m_qmlInitializing := m_qmlInitializing m |}.

Definition set_qmlInitializing (v : bool) (m : model_t) : model_t :=
  {| m_mediaLib := m_mediaLib m; m_parent := Model.m_parent m;
     m_search_pattern := m_search_pattern m; m_sort := Model.m_sort m;
     m_sort_desc := m_sort_desc m; m_limit := m_limit m; m_offset := m_offset m;
     m_cache := m_cache m; m_itemLoader := m_itemLoader m;
     m_need_reset := m_need_reset m; m_qmlInitializing := v |}.

Definition set_mediaLib (v : option Z) (m : model_t) : model_t :=
  {| m_mediaLib := v; m_parent := Model.m_parent m;
     m_search_pattern := m_search_pattern m; m_sort := Model.m_sort m;
     m_sort_desc := m_sort_desc m; m_limit := m_limit m; m_offset := m_offset m;
     m_cache := m_cache m; m_itemLoader := m_itemLoader m;
     m_need_reset := m_need_reset m; m_qmlInitializing := m_qmlInitializing m |}.

(** [MLBaseModel::sortByColumn] *)
Definition sortByColumn (name : QByteArray) (order : SortOrder) : op_t unit :=
  let sort := nameToCriteria name in
  let desc := bool_decide (order = DescendingOrder) in
  m ← get_model;
  if bool_decide (m_sort_desc m = desc) && bool_decide (Model.m_sort m = sort)
  then ret tt
  else
    update_model (set_sort_desc (bool_decide (order = DescendingOrder)));;
    update_model (set_sort (nameToCriteria name));;
    resetCache.

(** [MLBaseModel::unsetParentId] *)
Definition unsetParentId : op_t unit :=
  update_model (set_parent MLItemId_default);;
  resetCache;;
  emit parentIdChanged.

(** [MLBaseModel::unsetSortCriteria] *)
Definition unsetSortCriteria : op_t unit :=
  m ← get_model;
  if bool_decide (Model.m_sort m = VLC_ML_SORTING_DEFAULT) then ret tt
  else
    update_model (set_sort VLC_ML_SORTING_DEFAULT);;
    resetCache;;
    emit sortCriteriaChanged.

(** [MLBaseModel::classBegin] *)
Definition classBegin : op_t unit :=
  update_model (set_qmlInitializing true).

(** [MLBaseModel::componentComplete] *)
Definition componentComplete : op_t unit :=
  update_model (set_qmlInitializing false);;
  validateCache.

(** [MLBaseModel::onLocalSizeChanged] *)
Definition onLocalSizeChanged (queryCount maximumCount : Z) : op_t unit :=
  emit (countChanged queryCount);;
  emit (maximumCountChanged maximumCount).

(** [MLBaseModel::item]: the item and the model, whose cache may have been
    asked for the row. *)
Definition item (signedidx : Z) (m : model_t) : option MLItem * model_t :=
  match m_cache m with
  | None => (None, m)
  | Some cache =>
      let count := queryCount cache in
      if bool_decide (count = 0) || bool_decide (signedidx < 0)
         || bool_decide (count ≤ signedidx)
      then (None, m)
      else
        let idx := to_unsigned signedidx in
        let cache := refer cache idx in
        (mjoin (get cache idx), set_cache (Some cache) m)
  end.

(** [MLBaseModel::itemCache] *)
Definition itemCache (signedidx : Z) (m : model_t) : option MLItem :=
  let idx := to_unsigned signedidx in
  match m_cache m with
  | None => None
  | Some cache => mjoin (get cache idx)
  end.

(** [MLBaseModel::data]; [None] is the invalid [QVariant]. *)
Definition data (index : QModelIndex) (role : Z) (m : model_t) :
    option QVariant * model_t :=
  let '(mlItem, m) := item (row index) m in
  ((λ it, itemRoleData it role) <$> mlItem, m).

(** [MLBaseModel::getDataAt(const QModelIndex &)] *)
Definition getDataAt (index : QModelIndex) (m : model_t) :
    gmap string (option QVariant) * model_t :=
  foldl (λ '(dataDict, m) role,
           let '(v, m) := data index role.1 m in
           (<[role.2 := v]> dataDict, m))
        (∅, m) roleNames.

(** [QAbstractListModel::index(row)]: the index of a row the model has, or
    the invalid index. *)
Definition index (m : model_t) (idx : Z) : QModelIndex :=
  if bool_decide (0 ≤ idx) && bool_decide (idx < rowCount m no_index)
  then mkQModelIndex idx 0 true
  else no_index.

(** [MLBaseModel::getDataAt(int)] *)
Definition getDataAt_row (idx : Z) (m : model_t) :
    gmap string (option QVariant) * model_t :=
  getDataAt (index m idx) m.

(** [emit resetRequested(); m_need_reset = false;] *)
Definition request_reset : op_t unit :=
  emit resetRequested;;
  update_model (set_need_reset false).

(** [MLBaseModel::onVlcMlEvent(const MLEvent &)]: the world after the
    event, the signals emitted and the calls of [thumbnailUpdated]. *)
Definition onVlcMlEvent (event : MLEvent) (w : world_t) :
    world_t * list Signal * list (ThumbnailCall MLItem) :=
  let '(w, signals, thumbnails) :=
    match event with
    | VLC_ML_EVENT_BACKGROUND_IDLE_CHANGED b_idle =>
        if b_idle && m_need_reset (model w)
        then let '(_, w, signals) := request_reset w in (w, signals, [])
        else (w, [], [])
    | VLC_ML_EVENT_MEDIA_THUMBNAIL_GENERATED b_success i_media_id psz_mrl i_status =>
        if b_success then
          match m_cache (model w) with
          | None => (w, [], [])
          | Some cache =>
              let stotal := queryCount cache in
              if bool_decide (stotal = COUNT_UNINITIALIZED) then (w, [], [])
              else
                let itemId := mkMLItemId i_media_id VLC_ML_PARENT_UNKNOWN in
                match find cache (λ item, bool_decide (getId item = itemId)) with
                | Some (item, row) =>
                    let mrl := if b_success then qfu psz_mrl else QString_null in
                    let status :=
                      if b_success then i_status
                      else VLC_ML_THUMBNAIL_STATUS_FAILURE in
                    (w, [],
                     [thumbnailUpdated (index (model w) row) item mrl status])
                | None => (w, [], [])
                end
          end
        else (w, [], [])
    | other_event _ => (w, [], [])
    end in
  if bool_decide (is_Some (m_mediaLib (model w))) && idle (medialib w)
     && m_need_reset (model w)
  then let '(_, w, signals') := request_reset w in (w, signals ++ signals', thumbnails)
  else (w, signals, thumbnails).

(** [MLBaseModel::setMl]; [None] when [assert(medialib)] fails. *)
Definition setMl (medialib : Z) (l : Listener) (w : world_t) :
    option (Listener * world_t * list Signal) :=
  if bool_decide (medialib = 0) then None
  else if bool_decide (m_mediaLib (model w) = Some medialib) then Some (l, w, [])
  else
    let w := with_model (set_mediaLib (Some medialib)) w in
    let l :=
      match m_ml_event_handle l with
      | None => {| m_ml_event_handle := registerEventListener medialib;
                   registered := registered l ++ [medialib] |}
      | Some _ => l
      end in
    let '(_, w, signals) := validateCache w in
    let '(_, w, signals') := emit mlChanged w in
    Some (l, w, signals ++ signals').

(** Several calls of [setMl] in a row. *)
Fixpoint setMl_all (medialibs : list Z) (l : Listener) (w : world_t) :
    option (Listener * world_t) :=
  match medialibs with
  | [] => Some (l, w)
  | medialib :: rest =>
      match setMl medialib l w with
      | Some (l, w, _) => setMl_all rest l w
      | None => None
      end
  end.

End Members.

End ModelMore.

(** ** Specification vocabulary for the other members *)

Module ModelMoreSpec.
Import CInt Qt ML Loader Model ModelSpec ModelMore.

Section WithInterfaces.
Context {MLItem Cache MediaLib QVariant : Type}.
Context {CO : ListCacheOps MLItem Cache} {MV : ModelVirtuals MLItem Cache QVariant}.

(** The model has a cache whenever it can have one: [validateCache] has
    nothing to do. *)
Definition validated (m : MLBaseModel Cache) : Prop :=
  is_Some (m_cache m) ∨ cachable m = false.

End WithInterfaces.

End ModelMoreSpec.

(** ** Sequences of member calls *)

Module ModelRuns.
Import CInt Qt ML Loader Model ModelSpec ModelMore.

(** The members that change what the model shows or the state of its
    cache, with their arguments. *)
Inductive member : Type :=
| call_setSortOrder (order : SortOrder)
| call_setSortCriteria (criteria : QString)
| call_setSearchPattern (pattern : QString)
| call_setLimit (limit : Z)
| call_setOffset (offset : Z)
| call_setParentId (parentId : MLItemId)
| call_unsetParentId
| call_sortByColumn (name : QByteArray) (order : SortOrder)
| call_unsetSortCriteria
| call_classBegin
| call_componentComplete
| call_onResetRequested
| call_deleteItemInCache (mlid : MLItemId)
| call_moveRangeInCache (first last to : Z)
| call_deleteRangeInCache (first last : Z)
| call_onLocalSizeChanged (queryCount maximumCount : Z).

Section WithInterfaces.
Context {MLItem Cache MediaLib QVariant : Type}.
Context {CO : ListCacheOps MLItem Cache} {MO : MediaLibOps MediaLib}.
Context {MV : ModelVirtuals MLItem Cache QVariant}.
Context {CA : ListCacheAccess MLItem Cache} {MC : ModelConstants MediaLib}.

Definition run_member (c : member) : Op Cache MediaLib unit :=
  match c with
  | call_setSortOrder order => setSortOrder order
  | call_setSortCriteria criteria => setSortCriteria criteria
  | call_setSearchPattern pattern => setSearchPattern pattern
  | call_setLimit limit => setLimit limit
  | call_setOffset offset => setOffset offset
  | call_setParentId parentId => setParentId parentId
  | call_unsetParentId => unsetParentId
  | call_sortByColumn name order => sortByColumn name order
  | call_unsetSortCriteria => unsetSortCriteria
  | call_classBegin => classBegin
  | call_componentComplete => componentComplete
  | call_onResetRequested => onResetRequested
  | call_deleteItemInCache mlid => deleteItemInCache mlid
  | call_moveRangeInCache first last to => moveRangeInCache first last to
  | call_deleteRangeInCache first last => deleteRangeInCache first last
  | call_onLocalSizeChanged queryCount maximumCount =>
      onLocalSizeChanged queryCount maximumCount
  end.


(** Two worlds that differ at most in the fields of the model other than
    [m_itemLoader]. *)
Definition same_but_model (w w' : World Cache MediaLib) : Prop :=
  m_itemLoader (model w') = m_itemLoader (model w) ∧
  medialib w' = medialib w ∧ cells w' = cells w ∧ issued w' = issued w ∧
  jsEngine w' = jsEngine w.

End WithInterfaces.

End ModelRuns.

(** ** The other functions of [common.c] *)

Module Win32More.
Import CInt Win32.

(** [event_cfg_t] and [event_hwnd_t] of [events.h]. *)
Record event_cfg_t : Type := mkEventCfg {
  cfg_use_desktop : bool;
  cfg_x : Z;
  cfg_y : Z;
  cfg_width : Z;
  cfg_height : Z
}.

Record event_hwnd_t : Type := mkEventHwnd {
  ev_parent_window : Z;
  ev_hparent : HWND;
  ev_hwnd : HWND;
  ev_hvideownd : HWND;
  ev_hfswnd : HWND
}.

Definition set_rect_parent (v : RECT) (s : vout_display_sys_win32_t) :
    vout_display_sys_win32_t :=
  {| event := event s; parent_window := parent_window s; hwnd := hwnd s;
     hvideownd := hvideownd s; hparent := hparent s; hfswnd := hfswnd s;
     rect_dest_changed := rect_dest_changed s; b_windowless := b_windowless s;
     is_first_placement := is_first_placement s; is_on_top := is_on_top s;
     use_desktop := use_desktop s; rect_display := rect_display s;
     rect_parent := v; rect_dest := rect_dest s; vdcfg := vdcfg s;
     pf_GetRect := pf_GetRect s |}.

Definition set_event (v : Z) (s : vout_display_sys_win32_t) :
    vout_display_sys_win32_t :=
  {| event := v; parent_window := parent_window s; hwnd := hwnd s;
     hvideownd := hvideownd s; hparent := hparent s; hfswnd := hfswnd s;
     rect_dest_changed := rect_dest_changed s; b_windowless := b_windowless s;
     is_first_placement := is_first_placement s; is_on_top := is_on_top s;
     use_desktop := use_desktop s; rect_display := rect_display s;
     rect_parent := rect_parent s; rect_dest := rect_dest s; vdcfg := vdcfg s;
     pf_GetRect := pf_GetRect s |}.

Definition set_pf_GetRect (v : GetRect_fn) (s : vout_display_sys_win32_t) :
    vout_display_sys_win32_t :=
  {| event := event s; parent_window := parent_window s; hwnd := hwnd s;
     hvideownd := hvideownd s; hparent := hparent s; hfswnd := hfswnd s;
     rect_dest_changed := rect_dest_changed s; b_windowless := b_windowless s;
     is_first_placement := is_first_placement s; is_on_top := is_on_top s;
     use_desktop := use_desktop s; rect_display := rect_display s;
     rect_parent := rect_parent s; rect_dest := rect_dest s; vdcfg := vdcfg s;
     pf_GetRect := v |}.

(** The first assignments of [CommonInit]. *)
Definition init_fields (windowless : bool) (s : vout_display_sys_win32_t) :
    vout_display_sys_win32_t :=
  {| event := event s; parent_window := parent_window s; hwnd := NULL;
     hvideownd := NULL; hparent := NULL; hfswnd := NULL;
     rect_dest_changed := false; b_windowless := windowless;
     is_first_placement := true; is_on_top := false;
     use_desktop := use_desktop s; rect_display := rect_display s;
     rect_parent := rect_parent s; rect_dest := rect_dest s; vdcfg := vdcfg s;
     pf_GetRect := pf_GetRect s |}.

(** The last assignments of [CommonInit]: the windows the event thread
    made. *)
Definition set_windows (h : event_hwnd_t) (s : vout_display_sys_win32_t) :
    vout_display_sys_win32_t :=
  {| event := event s; parent_window := ev_parent_window h; hwnd := ev_hwnd h;
     hvideownd := ev_hvideownd h; hparent := ev_hparent h; hfswnd := ev_hfswnd h;
     rect_dest_changed := rect_dest_changed s; b_windowless := b_windowless s;
     is_first_placement := is_first_placement s; is_on_top := is_on_top s;
     use_desktop := use_desktop s; rect_display := rect_display s;
     rect_parent := rect_parent s; rect_dest := rect_dest s; vdcfg := vdcfg s;
     pf_GetRect := pf_GetRect s |}.

Section WithInterfaces.
Context {EventThread : Type}.

(** The life of the event thread ([events.c]): [EventThreadCreate] gives
    the address of the thread (null on failure) and its state,
    [EventThreadStart] a return code and the windows; [var_InheritInteger]
    reads a variable of the display. *)
Class EventThreadOps : Type := {
  EventThreadCreate : vout_display_cfg_t → Z * EventThread;
  EventThreadStart : EventThread → event_cfg_t → Z * event_hwnd_t * EventThread;
  EventThreadStop : EventThread → EventThread;
  EventThreadDestroy : EventThread → EventThread;
  var_InheritInteger : string → Z
}.

End WithInterfaces.

Arguments EventThreadOps : clear implicits.

Section Functions.
Context {EventThread : Type}.
Context {WA : Win32Answers} {VO : VoutOps EventThread}.
Context {EO : EventThreadOps EventThread}.

(** [CommonInit]: the return code and the world after the call.  The
    variables created on the display are left out. *)
Definition CommonInit (b : build) (windowless : bool) (cfg : vout_display_cfg_t)
    (w : World EventThread) : Z * World EventThread :=
  let w := with_sys (init_fields windowless) w in
  if VLC_WINSTORE_APP b
  then (VLC_SUCCESS, with_sys (set_rect_display (mkRECT 0 0 0 0)) w)
  else
    let w := with_sys (set_pf_GetRect GetRect_common) w in
    let w := with_sys (set_rect_parent (mkRECT 0 0 0 0)) w in
    let w := with_sys (set_vdcfg cfg) w in
    if windowless then (VLC_SUCCESS, w)
    else
      let '(ev, e) := EventThreadCreate cfg in
      let w := with_sys (set_event ev) w in
      if bool_decide (ev = NULL) then (VLC_EGENERIC, w)
      else
        let w := with_event_thread e w in
        let event_cfg :=
          {| cfg_use_desktop :=
               if bool_decide (MODULE_NAME b = direct3d9) then use_desktop (sys w)
               else false;
             cfg_x := var_InheritInteger "video-x";
             cfg_y := var_InheritInteger "video-y";
             cfg_width := display_width cfg;
             cfg_height := display_height cfg |} in
        let '(ret, windows, e) := EventThreadStart (event_thread w) event_cfg in
        let w := with_event_thread e w in
        if negb (bool_decide (ret = 0)) then (VLC_EGENERIC, w)
        else (VLC_SUCCESS, with_sys (set_windows windows) w).

(** [CommonClean] (builds that are not a Windows Store app); [None] when
    [vlc_assert_unreachable] is reached. *)
Definition CommonClean (w : World EventThread) : option (World EventThread) :=
  if negb (bool_decide (event (sys w) = NULL)) then
    w ← CommonChangeThumbnailClip false w;
    let e := EventThreadStop (event_thread w) in
    let e := EventThreadDestroy e in
    Some (with_event_thread e w)
  else Some w.

(** [CommonManage], "Check if the parent window has resized or moved": the
    rectangle of the parent on the screen. *)
Definition parent_rect (w : World EventThread) : RECT :=
  let rect_parent := (GetClientRect (os w) (hparent (sys w))).2 in
  let point := ClientToScreen (os w) (hparent (sys w)) (mkPOINT 0 0) in
  OffsetRect rect_parent (x point) (y point).

(** [CommonManage], the block of [if (sys->hparent)]. *)
Definition follow_parent (b : build) (vd : vout_display_t) (w : World EventThread) :
    option (World EventThread) :=
  if negb (bool_decide (hparent (sys w) = NULL)) then
    let rect_parent := parent_rect w in
    if negb (EqualRect rect_parent (Win32.rect_parent (sys w))) then
      let w := with_sys (set_rect_parent rect_parent) w in
      let w :=
        call (SetWindowPos (hwnd (sys w)) 0 0 0
                (RECTWidth rect_parent) (RECTHeight rect_parent) SWP_NOZORDER) w in
      UpdateRects b vd true w
    else Some w
  else Some w.

(** [CommonManage], in both configurations. *)
Definition CommonManage (b : build) (vd : vout_display_t) (w : World EventThread) :
    option (World EventThread) :=
  if VLC_WINSTORE_APP b then UpdateRects b vd false w
  else if b_windowless (sys w) then Some w
  else
    w ← follow_parent b vd w;
    let '(moved, e) := EventThreadGetAndResetHasMoved (event_thread w) in
    let w := with_event_thread e w in
    if moved then UpdateRects b vd false w else Some w.

End Functions.

End Win32More.

(** ** Specification vocabulary for the calls to the system *)

Module Win32MoreSpec.
Import CInt Win32 Win32More.

(** The calls to COM and to the taskbar. *)
Definition is_taskbar_call (c : os_call) : bool :=
  match c with
  | CoInitializeEx | CoCreateInstance_TaskbarList | TaskbarList_HrInit
  | TaskbarList_SetThumbnailClip _ _ | TaskbarList_Release | CoUninitialize => true
  | _ => false
  end.

(** The flag of [SetWindowPos] that shows the window. *)
Definition shows_window (flags : Z) : bool :=
  negb (bool_decide (Z.land flags SWP_SHOWWINDOW = 0)).

(** What [UpdateRects] never writes: the windows, the event thread handle,
    the mode, the configuration and the rectangle of the parent. *)
Definition same_windows (s s' : vout_display_sys_win32_t) : Prop :=
  event s' = event s ∧ parent_window s' = parent_window s ∧ hwnd s' = hwnd s ∧
  hvideownd s' = hvideownd s ∧ hparent s' = hparent s ∧ hfswnd s' = hfswnd s ∧
  b_windowless s' = b_windowless s ∧ is_on_top s' = is_on_top s ∧
  use_desktop s' = use_desktop s ∧ rect_parent s' = rect_parent s ∧
  vdcfg s' = vdcfg s ∧ pf_GetRect s' = pf_GetRect s.

(** The calls [CommonChangeThumbnailClip] makes when the taskbar can be
    reached: COM is entered and left once, and between the two the clip is
    set on the taskbar list if one could be made. *)
Definition thumbnail_calls (show : bool) (calls : list os_call) : Prop :=
  calls = [CoInitializeEx; CoCreateInstance_TaskbarList; CoUninitialize] ∨
  ∃ hroot clip,
    calls = [CoInitializeEx; CoCreateInstance_TaskbarList; TaskbarList_HrInit;
             TaskbarList_SetThumbnailClip hroot clip; TaskbarList_Release;
             CoUninitialize] ∧
    (is_Some clip ↔ show = true).


(** What a call of [UpdateRects] that returns leaves behind. *)
Definition UpdateRects_result (b : build) {EventThread : Type}
    (w w' : World EventThread) : Prop :=
  same_windows (sys w) (sys w') ∧
  rect_dest_changed (sys w') =
    rect_dest_changed (sys w) || negb (EqualRect (rect_dest (sys w)) (rect_dest (sys w'))) ∧
  (VLC_WINSTORE_APP b = false → rect_display (sys w') = rect_display (sys w)) ∧
  ∃ placement taskbar,
    os w' = os w ++ placement ++ taskbar ∧
    Forall (λ c, is_taskbar_call c = true) taskbar ∧
    (VLC_WINSTORE_APP b = true → placement = [] ∧ taskbar = []) ∧
    ((placement = [] ∧ is_first_placement (sys w') = is_first_placement (sys w)) ∨
     (∃ X Y cx cy flags,
        placement = [SetWindowPos (hvideownd (sys w)) 0 X Y cx cy flags] ∧
        shows_window flags = is_first_placement (sys w) ∧
        is_first_placement (sys w') = false ∧
        VLC_WINSTORE_APP b = false ∧ b_windowless (sys w) = false)).

End Win32MoreSpec.

(** ** More examples *)

Module MoreExamples.
Import ML Loader Examples.

(** A library of three rows: a window that passes the end comes back
    short. *)
Definition short_library : MLOpVirtuals unit Z :=
  {| load := λ _ _ q,
       Some <$> seqZ (i_offset q) (Z.min (i_nbResults q) (3 - i_offset q));
     count := λ _ _ _, 3;
     loadItemById := λ _ _ i, None |}.

(** The cache of [Examples] gives the items it holds and does not load
    more. *)
Definition simple_access : ModelMore.ListCacheAccess Z simple_cache :=
  {| ModelMore.refer := λ c _, c;
     ModelMore.get := λ c idx, Some <$> (sc_items c !! Z.to_nat idx) |}.

Definition simple_constants : ModelMore.ModelConstants Z :=
  {| ModelMore.VLC_ML_SORTING_DEFAULT := 0;
     ModelMore.VLC_ML_PARENT_UNKNOWN := 0;
     ModelMore.VLC_ML_THUMBNAIL_STATUS_FAILURE := 3;
     ModelMore.MLItemId_default := mkMLItemId 0 0;
     ModelMore.idle := λ _, true;
     ModelMore.registerEventListener := λ ml, Some (ml + 1000) |}.

(** A cache whose count does not fit [unsigned]. *)
Definition huge_cache : simple_cache := mkSimpleCache (2 ^ 32 + 5) (2 ^ 32 + 5) [] [].

(** A model that shows the items matching "abc". *)
Definition searching_world : Model.World simple_cache Z :=
  {| Model.model :=
       {| Model.m_mediaLib := Some 1;
          Model.m_parent := mkMLItemId 0 0;
          Model.m_search_pattern := Qt.QString_of "abc";
          Model.m_sort := 0;
          Model.m_sort_desc := false;
          Model.m_limit := 0;
          Model.m_offset := 0;
          Model.m_cache := Some loaded_cache;
          Model.m_itemLoader := None;
          Model.m_need_reset := false;
          Model.m_qmlInitializing := false |};
     Model.medialib := 1;
     Model.cells := ∅;
     Model.issued := [];
     Model.jsEngine := true |}.

(** A model that needs a reset, with a cache of three rows. *)
Definition stale_world : Model.World simple_cache Z :=
  {| Model.model :=
       {| Model.m_mediaLib := Some 1;
          Model.m_parent := mkMLItemId 0 0;
          Model.m_search_pattern := Qt.QString_null;
          Model.m_sort := 0;
          Model.m_sort_desc := false;
          Model.m_limit := 0;
          Model.m_offset := 0;
          Model.m_cache := Some loaded_cache;
          Model.m_itemLoader := None;
          Model.m_need_reset := true;
          Model.m_qmlInitializing := false |};
     Model.medialib := 1;
     Model.cells := ∅;
     Model.issued := [];
     Model.jsEngine := true |}.

(** An event thread that starts and makes the window 100 with the video
    window 101. *)
Definition simple_events : Win32More.EventThreadOps Win32.RECT :=
  {| Win32More.EventThreadCreate := λ _, (1, Win32.mkRECT 0 0 0 0);
     Win32More.EventThreadStart := λ e _,
       (0, Win32More.mkEventHwnd 0 0 100 101 0, e);
     Win32More.EventThreadStop := λ e, e;
     Win32More.EventThreadDestroy := λ e, e;
     Win32More.var_InheritInteger := λ _, 0 |}.

(** A display embedded in the window 50 of its host. *)
Definition embedded_world : Win32.World Win32.RECT :=
  {| Win32.sys :=
       {| Win32.event := 1;
          Win32.parent_window := 0;
          Win32.hwnd := 100;
          Win32.hvideownd := 101;
          Win32.hparent := 50;
          Win32.hfswnd := 0;
          Win32.rect_dest_changed := false;
          Win32.b_windowless := false;
          Win32.is_first_placement := true;
          Win32.is_on_top := false;
          Win32.use_desktop := false;
          Win32.rect_display := Win32.mkRECT 0 0 0 0;
          Win32.rect_parent := Win32.mkRECT 0 0 0 0;
          Win32.rect_dest := Win32.mkRECT 0 0 0 0;
          Win32.vdcfg := some_cfg;
          Win32.pf_GetRect := Win32.GetRect_common |};
     Win32.event_thread := Win32.mkRECT 0 0 0 0;
     Win32.os := [] |}.

End MoreExamples.

(** * Properties *)

(** ** Machine integers and Qt strings *)

Section BaseFacts.
Import CInt Qt.

Lemma wrap_int_id z : INT_MIN ≤ z ≤ INT_MAX → wrap_int z = z.
Proof.
  unfold INT_MIN, INT_MAX, wrap_int. intros H.
  rewrite Z.mod_small; lia.
Qed.

Lemma wrap_int_range z : INT_MIN ≤ wrap_int z ≤ INT_MAX.
Proof.
  unfold INT_MIN, INT_MAX, wrap_int.
  pose proof (Z.mod_pos_bound (z + 2 ^ 31) (2 ^ 32)). lia.
Qed.

Lemma to_unsigned_id z : 0 ≤ z ≤ UINT_MAX → to_unsigned z = z.
Proof. unfold UINT_MAX, to_unsigned. intros H. rewrite Z.mod_small; lia. Qed.

Lemma to_unsigned_range z : 0 ≤ to_unsigned z ≤ UINT_MAX.
Proof.
  unfold UINT_MAX, to_unsigned.
  pose proof (Z.mod_pos_bound z (2 ^ 32)). lia.
Qed.

Lemma QString_equal_refl s : QString_equal s s = true.
Proof. unfold QString_equal. by rewrite bool_decide_eq_true. Qed.

Lemma toUtf8_isNull s : QByteArray_isNull (toUtf8 s) = QString_isNull s.
Proof. by destruct s. Qed.

Lemma QString_length_0_null_or_empty s :
  QString_length s = 0 ↔ s = QString_null ∨ s = QString_of EmptyString.
Proof.
  unfold QString_length. destruct s as [|[|a c]]; simpl; split; intros H;
    try (by auto); try lia; destruct H; congruence.
Qed.

End BaseFacts.

(** ** [loadItemsTask]: ranges *)

Section RangeFacts.
Import CInt ML Loader LoaderSpec.

Lemma foldl_range_step pre cur l :
  foldl range_step (pre ++ [cur]) l = pre ++ extend_ranges cur l.
Proof.
  revert pre cur. induction l as [|x l IH]; intros pre cur; simpl; [done|].
  unfold range_step at 2. rewrite last_snoc.
  destruct (wrap_int (x - high cur) <? MAX_DIFFERENCE).
  - rewrite length_app, Nat.add_1_r. simpl.
    replace (<[length pre:=mkRange (low cur) x]> (pre ++ [cur]))
      with (pre ++ [mkRange (low cur) x]); [apply IH|].
    rewrite insert_app_r_alt by lia. by rewrite Nat.sub_diag.
  - rewrite IH. by rewrite <- app_assoc.
Qed.

Lemma build_ranges_extend first rest :
  build_ranges (first :: rest) = extend_ranges (mkRange first first) rest.
Proof.
  unfold build_ranges. simpl. unfold range_step at 2. simpl.
  rewrite Z.sub_diag. simpl.
  apply (foldl_range_step [] (mkRange first first) rest).
Qed.

Lemma extend_ranges_head cur l :
  ∃ r rs, extend_ranges cur l = r :: rs ∧ low r = low cur.
Proof.
  revert cur. induction l as [|x l IH]; intros cur; simpl; [by eauto|].
  destruct (_ <? _); [|by eauto].
  destruct (IH (mkRange (low cur) x)) as (r & rs & -> & Hr). eauto.
Qed.

Lemma close_chain_snoc b x y :
  last b = Some x → y - x < MAX_DIFFERENCE → close_chain b → close_chain (b ++ [y]).
Proof.
  induction b as [|a [|a' b] IH]; intros Hl Hd Hc; simpl in *; [done| |].
  - by simplify_eq.
  - destruct Hc as [? Hc]. split; [done|]. by apply IH.
Qed.

Lemma head_snoc_Some {A} (b : list A) x y : head b = Some x → head (b ++ [y]) = Some x.
Proof. by destruct b. Qed.

(** The loop cuts the sorted indexes into blocks. *)
Lemma extend_ranges_blocks cur b l :
  block_of b cur → is_row (high cur) → Forall is_row l →
  ∃ blocks, concat blocks = b ++ l ∧
            Forall2 block_of blocks (extend_ranges cur l) ∧
            far_apart (extend_ranges cur l).
Proof.
  revert cur b. induction l as [|x l IH]; intros cur b Hb Hhi Hl; simpl.
  - exists [b]. simpl. rewrite !app_nil_r. repeat split; auto.
  - apply Forall_cons in Hl as [Hx Hl].
    assert (wrap_int (x - high cur) = x - high cur) as ->.
    { apply wrap_int_id. unfold is_row, INT_MIN, INT_MAX in *. lia. }
    destruct (Z.ltb_spec (x - high cur) MAX_DIFFERENCE) as [Hlt|Hge].
    + destruct (IH (mkRange (low cur) x) (b ++ [x])) as (blocks & Hc & HF & Hfar); auto.
      { destruct Hb as (Hh & Hla & Hcl). split; [|split]; simpl.
        - by apply head_snoc_Some.
        - by rewrite last_snoc.
        - by apply close_chain_snoc with (high cur). }
      exists blocks. rewrite Hc, <- app_assoc. auto.
    + destruct (IH (mkRange x x) [x]) as (blocks & Hc & HF & Hfar); auto.
      { by repeat split. }
      exists (b :: blocks). simpl. rewrite Hc. split; [done|]. split; [by constructor|].
      destruct (extend_ranges_head (mkRange x x) l) as (r & rs & Heq & Hlow).
      rewrite Heq in *. simpl in *. split; [lia|done].
Qed.

(** Every index lies in one of the ranges. *)
Lemma extend_ranges_cover cur l x :
  low cur ≤ high cur → is_row (low cur) → is_row (high cur) → Forall is_row l →
  StronglySorted Z.le (high cur :: l) →
  x ∈ l ∨ low cur ≤ x ≤ high cur →
  ∃ r, r ∈ extend_ranges cur l ∧ in_range r x = true.
Proof.
  revert cur. induction l as [|y l IH]; intros cur Hle Hlo Hhi Hl Hs Hx; simpl.
  - exists cur. split; [apply list_elem_of_singleton; done|]. unfold in_range.
    destruct Hx as [Hx|Hx]; [by apply elem_of_nil in Hx|].
    by rewrite !bool_decide_eq_true_2 by lia.
  - apply Forall_cons in Hl as [Hy Hl].
    apply StronglySorted_inv in Hs as [Hs' Hall].
    apply Forall_cons in Hall as [Hhy Hall].
    destruct (_ <? _).
    + apply (IH (mkRange (low cur) y)); simpl; auto; [lia|].
      destruct Hx as [Hx|Hx]; [|right; lia].
      apply elem_of_cons in Hx as [->|Hx]; [right; lia|by left].
    + assert (x ∈ l ∨ y ≤ x ≤ y → ∃ r, r ∈ cur :: extend_ranges (mkRange y y) l
                                        ∧ in_range r x = true) as Hnew.
      { intros Hx'.
        destruct (IH (mkRange y y)) as (r & Hr & Hin); simpl; auto; [lia|].
        exists r. split; [by apply elem_of_cons; right|done]. }
      destruct Hx as [Hx|Hx].
      * apply Hnew. apply elem_of_cons in Hx as [->|Hx]; [right; lia|by left].
      * exists cur. split; [by apply elem_of_cons; left|]. unfold in_range.
        by rewrite !bool_decide_eq_true_2 by lia.
Qed.

Lemma extend_ranges_rows cur l r :
  low cur ≤ high cur → is_row (low cur) → is_row (high cur) → Forall is_row l →
  StronglySorted Z.le (high cur :: l) →
  r ∈ extend_ranges cur l → low r ≤ high r ∧ is_row (low r) ∧ is_row (high r).
Proof.
  revert cur. induction l as [|y l IH]; intros cur Hle Hlo Hhi Hl Hs Hr; simpl in *.
  - apply list_elem_of_singleton in Hr as ->. auto.
  - apply Forall_cons in Hl as [Hy Hl].
    apply StronglySorted_inv in Hs as [Hs Hall].
    apply Forall_cons in Hall as [Hhy Hall].
    destruct (_ <? _).
    + apply (IH (mkRange (low cur) y)); simpl; auto. lia.
    + apply elem_of_cons in Hr as [->|Hr]; [by auto|].
      apply (IH (mkRange y y)); simpl; auto. lia.
Qed.

End RangeFacts.

(** ** [loadItemsTask]: filling the slots *)

Section FillFacts.
Import CInt ML Loader LoaderSpec.
Context {MLItem : Type} (row_item : Z → option MLItem).

Lemma in_range_spec r x : in_range r x = true ↔ low r ≤ x ≤ high r.
Proof.
  unfold in_range. rewrite andb_true_iff, !bool_decide_eq_true. tauto.
Qed.

Lemma fill_from_range_app r l1 l2 i (data items : list (option MLItem)) :
  fill_from_range r (l1 ++ l2) i data items =
  '(data', items') ← fill_from_range r l1 i data items;
  fill_from_range r l2 (i + length l1)%nat data' items'.
Proof.
  revert i data items. induction l1 as [|x l1 IH]; intros i data items; simpl.
  - by rewrite Nat.add_0_r.
  - destruct (_ && _).
    + destruct (move_slot _ _ _ _) as [[d it]|]; simpl; [|done].
      rewrite IH. by replace (S i + length l1)%nat with (i + S (length l1))%nat by lia.
    + rewrite IH. by replace (S i + length l1)%nat with (i + S (length l1))%nat by lia.
Qed.

Lemma length_drained r pre :
  length (drained row_item r pre) = Z.to_nat (high r - low r + 1).
Proof. unfold drained. by rewrite length_fmap, length_seqZ. Qed.

Lemma length_filled r pre (items0 : list (option MLItem)) :
  length (filled row_item r pre items0) = length items0.
Proof. unfold filled. by rewrite length_imap. Qed.

Lemma lookup_drained r pre (k : nat) :
  (Z.of_nat k < high r - low r + 1) →
  drained row_item r pre !! k =
    Some (if bool_decide (low r + Z.of_nat k ∈ pre) then None
          else row_item (low r + Z.of_nat k)).
Proof.
  intros Hk. unfold drained. rewrite list_lookup_fmap, lookup_seqZ_lt by done. done.
Qed.

Lemma drained_snoc r pre x :
  drained row_item r (pre ++ [x]) =
    if in_range r x then <[Z.to_nat (x - low r) := None]> (drained row_item r pre)
    else drained row_item r pre.
Proof.
  apply list_eq. intros k.
  destruct (decide (Z.of_nat k < high r - low r + 1)) as [Hk|Hk].
  - rewrite lookup_drained by done.
    destruct (in_range r x) eqn:Hin.
    + apply in_range_spec in Hin.
      rewrite list_lookup_insert, length_drained, lookup_drained by done.
      case_decide as Hd.
      * destruct Hd as [<- _]. rewrite bool_decide_eq_true_2; [done|].
        apply elem_of_app. right. apply list_elem_of_singleton. lia.
      * f_equal. apply not_and_l in Hd as [Hd|Hd]; [|lia].
        assert (low r + Z.of_nat k ≠ x) by lia.
        destruct (decide (low r + Z.of_nat k ∈ pre)) as [He|He].
        -- by rewrite !bool_decide_eq_true_2 by (try apply elem_of_app; auto).
        -- rewrite !bool_decide_eq_false_2; [done|done|].
           intros [?|?%list_elem_of_singleton]%elem_of_app; done.
    + rewrite lookup_drained by done. f_equal.
      assert (low r + Z.of_nat k ≠ x).
      { intros <-. assert (in_range r (low r + Z.of_nat k) = true); [|congruence].
        apply in_range_spec. lia. }
      destruct (decide (low r + Z.of_nat k ∈ pre)) as [He|He].
      * by rewrite !bool_decide_eq_true_2 by (try apply elem_of_app; auto).
      * rewrite !bool_decide_eq_false_2; [done|done|].
        intros [?|?%list_elem_of_singleton]%elem_of_app; done.
  - assert (∀ p, drained row_item r p !! k = None) as Hnone.
    { intros p. apply lookup_ge_None. rewrite length_drained. lia. }
    destruct (in_range r x); [|by rewrite !Hnone].
    rewrite Hnone. symmetry. apply list_lookup_insert_None, Hnone.
Qed.

Lemma first_occurrence_snoc pre x (j : nat) y :
  (j ≤ length pre)%nat →
  first_occurrence row_item (pre ++ [x]) j y = first_occurrence row_item pre j y.
Proof.
  intros Hj. unfold first_occurrence. by rewrite take_app_le.
Qed.

Lemma filled_snoc r pre x (items0 : list (option MLItem)) :
  filled row_item r (pre ++ [x]) items0 =
    if in_range r x
    then <[length pre := first_occurrence row_item pre (length pre) x]>
           (filled row_item r pre items0)
    else filled row_item r pre items0.
Proof.
  apply list_eq. intros j.
  assert (filled row_item r (pre ++ [x]) items0 !! j =
          if decide (j = length pre)
          then (λ old, if in_range r x then first_occurrence row_item pre j x else old)
                 <$> items0 !! j
          else filled row_item r pre items0 !! j) as ->.
  { unfold filled. rewrite !list_lookup_imap. case_decide as Hj.
    - subst j. by rewrite list_lookup_middle, first_occurrence_snoc.
    - destruct (decide (j < length pre)%nat).
      + rewrite lookup_app_l by done. destruct (pre !! j) eqn:E; [|done].
        by rewrite first_occurrence_snoc by lia.
      + assert ((pre ++ [x]) !! j = None) as ->
          by (apply lookup_ge_None; rewrite length_app; simpl; lia).
        assert (pre !! j = None) as -> by (apply lookup_ge_None; lia).
        done. }
  destruct (in_range r x) eqn:Hin.
  - rewrite list_lookup_insert, length_filled. case_decide as Hj.
    + subst j. destruct (items0 !! length pre) eqn:E; simpl.
      * rewrite decide_True; [done|]. split; [done|]. by eapply lookup_lt_Some.
      * rewrite decide_False;
          [|intros [_ Hlt]; apply lookup_lt_is_Some_2 in Hlt as [? ?]; congruence].
        unfold filled. by rewrite list_lookup_imap, E.
    + rewrite decide_False; [done|]. by intros [? _].
  - case_decide as Hj; [|done]. subst j.
    unfold filled. rewrite list_lookup_imap.
    rewrite (proj2 (lookup_ge_None pre (length pre))) by lia.
    by destruct (items0 !! length pre).
Qed.

Lemma filled_nil r (items0 : list (option MLItem)) : filled row_item r [] items0 = items0.
Proof.
  apply list_eq. intros j. unfold filled. rewrite list_lookup_imap.
  by destruct (items0 !! j).
Qed.

Lemma drained_nil r :
  drained row_item r [] = row_item <$> seqZ (low r) (high r - low r + 1).
Proof.
  unfold drained. apply list_fmap_ext. intros _ x _.
  rewrite bool_decide_eq_false_2; [done|]. apply not_elem_of_nil.
Qed.

(** One visited index that lies in the range. *)
Lemma move_slot_drained r pre x (items : list (option MLItem)) :
  is_row (low r) → is_row (high r) → is_row x → in_range r x = true →
  (length pre < length items)%nat →
  move_slot (drained row_item r pre) items (wrap_int (x - low r)) (length pre) =
    Some (<[Z.to_nat (x - low r) := None]> (drained row_item r pre),
          <[length pre := first_occurrence row_item pre (length pre) x]> items).
Proof.
  intros Hlo Hhi Hx Hin Hlen. apply in_range_spec in Hin.
  rewrite wrap_int_id by (unfold is_row, INT_MIN, INT_MAX in *; lia).
  unfold move_slot, vector_at.
  rewrite length_drained.
  rewrite (bool_decide_eq_true_2 (0 ≤ x - low r < _)) by lia.
  rewrite lookup_drained by lia. simpl.
  rewrite (bool_decide_eq_true_2 (0 ≤ Z.of_nat (length pre) < _)) by lia.
  rewrite Nat2Z.id.
  destruct (lookup_lt_is_Some_2 items (length pre) Hlen) as [old ->]. simpl.
  unfold first_occurrence. rewrite take_ge by done.
  by replace (low r + Z.of_nat (Z.to_nat (x - low r))) with x by lia.
Qed.

(** The inner loop, from the freshly loaded window. *)
Lemma fill_from_range_prefix r pre (items0 : list (option MLItem)) :
  is_row (low r) → is_row (high r) → Forall is_row pre →
  (length pre ≤ length items0)%nat →
  fill_from_range r pre 0 (drained row_item r []) items0 =
    Some (drained row_item r pre, filled row_item r pre items0).
Proof.
  intros Hlo Hhi. induction pre as [|x pre IH] using rev_ind; intros Hrows Hlen.
  - simpl. by rewrite filled_nil.
  - apply Forall_app in Hrows as [Hrows Hx]. apply Forall_cons in Hx as [Hx _].
    rewrite length_app in Hlen. simpl in Hlen.
    rewrite fill_from_range_app, IH by (done || lia). simpl.
    rewrite drained_snoc, filled_snoc.
    fold (in_range r x). destruct (in_range r x) eqn:Hin; [|done].
    rewrite move_slot_drained by (rewrite ?length_filled; done || lia). done.
Qed.

Lemma filled_lookup_in r indexes (items : list (option MLItem)) (j : nat) x :
  indexes !! j = Some x → in_range r x = true → (j < length items)%nat →
  filled row_item r indexes items !! j = Some (first_occurrence row_item indexes j x).
Proof.
  intros Hj Hin Hlen. unfold filled. rewrite list_lookup_imap, Hj, Hin.
  by destruct (lookup_lt_is_Some_2 items j Hlen) as [old ->].
Qed.

Lemma filled_lookup_keep r indexes (items : list (option MLItem)) (j : nat) x :
  indexes !! j = Some x →
  items !! j = Some (first_occurrence row_item indexes j x) →
  filled row_item r indexes items !! j = Some (first_occurrence row_item indexes j x).
Proof.
  intros Hj Hit. unfold filled. rewrite list_lookup_imap, Hj, Hit. simpl.
  by destruct (in_range r x).
Qed.

Lemma foldl_filled_length indexes rs (items : list (option MLItem)) :
  length (foldl (λ it r, filled row_item r indexes it) items rs) = length items.
Proof.
  revert items. induction rs as [|r rs IH]; intros items; simpl; [done|].
  by rewrite IH, length_filled.
Qed.

Lemma foldl_filled_keep indexes rs (items : list (option MLItem)) (j : nat) x :
  indexes !! j = Some x →
  items !! j = Some (first_occurrence row_item indexes j x) →
  foldl (λ it r, filled row_item r indexes it) items rs !! j =
    Some (first_occurrence row_item indexes j x).
Proof.
  intros Hj. revert items. induction rs as [|r rs IH]; intros items Hit; simpl; [done|].
  apply IH. by apply filled_lookup_keep.
Qed.

(** A slot whose row is covered by one of the ranges ends up with the item
    of its row, or null if an earlier slot has the same row. *)
Lemma foldl_filled_cover indexes rs (items : list (option MLItem)) (j : nat) x r :
  indexes !! j = Some x → (j < length items)%nat →
  r ∈ rs → in_range r x = true →
  foldl (λ it r, filled row_item r indexes it) items rs !! j =
    Some (first_occurrence row_item indexes j x).
Proof.
  intros Hj. revert items. induction rs as [|r' rs IH]; intros items Hlen Hr Hin; simpl.
  - by apply elem_of_nil in Hr.
  - apply elem_of_cons in Hr as [<-|Hr].
    + apply foldl_filled_keep; [done|]. by apply filled_lookup_in.
    + apply IH; [by rewrite length_filled|done|done].
Qed.

Lemma first_occurrence_NoDup indexes (j : nat) x :
  NoDup indexes → indexes !! j = Some x →
  first_occurrence row_item indexes j x = row_item x.
Proof.
  intros Hnd Hj. unfold first_occurrence. rewrite bool_decide_eq_false_2; [done|].
  intros (i & Hi)%list_elem_of_lookup_1.
  apply lookup_take_Some in Hi as [Hi Hlt].
  pose proof (NoDup_lookup _ _ _ _ Hnd Hi Hj). lia.
Qed.

End FillFacts.

(** ** [loadItemsTask]: the whole task *)

Section LoadItemsFacts.
Import CInt ML Loader LoaderSpec.
Context {MediaLibrary MLItem : Type} {V : MLOpVirtuals MediaLibrary MLItem}.
Context (row_item : Z → option MLItem).

Lemma range_count_valid r : valid_range r → range_count r = high r - low r + 1.
Proof.
  intros (Hle & Hlo & Hhi). unfold range_count.
  unfold is_row, INT_MAX in *.
  rewrite (wrap_int_id (high r - low r)) by (unfold INT_MIN, INT_MAX; lia).
  apply wrap_int_id. unfold INT_MIN, INT_MAX. lia.
Qed.

Lemma load_ranges_spec op ml q q' indexes rs (items : list (option MLItem)) :
  loads_rows op ml q row_item →
  (∀ a b, set_window q' a b = set_window q a b) →
  Forall valid_range rs → Forall is_row indexes →
  (length indexes ≤ length items)%nat →
  load_ranges op ml q' indexes rs items =
    Some (range_query q <$> rs,
          foldl (λ it r, filled row_item r indexes it) items rs).
Proof.
  intros Hload. revert q' items.
  induction rs as [|r rs IH]; intros q' items Hq Hrs Hrows Hlen; simpl; [done|].
  apply Forall_cons in Hrs as [Hr Hrs].
  rewrite range_count_valid, Hq by done.
  pose proof Hr as (Hle & Hlo & Hhi).
  rewrite Hload by (unfold is_row in *; lia).
  rewrite <- drained_nil, fill_from_range_prefix by done. simpl.
  rewrite (IH (set_window q (low r) (high r - low r + 1))); [done|done|done|done|].
  by rewrite length_filled.
Qed.

(** Without any assumption on repeated rows: each slot receives the item of
    its row unless an earlier slot has the same row. *)
Lemma loadItemsTask_ml_slots d_off d_lim op ml indexes :
  loads_rows op ml (getQueryParams op d_off d_lim) row_item →
  Forall is_row indexes →
  ∃ ranges,
    ranges_partition indexes ranges ∧
    loadItemsTask_ml d_off d_lim op ml indexes =
      Some (range_query (getQueryParams op d_off d_lim) <$> ranges,
            imap (first_occurrence row_item indexes) indexes).
Proof.
  intros Hload Hrows. unfold loadItemsTask_ml.
  case_bool_decide as Hnil.
  { subst. exists []. split; [|done]. exists [], []. repeat split; constructor. }
  pose proof (merge_sort_Permutation Z.le indexes) as Hperm.
  pose proof (StronglySorted_merge_sort Z.le indexes) as Hsorted.
  assert (Forall is_row (merge_sort Z.le indexes)) as Hsrows by by rewrite Hperm.
  destruct (merge_sort Z.le indexes) as [|first rest] eqn:Hs.
  { apply Permutation_nil_l in Hperm. congruence. }
  rewrite build_ranges_extend.
  apply Forall_cons in Hsrows as [Hfirst Hrest].
  set (cur := mkRange first first).
  exists (extend_ranges cur rest). split.
  - destruct (extend_ranges_blocks cur [first] rest) as (blocks & Hc & HF & Hfar);
      [by repeat split|done|done|].
    exists (first :: rest), blocks. by repeat split.
  - erewrite load_ranges_spec; [|done|done| |done|by rewrite length_replicate].
    2:{ apply Forall_forall. intros r Hr.
        eapply (extend_ranges_rows cur rest); [simpl; lia|done..]. }
    f_equal. f_equal. apply list_eq. intros j.
    rewrite list_lookup_imap.
    destruct (indexes !! j) as [x|] eqn:Hj; simpl.
    + assert (x ∈ first :: rest) as Hx.
      { rewrite Hperm. by eapply list_elem_of_lookup_2. }
      destruct (extend_ranges_cover cur rest x) as (r & Hr & Hin);
        [simpl; lia|done|done|done|done| |].
      { apply elem_of_cons in Hx as [->|Hx]; [right; simpl; lia|by left]. }
      eapply foldl_filled_cover; [done| |done|done].
      rewrite length_replicate. by eapply lookup_lt_Some.
    + apply lookup_ge_None. rewrite foldl_filled_length, length_replicate.
      by apply lookup_ge_None.
Qed.

End LoadItemsFacts.

Section LoadItemsTheorems.
Import CInt ML Loader LoaderSpec.



(** The ranges and loads of a concrete request. *)
Example loadItemsTask_example :
  loadItemsTask (V := Examples.row_library) 0 0 Examples.some_op tt 1 [7; 2; 30; 4; 9] =
    Some ([set_window (getQueryParams Examples.some_op 0 0) 2 8;
           set_window (getQueryParams Examples.some_op 0 0) 30 1],
          [ItemsCb 1 [Some 7; Some 2; Some 30; Some 4; Some 9]]).
Proof. vm_compute. reflexivity. Qed.


End LoadItemsTheorems.

(** ** The list model *)

Section CountFacts.
Import CInt Qt ML Loader Model.
Context {MLItem Cache : Type} {CO : ListCacheOps MLItem Cache}.

Lemma rowCount_no_cache (m : MLBaseModel Cache) parent :
  m_cache m = None → rowCount m parent = 0.
Proof. unfold rowCount. by intros ->. Qed.

Lemma rowCount_valid_parent (m : MLBaseModel Cache) parent :
  isValid parent = true → rowCount m parent = 0.
Proof. unfold rowCount. intros ->. by destruct (m_cache m). Qed.

Lemma rowCount_queryCount (m : MLBaseModel Cache) cache parent :
  m_cache m = Some cache → isValid parent = false →
  rowCount m parent = wrap_int (queryCount cache).
Proof. unfold rowCount. by intros -> ->. Qed.

(** C2: with a cache whose count is still [COUNT_UNINITIALIZED] and no
    valid parent, [rowCount] returns the sentinel itself, a negative
    number of rows. *)
Theorem rowCount_uninitialized {L : ListCacheLaws} (m : MLBaseModel Cache) cache parent :
  m_cache m = Some cache →
  isValid parent = false →
  queryCount cache = COUNT_UNINITIALIZED →
  INT_MIN ≤ COUNT_UNINITIALIZED →
  rowCount m parent = COUNT_UNINITIALIZED ∧ rowCount m parent < 0.
Proof.
  intros Hc Hp Hq Hmin. pose proof COUNT_UNINITIALIZED_negative as Hneg.
  rewrite (rowCount_queryCount m cache parent Hc Hp), Hq.
  rewrite wrap_int_id by (unfold INT_MAX; lia). done.
Qed.

(** C10 (as amended): [getCount] and [getMaximumCount] are never the
    sentinel: they are 0 without a cache or with an uninitialized count, and
    otherwise the count of the cache converted to [unsigned], which is the
    count itself when it lies between 0 and [UINT_MAX]; [loading] holds
    exactly when the media library is unset, the cache is absent or its
    query count is uninitialized. *)
Theorem counts_hide_sentinel {L : ListCacheLaws} (m : MLBaseModel Cache) :
  (getCount m ≠ COUNT_UNINITIALIZED ∧ 0 ≤ getCount m ≤ UINT_MAX) ∧
  (getMaximumCount m ≠ COUNT_UNINITIALIZED ∧ 0 ≤ getMaximumCount m ≤ UINT_MAX) ∧
  (m_cache m = None → getCount m = 0 ∧ getMaximumCount m = 0) ∧
  (∀ cache, m_cache m = Some cache →
     (queryCount cache = COUNT_UNINITIALIZED → getCount m = 0) ∧
     (maximumCount cache = COUNT_UNINITIALIZED → getMaximumCount m = 0) ∧
     (queryCount cache ≠ COUNT_UNINITIALIZED →
        getCount m = to_unsigned (queryCount cache)) ∧
     (maximumCount cache ≠ COUNT_UNINITIALIZED →
        getMaximumCount m = to_unsigned (maximumCount cache)) ∧
     (0 ≤ queryCount cache ≤ UINT_MAX → getCount m = queryCount cache) ∧
     (0 ≤ maximumCount cache ≤ UINT_MAX → getMaximumCount m = maximumCount cache)) ∧
  (loading m = true ↔
     m_mediaLib m = None ∨ m_cache m = None ∨
     ∃ cache, m_cache m = Some cache ∧ queryCount cache = COUNT_UNINITIALIZED).
Proof.
  pose proof COUNT_UNINITIALIZED_negative as Hneg.
  assert (∀ z, 0 ≤ (if bool_decide (z = COUNT_UNINITIALIZED) then 0 else to_unsigned z)
               ≤ UINT_MAX)
    as Hpos.
  { intros z. case_bool_decide; [unfold UINT_MAX; lia|]. apply to_unsigned_range. }
  split; [|split; [|split; [|split]]].
  - unfold getCount. destruct (m_cache m) as [c|]; [|unfold UINT_MAX; lia].
    specialize (Hpos (queryCount c)). lia.
  - unfold getMaximumCount. destruct (m_cache m) as [c|]; [|unfold UINT_MAX; lia].
    specialize (Hpos (maximumCount c)). lia.
  - unfold getCount, getMaximumCount. by intros ->.
  - unfold getCount, getMaximumCount. intros c ->.
    split; [|split; [|split; [|split; [|split]]]]; intros H.
    + by rewrite bool_decide_eq_true_2.
    + by rewrite bool_decide_eq_true_2.
    + by rewrite bool_decide_eq_false_2.
    + by rewrite bool_decide_eq_false_2.
    + rewrite bool_decide_eq_false_2 by lia. by apply to_unsigned_id.
    + rewrite bool_decide_eq_false_2 by lia. by apply to_unsigned_id.
  - unfold loading. rewrite negb_true_iff, andb_false_iff.
    rewrite bool_decide_eq_false, <- eq_None_not_Some.
    destruct (m_cache m) as [c|].
    + rewrite negb_false_iff, bool_decide_eq_true. split.
      * intros [?|?]; [by left|right; right; eauto].
      * intros [?|[?|(c' & ? & ?)]]; [by left|done|right; congruence].
    + split; [intros [?|?]; auto|auto].
Qed.

End CountFacts.

Section CountWitnesses.
Import CInt Model Examples MoreExamples.

Lemma simple_cache_laws : ListCacheLaws (CO := simple_cache_ops).
Proof. constructor. simpl. lia. Qed.

Lemma rowCount_uninitialized_witness :
  m_cache (model_with (Some unloaded_cache)) = Some unloaded_cache ∧
  isValid no_index = false ∧
  queryCount (ListCacheOps := simple_cache_ops) unloaded_cache = -1 ∧
  INT_MIN ≤ -1 ∧
  rowCount (CO := simple_cache_ops) (model_with (Some unloaded_cache)) no_index = -1 ∧
  rowCount (CO := simple_cache_ops) (model_with (Some unloaded_cache)) no_index < 0.
Proof.
  assert (INT_MIN ≤ -1) as Hmin by (unfold INT_MIN; lia).
  split; [reflexivity|]. split; [reflexivity|]. split; [reflexivity|].
  split; [exact Hmin|].
  exact (rowCount_uninitialized (CO := simple_cache_ops) (L := simple_cache_laws)
           (model_with (Some unloaded_cache)) unloaded_cache no_index
           eq_refl eq_refl eq_refl Hmin).
Defined.

Lemma counts_hide_sentinel_witness :
  let m := model_with (Some loaded_cache) in
  getCount (CO := simple_cache_ops) m = 3 ∧
  getMaximumCount (CO := simple_cache_ops) m = 3 ∧
  loading (CO := simple_cache_ops) m = false ∧
  getCount (CO := simple_cache_ops) (model_with (Some unloaded_cache)) = 0 ∧
  loading (CO := simple_cache_ops) (model_with (Some unloaded_cache)) = true.
Proof.
  pose proof (counts_hide_sentinel (CO := simple_cache_ops) (L := simple_cache_laws)
                (model_with (Some loaded_cache))) as (_ & _ & _ & Hc & _).
  destruct (Hc loaded_cache eq_refl) as (_ & _ & _ & _ & Hq & Hm).
  split; [apply Hq; unfold UINT_MAX; simpl; lia|].
  split; [apply Hm; unfold UINT_MAX; simpl; lia|].
  split; [reflexivity|]. split; reflexivity.
Defined.

(** C10 as stated fails for a count that does not fit [unsigned]: the
    cast gives its value modulo 2^32. *)
Lemma getCount_beyond_unsigned :
  let m := model_with (Some huge_cache) in
  queryCount (ListCacheOps := simple_cache_ops) huge_cache = 2 ^ 32 + 5 ∧
  queryCount (ListCacheOps := simple_cache_ops) huge_cache ≠
    COUNT_UNINITIALIZED (ListCacheOps := simple_cache_ops) ∧
  getCount (CO := simple_cache_ops) m = 5 ∧
  getCount (CO := simple_cache_ops) m ≠
    queryCount (ListCacheOps := simple_cache_ops) huge_cache ∧
  getMaximumCount (CO := simple_cache_ops) m = 5.
Proof. intros m. vm_compute. repeat split; discriminate. Qed.

End CountWitnesses.

Section SetterFacts.
Import CInt Qt ML Loader Model ModelSpec.
Context {MLItem Cache MediaLib QVariant : Type}.
Context {CO : ListCacheOps MLItem Cache} {MO : MediaLibOps MediaLib}.
Context {MV : ModelVirtuals MLItem Cache QVariant}.

Lemma with_model_id (w : World Cache MediaLib) : with_model (λ m, m) w = w.
Proof. by destruct w. Qed.

Lemma with_model_compose f g (w : World Cache MediaLib) :
  with_model f (with_model g w) = with_model (λ m, f (g m)) w.
Proof. done. Qed.

Lemma set_cache_set_cache c c' (m : MLBaseModel Cache) :
  set_cache c (set_cache c' m) = set_cache c m.
Proof. done. Qed.

Lemma resetCache_run (w : World Cache MediaLib) :
  resetCache w = (tt, with_model reset_model w, reset_signals (model w)).
Proof.
  unfold resetCache, validateCache, reset_model, reset_signals.
  unfold emit, connected, emit_loadingChanged, signal, mbind, Op_bind, bind, update_model, get_model, ret. simpl.
  destruct (cachable (set_cache None (model w))) eqn:E; unfold with_model; simpl; rewrite E; done.
Qed.

Lemma reset_model_fields (m : MLBaseModel Cache) :
  m_sort_desc (reset_model m) = m_sort_desc m ∧
  m_sort (reset_model m) = m_sort m ∧
  m_search_pattern (reset_model m) = m_search_pattern m ∧
  m_limit (reset_model m) = m_limit m ∧
  m_offset (reset_model m) = m_offset m ∧
  m_parent (reset_model m) = m_parent m.
Proof. unfold reset_model. simpl. by destruct (cachable _). Qed.

Lemma m_cache_reset_model (m : MLBaseModel Cache) :
  m_cache (reset_model m) =
    if cachable (set_cache None m) then Some (fresh_cache (set_cache None m)) else None.
Proof. unfold reset_model. simpl. by destruct (cachable _). Qed.

Ltac run_setter :=
  unfold emit, connected, emit_loadingChanged, signal, mbind, Op_bind, bind, update_model, get_model, ret; simpl.

Lemma setSortOrder_run order (w : World Cache MediaLib) :
  setSortOrder order w =
    let desc := bool_decide (order = DescendingOrder) in
    if bool_decide (m_sort_desc (model w) = desc) then (tt, w, [])
    else (tt, with_model (λ m, reset_model (set_sort_desc desc m)) w,
          reset_signals (set_sort_desc desc (model w)) ++ [sortOrderChanged]).
Proof.
  unfold setSortOrder. run_setter. case_bool_decide; [done|].
  rewrite resetCache_run. reflexivity.
Qed.

Lemma setSortCriteria_run criteria (w : World Cache MediaLib) :
  setSortCriteria criteria w =
    let sort := nameToCriteria (toUtf8 criteria) in
    if bool_decide (m_sort (model w) = sort) then (tt, w, [])
    else (tt, with_model (λ m, reset_model (set_sort sort m)) w,
          reset_signals (set_sort sort (model w)) ++ [sortCriteriaChanged]).
Proof.
  unfold setSortCriteria. run_setter. case_bool_decide; [done|].
  rewrite resetCache_run. reflexivity.
Qed.

Lemma setSearchPattern_run pattern (w : World Cache MediaLib) :
  setSearchPattern pattern w =
    let patternToApply := if QString_length pattern =? 0 then QString_null else pattern in
    if QString_equal patternToApply (m_search_pattern (model w)) then (tt, w, [])
    else (tt, with_model (λ m, reset_model (set_search_pattern patternToApply m)) w,
          reset_signals (set_search_pattern patternToApply (model w))).
Proof.
  unfold setSearchPattern. run_setter. destruct (QString_equal _ _); [done|].
  rewrite resetCache_run. reflexivity.
Qed.

Lemma setLimit_run limit (w : World Cache MediaLib) :
  setLimit limit w =
    if bool_decide (m_limit (model w) = limit) then (tt, w, [])
    else (tt, with_model (λ m, reset_model (set_limit limit m)) w,
          reset_signals (set_limit limit (model w)) ++ [limitChanged]).
Proof.
  unfold setLimit. run_setter. case_bool_decide; [done|].
  rewrite resetCache_run. reflexivity.
Qed.

Lemma setOffset_run offset (w : World Cache MediaLib) :
  setOffset offset w =
    if bool_decide (m_offset (model w) = offset) then (tt, w, [])
    else (tt, with_model (λ m, reset_model (set_offset offset m)) w,
          reset_signals (set_offset offset (model w)) ++ [offsetChanged]).
Proof.
  unfold setOffset. run_setter. case_bool_decide; [done|].
  rewrite resetCache_run. reflexivity.
Qed.

Lemma setParentId_run parentId (w : World Cache MediaLib) :
  setParentId parentId w =
    (tt, with_model (λ m, reset_model (set_parent parentId m)) w,
     reset_signals (set_parent parentId (model w)) ++ [parentIdChanged]).
Proof.
  unfold setParentId. run_setter.
  rewrite resetCache_run. reflexivity.
Qed.

Lemma QString_equal_patternToApply pattern stored :
  QString_equal pattern stored = true →
  QString_equal (if QString_length pattern =? 0 then QString_null else pattern) stored = true.
Proof.
  intros Heq. destruct (Z.eqb_spec (QString_length pattern) 0) as [H0|]; [|done].
  unfold QString_equal in *. apply bool_decide_eq_true in Heq.
  apply bool_decide_eq_true. rewrite <- Heq. simpl.
  apply QString_length_0_null_or_empty in H0 as [->| ->]; done.
Qed.

(** C9: a setter called with the stored value changes nothing and emits
    nothing, so that a second call with the same argument is the identity;
    [setParentId] with the stored parent id still replaces the cache and
    emits [parentIdChanged]. *)
Theorem setters_same_value (w : World Cache MediaLib) :
  (∀ order, getSortOrder (model w) = order → setSortOrder order w = (tt, w, [])) ∧
  (∀ criteria, nameToCriteria (toUtf8 criteria) = m_sort (model w) →
     setSortCriteria criteria w = (tt, w, [])) ∧
  (∀ pattern, QString_equal pattern (m_search_pattern (model w)) = true →
     setSearchPattern pattern w = (tt, w, [])) ∧
  (∀ limit, limit = m_limit (model w) → setLimit limit w = (tt, w, [])) ∧
  (∀ offset, offset = m_offset (model w) → setOffset offset w = (tt, w, [])) ∧
  (∀ order, let w1 := (setSortOrder order w).1.2 in
     setSortOrder order w1 = (tt, w1, [])) ∧
  (∀ criteria, let w1 := (setSortCriteria criteria w).1.2 in
     setSortCriteria criteria w1 = (tt, w1, [])) ∧
  (∀ pattern, let w1 := (setSearchPattern pattern w).1.2 in
     setSearchPattern pattern w1 = (tt, w1, [])) ∧
  (∀ limit, let w1 := (setLimit limit w).1.2 in setLimit limit w1 = (tt, w1, [])) ∧
  (∀ offset, let w1 := (setOffset offset w).1.2 in setOffset offset w1 = (tt, w1, [])) ∧
  (∀ parentId, parentId = m_parent (model w) →
     ∃ w1 signals,
       setParentId parentId w = (tt, w1, signals ++ [parentIdChanged]) ∧
       beginResetModel ∈ signals ∧ endResetModel ∈ signals ∧
       m_cache (model w1) =
         if cachable (set_cache None (model w))
         then Some (fresh_cache (set_cache None (model w))) else None).
Proof.
  repeat split.
  - intros order <-. rewrite setSortOrder_run. simpl.
    rewrite bool_decide_eq_true_2; [done|].
    unfold getSortOrder. by destruct (m_sort_desc (model w)).
  - intros criteria Heq. rewrite setSortCriteria_run. simpl.
    by rewrite bool_decide_eq_true_2.
  - intros pattern Heq. rewrite setSearchPattern_run. simpl.
    by rewrite QString_equal_patternToApply.
  - intros limit ->. rewrite setLimit_run. by rewrite bool_decide_eq_true_2.
  - intros offset ->. rewrite setOffset_run. by rewrite bool_decide_eq_true_2.
  - intros order. rewrite (setSortOrder_run order w). simpl.
    case_bool_decide as Hd; simpl.
    + rewrite setSortOrder_run. simpl. by rewrite bool_decide_eq_true_2.
    + rewrite setSortOrder_run. simpl. rewrite bool_decide_eq_true_2; [done|].
      by rewrite (proj1 (reset_model_fields _)).
  - intros criteria. rewrite (setSortCriteria_run criteria w). simpl.
    case_bool_decide as Hd; simpl.
    + rewrite setSortCriteria_run. simpl. by rewrite bool_decide_eq_true_2.
    + rewrite setSortCriteria_run. simpl. rewrite bool_decide_eq_true_2; [done|].
      by rewrite (proj1 (proj2 (reset_model_fields _))).
  - intros pattern. rewrite (setSearchPattern_run pattern w). simpl.
    destruct (QString_equal _ (m_search_pattern (model w))) eqn:Hd; simpl.
    + rewrite setSearchPattern_run. simpl. by rewrite Hd.
    + rewrite setSearchPattern_run. simpl.
      rewrite (proj1 (proj2 (proj2 (reset_model_fields _)))). simpl.
      by rewrite QString_equal_refl.
  - intros limit. rewrite (setLimit_run limit w).
    case_bool_decide as Hd; simpl.
    + rewrite setLimit_run. by rewrite bool_decide_eq_true_2.
    + rewrite setLimit_run. simpl. rewrite bool_decide_eq_true_2; [done|].
      by rewrite (proj1 (proj2 (proj2 (proj2 (reset_model_fields _))))).
  - intros offset. rewrite (setOffset_run offset w).
    case_bool_decide as Hd; simpl.
    + rewrite setOffset_run. by rewrite bool_decide_eq_true_2.
    + rewrite setOffset_run. simpl. rewrite bool_decide_eq_true_2; [done|].
      by rewrite (proj1 (proj2 (proj2 (proj2 (proj2 (reset_model_fields _)))))).
  - intros parentId ->. rewrite setParentId_run.
    eexists _, _. split; [reflexivity|].
    assert (set_parent (m_parent (model w)) (model w) = model w) as ->
      by by destruct (model w).
    split; [|split].
    + unfold reset_signals. set_solver.
    + unfold reset_signals. set_solver.
    + simpl. rewrite m_cache_reset_model.
      assert (set_parent (m_parent (model w)) (model w) = model w) as ->
        by by destruct (model w).
      done.
Qed.

End SetterFacts.

Section SetterWitnesses.
Import Qt ML Model ModelSpec Examples.

Lemma setters_same_value_witness :
  let w := world_with (Some loaded_cache) in
  setSortOrder (CO := simple_cache_ops) (MV := simple_virtuals) AscendingOrder w
    = (tt, w, []) ∧
  setSearchPattern (CO := simple_cache_ops) (MV := simple_virtuals)
    (QString_of EmptyString) w = (tt, w, []) ∧
  setLimit (CO := simple_cache_ops) (MV := simple_virtuals) 0 w = (tt, w, []) ∧
  ∃ w1 signals,
    setParentId (CO := simple_cache_ops) (MV := simple_virtuals) (mkMLItemId 0 0) w
      = (tt, w1, signals ++ [parentIdChanged]) ∧
    beginResetModel ∈ signals ∧ endResetModel ∈ signals ∧
    m_cache (model w1) = Some unloaded_cache.
Proof.
  destruct (setters_same_value (CO := simple_cache_ops) (MV := simple_virtuals)
              (world_with (Some loaded_cache)))
    as (Horder & _ & Hpattern & Hlimit & _ & _ & _ & _ & _ & _ & Hparent).
  split; [apply Horder; reflexivity|].
  split; [apply Hpattern; reflexivity|].
  split; [apply Hlimit; reflexivity|].
  destruct (Hparent (mkMLItemId 0 0) eq_refl) as (w1 & signals & H1 & H2 & H3 & H4).
  exists w1, signals. repeat split; assumption.
Defined.

End SetterWitnesses.

Section PatternFacts.
Import CInt Qt ML Loader Model ModelSpec.
Context {MLItem Cache MediaLib QVariant : Type}.
Context {CO : ListCacheOps MLItem Cache} {MO : MediaLibOps MediaLib}.
Context {MV : ModelVirtuals MLItem Cache QVariant}.

Lemma getQueryParams_fields op offset limit :
  let q := getQueryParams op offset limit in
  (psz_pattern q = None ↔ QByteArray_isNull (m_searchPattern op) = true) ∧
  (i_nbResults q = to_unsigned limit ∧ i_offset q = to_unsigned offset) ∧
  (0 ≤ limit ≤ UINT_MAX → i_nbResults q = limit) ∧
  (0 ≤ offset ≤ UINT_MAX → i_offset q = offset) ∧
  i_sort q = Loader.m_sort op ∧ b_desc q = m_sortDesc op.
Proof.
  simpl. split; [|split; [done|split; [|split; [|done]]]].
  - split; [by destruct (QByteArray_isNull _)|by intros ->].
  - apply to_unsigned_id.
  - apply to_unsigned_id.
Qed.

Lemma QString_equal_null s :
  QString_equal QString_null s = true ↔ s = QString_null ∨ s = QString_of EmptyString.
Proof.
  unfold QString_equal. rewrite bool_decide_eq_true.
  destruct s as [|[|a c]]; simpl; split; intros H; try (by auto); try done;
    destruct H; congruence.
Qed.

(** C8 (as amended): given a zero-length pattern, [setSearchPattern]
    stores the null string; [getQueryParams] gives a null [psz_pattern]
    exactly when the pattern of the operation is null, copies the sort
    criteria and the descending flag, and stores the limit and the offset
    in 32-bit fields: reduced modulo 2^32, hence unchanged when they fit 32
    bits. *)
Theorem search_pattern_reaches_engine (w : World Cache MediaLib) :
  (∀ pattern, QString_length pattern = 0 →
     let w1 := (setSearchPattern pattern w).1.2 in
     (w1 ≠ w → m_search_pattern (model w1) = QString_null) ∧
     (pattern_normal (model w) →
        m_search_pattern (model w1) = QString_null ∧
        ∀ parent sort desc offset limit,
          psz_pattern (getQueryParams
            (MLOp_new parent (m_search_pattern (model w1)) sort desc) offset limit)
          = None)) ∧
  (∀ pattern, pattern_normal (model w) →
     pattern_normal (model (setSearchPattern pattern w).1.2)) ∧
  (∀ op offset limit,
     let q := getQueryParams op offset limit in
     (psz_pattern q = None ↔ QByteArray_isNull (m_searchPattern op) = true) ∧
     (i_nbResults q = to_unsigned limit ∧ i_offset q = to_unsigned offset) ∧
     (0 ≤ limit ≤ UINT_MAX → i_nbResults q = limit) ∧
     (0 ≤ offset ≤ UINT_MAX → i_offset q = offset) ∧
     i_sort q = Loader.m_sort op ∧ b_desc q = m_sortDesc op) ∧
  (∀ parent pattern sort desc offset limit,
     let q := getQueryParams (MLOp_new parent pattern sort desc) offset limit in
     (psz_pattern q = None ↔ pattern = QString_null) ∧
     (i_nbResults q = to_unsigned limit ∧ i_offset q = to_unsigned offset) ∧
     (0 ≤ limit ≤ UINT_MAX → i_nbResults q = limit) ∧
     (0 ≤ offset ≤ UINT_MAX → i_offset q = offset) ∧
     i_sort q = sort ∧ b_desc q = desc).
Proof.
  split; [|split; [|split]].
  - intros pattern Hlen. rewrite setSearchPattern_run. simpl.
    rewrite Hlen. simpl.
    destruct (QString_equal QString_null (m_search_pattern (model w))) eqn:Heq; simpl.
    + split; [done|]. intros Hn.
      apply QString_equal_null in Heq as [Heq|Heq]; [|by destruct Hn].
      rewrite Heq. done.
    + rewrite (proj1 (proj2 (proj2 (reset_model_fields _)))). simpl. done.
  - intros pattern Hn. rewrite setSearchPattern_run. simpl.
    destruct (QString_equal _ (m_search_pattern (model w))) eqn:Heq; simpl; [done|].
    unfold pattern_normal. simpl.
    rewrite (proj1 (proj2 (proj2 (reset_model_fields _)))). simpl.
    destruct (Z.eqb_spec (QString_length pattern) 0) as [H0|H0]; [done|].
    intros ->. by apply H0.
  - intros op offset limit. apply getQueryParams_fields.
  - intros parent pattern sort desc offset limit.
    destruct (getQueryParams_fields (MLOp_new parent pattern sort desc) offset limit)
      as (_ & Hfields & Hlimit & Hoffset & Hsort & Hdesc).
    split; [|done]. simpl. split; [by destruct pattern|by intros ->].
Qed.

End PatternFacts.

Section PatternWitnesses.
Import CInt Qt ML Loader Model ModelSpec Examples MoreExamples.

(** A model that searches for "abc" is given the empty pattern. *)
Lemma search_pattern_reaches_engine_witness :
  let w := searching_world in
  let w1 := (setSearchPattern (CO := simple_cache_ops) (MV := simple_virtuals)
               (QString_of EmptyString) w).1.2 in
  QString_length (QString_of EmptyString) = 0 ∧
  m_search_pattern (model w) = QString_of "abc" ∧
  pattern_normal (model w) ∧
  w1 ≠ w ∧
  m_search_pattern (model w1) = QString_null ∧
  psz_pattern (getQueryParams
    (MLOp_new (mkMLItemId 0 0) (m_search_pattern (model w1)) 0 false) 0 10) = None ∧
  i_nbResults (getQueryParams
    (MLOp_new (mkMLItemId 0 0) (m_search_pattern (model w1)) 0 false) 0 10) = 10.
Proof.
  intros w w1.
  assert (pattern_normal (model w)) as Hn by done.
  assert (w1 ≠ w) as Hne by (intros H; by apply (f_equal (λ w, m_search_pattern (model w))) in H).
  destruct (search_pattern_reaches_engine (CO := simple_cache_ops)
              (MV := simple_virtuals) w)
    as (Hset & _ & Hfields & _).
  destruct (Hset (QString_of EmptyString) eq_refl) as (Hchanged & Hstored).
  destruct (Hstored Hn) as (_ & Hquery).
  destruct (Hfields (MLOp_new (mkMLItemId 0 0) (m_search_pattern (model w1)) 0 false)
              0 10) as (_ & _ & Hlimit & _).
  split; [reflexivity|]. split; [reflexivity|]. split; [exact Hn|].
  split; [exact Hne|]. split; [exact (Hchanged Hne)|].
  split; [apply Hquery|]. apply Hlimit. unfold UINT_MAX. lia.
Defined.

(** C8 as stated fails for a limit or an offset that does not fit 32 bits:
    the fields hold the value modulo 2^32. *)
Lemma getQueryParams_32_bits :
  let q := getQueryParams some_op (2 ^ 32 + 5) (2 ^ 32 + 7) in
  i_nbResults q = 7 ∧ i_nbResults q ≠ 2 ^ 32 + 7 ∧
  i_offset q = 5 ∧ i_offset q ≠ 2 ^ 32 + 5.
Proof. intros q. vm_compute. repeat split; discriminate. Qed.

End PatternWitnesses.

(** ** Tasks and callbacks *)

Section TaskFacts.
Import CInt Qt ML Loader LoaderSpec.
Context {MediaLibrary MLItem : Type} {V : MLOpVirtuals MediaLibrary MLItem}.

(** C7: the callback of [loadItemByIdTask] is called exactly when the
    lookup gave an item, and never for a failed lookup; the callback of
    [loadItemsTask] is called in any case and a row whose item failed to
    load has a null slot. *)
Theorem loadItemById_callback (op : MLOp) (ml : MediaLibrary) (taskId : Z)
    (itemId : MLItemId) :
  (∀ item, loadItemById op ml itemId = Some item ↔
           loadItemByIdTask op ml taskId itemId = [ItemCb taskId item]) ∧
  (loadItemById op ml itemId = None ↔ loadItemByIdTask op ml taskId itemId = []) ∧
  (∀ (row_item : Z → option MLItem) d_off d_lim indexes,
     loads_rows op ml (getQueryParams op d_off d_lim) row_item →
     Forall is_row indexes →
     ∃ queries items,
       loadItemsTask d_off d_lim op ml taskId indexes =
         Some (queries, [ItemsCb taskId items]) ∧
       length items = length indexes ∧
       ∀ (i : nat) x, indexes !! i = Some x → row_item x = None → items !! i = Some None).
Proof.
  unfold loadItemByIdTask, loadItemByIdTask_ml, loadItemByIdTask_ui.
  split; [|split].
  - intros item. destruct (loadItemById op ml itemId) as [it|]; split; intros H;
      by simplify_eq.
  - by destruct (loadItemById op ml itemId).
  - intros row_item d_off d_lim indexes Hload Hrows.
    destruct (loadItemsTask_ml_slots row_item d_off d_lim op ml indexes Hload Hrows)
      as (ranges & _ & Hml).
    eexists _, _. unfold loadItemsTask. rewrite Hml. simpl.
    split; [reflexivity|]. split; [by rewrite length_imap|].
    intros i x Hi Hnone. rewrite list_lookup_imap, Hi. simpl.
    unfold first_occurrence. rewrite Hnone. by case_bool_decide.
Qed.

End TaskFacts.

Section TaskWitnesses.
Import CInt Qt ML Loader LoaderSpec Examples.

(** A library whose row 3 fails to load. *)
Lemma loadItemById_callback_witness :
  let row_item := λ x : Z, if bool_decide (x = 3) then None else Some x in
  let lib : MLOpVirtuals unit Z :=
    {| load := λ _ _ q, row_item <$> seqZ (i_offset q) (i_nbResults q);
       count := λ _ _ _, 10;
       loadItemById := λ _ _ i, row_item (id i) |} in
  loadItemByIdTask (V := lib) some_op tt 7 (mkMLItemId 3 0) = [] ∧
  loadItemByIdTask (V := lib) some_op tt 7 (mkMLItemId 4 0) = [ItemCb 7 4] ∧
  ∃ queries items,
    loadItemsTask (V := lib) 0 0 some_op tt 7 [4; 3] =
      Some (queries, [ItemsCb 7 items]) ∧
    length items = 2%nat ∧ items !! 1%nat = Some None.
Proof.
  intros row_item lib.
  destruct (loadItemById_callback (V := lib) some_op tt 7 (mkMLItemId 3 0))
    as (_ & Hnone & Hitems).
  destruct (loadItemById_callback (V := lib) some_op tt 7 (mkMLItemId 4 0))
    as (Hsome & _ & _).
  split; [by apply Hnone|]. split; [by apply Hsome|].
  destruct (Hitems row_item 0 0 [4; 3]) as (queries & items & Hrun & Hlen & Hslot).
  { intros offset nb Ho Hn Hmax. simpl.
    rewrite !to_unsigned_id by (unfold INT_MAX, UINT_MAX in *; lia). reflexivity. }
  { repeat constructor; unfold INT_MAX; lia. }
  exists queries, items. split; [exact Hrun|]. split; [exact Hlen|].
  by apply (Hslot 1%nat 3).
Defined.

End TaskWitnesses.

Section GetDataFacts.
Import CInt Qt ML Loader Model ModelSpec.
Context {MLItem Cache MediaLib QVariant : Type}.
Context {CO : ListCacheOps MLItem Cache} {MO : MediaLibOps MediaLib}.
Context {MV : ModelVirtuals MLItem Cache QVariant}.

Lemma GetDataCallback_call_spec (w : World Cache MediaLib) indxSize callback requestId
    taskId id (items : list (option MLItem)) :
  cells w !! requestId = Some taskId →
  (id ≠ taskId →
     GetDataCallback_call w indxSize callback requestId id items = Dropped) ∧
  (jsEngine w = false →
     GetDataCallback_call w indxSize callback requestId id items = Dropped) ∧
  (∀ jsArray,
     GetDataCallback_call w indxSize callback requestId id items
       = JSCall callback jsArray →
     id = taskId ∧ jsEngine w = true) ∧
  (id = taskId → jsEngine w = true →
     wrap_int (Z.of_nat (length items)) = indxSize →
     GetDataCallback_call w indxSize callback requestId id items
       = JSCall callback (dataDict <$> items)).
Proof.
  intros Hcell. unfold GetDataCallback_call. rewrite Hcell.
  destruct (jsEngine w); simpl.
  - case_bool_decide as Hid; simpl.
    + assert (id = taskId) as -> by congruence.
      split; [done|]. split; [done|]. split; [done|].
      intros _ _ ->. by rewrite bool_decide_eq_true_2.
    + assert (id ≠ taskId) by congruence. done.
  - done.
Qed.

(** C3: [getData] with a callable value issues one load request, and the
    callback it registers calls the JavaScript function only for the task id
    of that request and with a JavaScript engine; a delivery with another
    task id is dropped.  With a value that is not callable nothing is
    requested. *)
Theorem getData_request_id (w : World Cache MediaLib) (indexes : list QModelIndex)
    (callback : QJSValue) :
  (isCallable callback = false → getData indexes callback w = (tt, w, [])) ∧
  (isCallable callback = true →
     ∃ taskId requestId loader w1,
       let indx := row <$> indexes in
       let indxSize := Z.of_nat (length indx) in
       let cb := GetDataCallback indxSize callback requestId in
       getData indexes callback w = (tt, w1, []) ∧
       issued w1 = issued w ++ [(taskId, LoadItemsTask loader indx cb)] ∧
       cells w !! requestId = None ∧
       cells w1 !! requestId = Some taskId ∧
       jsEngine w1 = jsEngine w ∧
       ∀ (w2 : World Cache MediaLib) id (items : list (option MLItem)),
         cells w2 !! requestId = Some taskId →
         (id ≠ taskId →
            GetDataCallback_call w2 indxSize callback requestId id items = Dropped) ∧
         (jsEngine w2 = false →
            GetDataCallback_call w2 indxSize callback requestId id items = Dropped) ∧
         (∀ jsArray,
            GetDataCallback_call w2 indxSize callback requestId id items
              = JSCall callback jsArray →
            id = taskId ∧ jsEngine w2 = true) ∧
         (id = taskId → jsEngine w2 = true →
            wrap_int (Z.of_nat (length items)) = indxSize →
            GetDataCallback_call w2 indxSize callback requestId id items
              = JSCall callback (dataDict <$> items))).
Proof.
  split; intros Hcallable; unfold getData; rewrite Hcallable; simpl; [done|].
  set (l := fresh (dom (cells w))).
  assert (cells w !! l = None) as Hfresh.
  { apply not_elem_of_dom. apply is_fresh. }
  unfold loadItems, itemLoader, run_task, make_shared, store.
  unfold emit, connected, emit_loadingChanged, signal, mbind, Op_bind, bind, update_model, get_model, ret. simpl.
  fold l.
  destruct (m_itemLoader (model w)) as [loader|] eqn:Hloader; simpl.
  - destruct (runOnMLThread (medialib w) _) as [taskId ml] eqn:Hrun; simpl.
    exists taskId, l, loader. eexists. split; [reflexivity|]. simpl.
    split; [done|]. split; [done|]. split; [by rewrite lookup_insert_eq|].
    split; [done|].
    intros w2 id items Hcell. by apply GetDataCallback_call_spec.
  - destruct (runOnMLThread (medialib w) _) as [taskId ml] eqn:Hrun; simpl.
    exists taskId, l. eexists. eexists. split; [reflexivity|]. simpl.
    split; [done|]. split; [done|]. split; [by rewrite lookup_insert_eq|].
    split; [done|].
    intros w2 id items Hcell. by apply GetDataCallback_call_spec.
Qed.

End GetDataFacts.

Section GetDataWitnesses.
Import CInt Qt ML Loader Model ModelSpec Examples.

Lemma getData_request_id_witness :
  let w := world_with (Some loaded_cache) in
  let callback := mkQJSValue 1 true in
  isCallable callback = true ∧
  ∃ taskId requestId loader w1,
    getData (MO := counting_medialib) (MV := simple_virtuals)
      [mkQModelIndex 1 0 true] callback w = (tt, w1, []) ∧
    issued w1 =
      [(taskId, LoadItemsTask loader [1] (GetDataCallback 1 callback requestId))] ∧
    GetDataCallback_call (MV := simple_virtuals) w1 1 callback requestId
      (taskId + 1) [Some 11] = Dropped ∧
    GetDataCallback_call (MV := simple_virtuals) w1 1 callback requestId
      taskId [Some 11] = JSCall callback (dataDict (MV := simple_virtuals) <$> [Some 11]).
Proof.
  intros w callback. split; [reflexivity|].
  destruct (getData_request_id (MO := counting_medialib)
              (MV := simple_virtuals) w [mkQModelIndex 1 0 true] callback)
    as (_ & Hcall).
  destruct (Hcall eq_refl) as (taskId & requestId & loader & w1 & Hrun & Hissued & _
                               & Hcell & Hjs & Hdeliver).
  exists taskId, requestId, loader, w1.
  split; [exact Hrun|]. split; [exact Hissued|].
  destruct (Hdeliver w1 (taskId + 1) [Some 11] Hcell) as (Hother & _).
  destruct (Hdeliver w1 taskId [Some 11] Hcell) as (_ & _ & _ & Hsame).
  split; [apply Hother; lia|]. apply Hsame; [reflexivity|by rewrite Hjs|reflexivity].
Defined.

End GetDataWitnesses.

Section CacheMutationFacts.
Import CInt Qt ML Loader Model ModelSpec.
Context {MLItem Cache MediaLib QVariant : Type}.
Context {CO : ListCacheOps MLItem Cache} {MO : MediaLibOps MediaLib}.
Context {MV : ModelVirtuals MLItem Cache QVariant}.

Ltac run_member :=
  unfold emit, connected, emit_loadingChanged, signal, mbind, Op_bind, bind, update_model, get_model, ret; simpl.

Lemma emit_resetRequested_without_cache (w : World Cache MediaLib) :
  m_cache (model w) = None →
  emit resetRequested w =
    if cachable (model w)
    then (tt, with_model (set_cache (Some (fresh_cache (model w)))) w,
          [resetRequested; loadingChanged])
    else (tt, w, [resetRequested]).
Proof.
  intros Hnone. unfold emit, connected, onResetRequested, invalidateCache, validateCache.
  run_member. rewrite Hnone. simpl. rewrite Hnone.
  by destruct (cachable (model w)).
Qed.

(** C6 (as amended): without a cache each of the four operations emits
    [resetRequested] and does nothing else itself; the slot
    [onResetRequested] runs within the emission, so that a model that can
    have a cache ends with a new one and [loadingChanged] emitted, and a
    model that cannot is left as it was.  With a cache no reset is
    requested; [deleteItemInCache], [moveRangeInCache] and
    [deleteRangeInCache] hand the operation to the cache;
    [updateItemInCache] does nothing when the item is not found in the
    cache, and otherwise issues a load of the item whose callback hands the
    loaded item to [updateItem]. *)
Theorem cache_mutations (w : World Cache MediaLib) :
  (m_cache (model w) = None →
     let after :=
       if cachable (model w)
       then (tt, with_model (set_cache (Some (fresh_cache (model w)))) w,
             [resetRequested; loadingChanged])
       else (tt, w, [resetRequested]) in
     (∀ mlid, updateItemInCache mlid w = after) ∧
     (∀ mlid, deleteItemInCache mlid w = after) ∧
     (∀ first last to, moveRangeInCache first last to w = after) ∧
     (∀ first last, deleteRangeInCache first last w = after)) ∧
  (∀ cache, m_cache (model w) = Some cache →
     (∀ mlid,
        deleteItemInCache mlid w =
          (tt,
           with_model (set_cache (Some
             (deleteItem cache (λ item, bool_decide (getId item = mlid))))) w,
           [])) ∧
     (∀ first last to,
        moveRangeInCache first last to w =
          (tt, with_model (set_cache (Some (moveRange cache first last to))) w, [])) ∧
     (∀ first last,
        deleteRangeInCache first last w =
          (tt, with_model (set_cache (Some (deleteRange cache first last))) w, [])) ∧
     (∀ mlid, findInCache cache mlid = None →
        updateItemInCache mlid w = (tt, w, [])) ∧
     (∀ mlid found, findInCache cache mlid = Some found →
        ∃ taskId loader w1,
          updateItemInCache mlid w = (tt, w1, []) ∧
          m_cache (model w1) = Some cache ∧
          issued w1 =
            issued w ++ [(taskId, LoadItemByIdTask loader mlid UpdateItemCallback)] ∧
          ∀ loaded,
            UpdateItemCallback_call w1 loaded =
              Some (with_model (set_cache (Some (updateItem cache loaded))) w1))).
Proof.
  split.
  - intros Hnone after.
    pose proof (emit_resetRequested_without_cache w Hnone) as Hemit. fold after in Hemit.
    unfold updateItemInCache, deleteItemInCache, moveRangeInCache, deleteRangeInCache.
    unfold mbind, Op_bind, bind, get_model. rewrite Hnone, Hemit.
    by destruct after as [[[] w1] signals].
  - intros cache Hcache.
    unfold updateItemInCache, deleteItemInCache, moveRangeInCache, deleteRangeInCache.
    run_member. rewrite Hcache.
    split; [done|]. split; [done|]. split; [done|]. split.
    + intros mlid ->. done.
    + intros mlid found ->.
      unfold itemLoader, run_task. run_member.
      destruct (m_itemLoader (model w)) as [loader|] eqn:Hloader; simpl.
      * destruct (runOnMLThread (medialib w) _) as [taskId ml] eqn:Hrun; simpl.
        exists taskId, loader. eexists. split; [reflexivity|]. simpl.
        split; [done|]. split; [done|].
        intros loaded. unfold UpdateItemCallback_call. simpl. by rewrite Hcache.
      * destruct (runOnMLThread (medialib w) _) as [taskId ml] eqn:Hrun; simpl.
        exists taskId. eexists. eexists. split; [reflexivity|]. simpl.
        split; [done|]. split; [done|].
        intros loaded. unfold UpdateItemCallback_call. simpl. by rewrite Hcache.
Qed.

(** The slot of [resetRequested] leaves a model alone that has no cache and
    cannot have one. *)
Lemma connected_resetRequested_not_cachable (w : World Cache MediaLib) :
  m_cache (model w) = None → cachable (model w) = false →
  connected resetRequested w = (tt, w, []).
Proof.
  intros Hnone Hnot. unfold connected, onResetRequested, invalidateCache, validateCache.
  run_member. rewrite Hnone. simpl. rewrite Hnone. by rewrite Hnot.
Qed.

End CacheMutationFacts.

Section CacheMutationWitnesses.
Import CInt Qt ML Loader Model ModelSpec Examples.

Lemma cache_mutations_witness :
  let w := world_with (Some loaded_cache) in
  let w0 := world_with None in
  m_cache (model w) = Some loaded_cache ∧
  m_cache (model w0) = None ∧
  moveRangeInCache (CO := simple_cache_ops) (MV := simple_virtuals) 0 1 2 w0
    = (tt, with_model (set_cache (Some unloaded_cache)) w0,
       [resetRequested; loadingChanged]) ∧
  deleteRangeInCache (CO := simple_cache_ops) (MV := simple_virtuals) 0 1 w
    = (tt, with_model (set_cache (Some
             (deleteRange (ListCacheOps := simple_cache_ops) loaded_cache 0 1))) w, []) ∧
  findInCache (CO := simple_cache_ops) (MV := simple_virtuals)
    loaded_cache (mkMLItemId 11 0) = Some 11 ∧
  ∃ taskId loader w1,
    updateItemInCache (CO := simple_cache_ops) (MO := counting_medialib)
      (MV := simple_virtuals) (mkMLItemId 11 0) w = (tt, w1, []) ∧
    issued w1 = [(taskId, LoadItemByIdTask loader (mkMLItemId 11 0) UpdateItemCallback)] ∧
    UpdateItemCallback_call (CO := simple_cache_ops) w1 11 =
      Some (with_model (set_cache (Some
              (updateItem (ListCacheOps := simple_cache_ops) loaded_cache 11))) w1).
Proof.
  intros w w0.
  destruct (cache_mutations (CO := simple_cache_ops) (MO := counting_medialib)
              (MV := simple_virtuals) w0) as (Hnone & _).
  destruct (Hnone eq_refl) as (_ & _ & Hmove & _).
  destruct (cache_mutations (CO := simple_cache_ops) (MO := counting_medialib)
              (MV := simple_virtuals) w) as (_ & Hsome).
  destruct (Hsome loaded_cache eq_refl) as (_ & _ & Hdelete & _ & Hupdate).
  destruct (Hupdate (mkMLItemId 11 0) 11 eq_refl)
    as (taskId & loader & w1 & Hrun & _ & Hissued & Hcb).
  split; [reflexivity|]. split; [reflexivity|].
  split; [apply Hmove|]. split; [apply Hdelete|]. split; [reflexivity|].
  exists taskId, loader, w1. split; [exact Hrun|]. split; [exact Hissued|]. apply Hcb.
Defined.

(** C6 as stated fails twice.  Without a cache, a model that can have one
    does not stay as it was: the slot of [resetRequested] gives it a new
    cache and emits [loadingChanged].  And with a cache that does not hold
    the item, [updateItemInCache] hands nothing to the cache and issues no
    load. *)
Lemma cache_mutations_slot_and_miss :
  let w0 := world_with None in
  let w := world_with (Some loaded_cache) in
  (m_cache (model w0) = None ∧
   deleteItemInCache (CO := simple_cache_ops) (MV := simple_virtuals)
     (mkMLItemId 11 0) w0 ≠ (tt, w0, [resetRequested]) ∧
   deleteItemInCache (CO := simple_cache_ops) (MV := simple_virtuals)
     (mkMLItemId 11 0) w0 =
     (tt, with_model (set_cache (Some unloaded_cache)) w0,
      [resetRequested; loadingChanged])) ∧
  (m_cache (model w) = Some loaded_cache ∧
   updateItemInCache (CO := simple_cache_ops) (MO := counting_medialib)
     (MV := simple_virtuals) (mkMLItemId 99 0) w = (tt, w, []) ∧
   issued w = [] ∧
   ∀ item, m_cache (model w) ≠
             Some (updateItem (ListCacheOps := simple_cache_ops) loaded_cache item)).
Proof.
  intros w0 w. split.
  - split; [reflexivity|]. split; [vm_compute; discriminate|]. vm_compute. reflexivity.
  - split; [reflexivity|]. split; [vm_compute; reflexivity|].
    split; [reflexivity|]. intros item H. vm_compute in H. congruence.
Qed.

End CacheMutationWitnesses.

(** ** Windows video output *)

Section UpdateRectsFacts.
Import CInt Win32 Win32Spec.
Context {EventThread : Type}.
Context {WA : Win32Answers} {VO : VoutOps EventThread}.

(** When the size of the window cannot be read, nothing happens. *)
Lemma UpdateRects_no_rect b vd is_forced (w : World EventThread) :
  moved_or_resized b vd w = None → UpdateRects b vd is_forced w = Some w.
Proof.
  unfold moved_or_resized, UpdateRects.
  by destruct (window_size vd w) as [[|] rect].
Qed.

Lemma observe_geometry_frame b rect (w : World EventThread) :
  let w1 := (observe_geometry b rect w).2 in
  os w1 = os w ∧
  rect_dest (sys w1) = rect_dest (sys w) ∧
  rect_dest_changed (sys w1) = rect_dest_changed (sys w) ∧
  is_first_placement (sys w1) = is_first_placement (sys w).
Proof.
  unfold observe_geometry.
  destruct (VLC_WINSTORE_APP b); [done|].
  destruct (b_windowless (sys w)); [done|].
  by destruct (EventThreadUpdateWindowPosition _ _).
Qed.

(** In a build that is not a Windows Store app, a windowless display never
    sees its window move. *)
Lemma UpdateRects_windowless_desktop b vd (w : World EventThread) :
  VLC_WINSTORE_APP b = false → b_windowless (sys w) = true →
  moved_or_resized b vd w = Some false ∧ UpdateRects b vd false w = Some w.
Proof.
  intros Hws Hwl. unfold moved_or_resized, UpdateRects, window_size, observe_geometry.
  rewrite Hwl, Hws. done.
Qed.

(** C4 (as amended): a call that is not forced and finds the window
    neither moved nor resized returns early, without any call to the system
    and with [rect_dest], [rect_dest_changed] and [is_first_placement] as
    they were; in a build that is not a Windows Store app, every call in
    windowless mode that is not forced returns early this way. *)
Theorem UpdateRects_not_forced (b : build) (vd : vout_display_t)
    (w : World EventThread) :
  (moved_or_resized b vd w = Some false →
     ∃ w', UpdateRects b vd false w = Some w' ∧
           os w' = os w ∧
           rect_dest (sys w') = rect_dest (sys w) ∧
           rect_dest_changed (sys w') = rect_dest_changed (sys w) ∧
           is_first_placement (sys w') = is_first_placement (sys w)) ∧
  (VLC_WINSTORE_APP b = false → b_windowless (sys w) = true →
     moved_or_resized b vd w = Some false ∧ UpdateRects b vd false w = Some w).
Proof.
  split.
  - unfold moved_or_resized, UpdateRects.
    destruct (window_size vd w) as [[|] rect]; simpl; [|done].
    pose proof (observe_geometry_frame b rect w) as Hframe.
    destruct (observe_geometry b rect w) as [[[moved rect'] point] w1]. simpl in *.
    intros [= ->]. simpl. by exists w1.
  - apply UpdateRects_windowless_desktop.
Qed.

End UpdateRectsFacts.

Section UpdateRectsWitnesses.
Import CInt Win32 Win32Spec Examples.

Lemma UpdateRects_not_forced_witness :
  let b := desktop_build direct3d11 in
  let w := vout_world true false in
  let w_seen : World RECT :=
    {| sys := sys_after_init false false;
       event_thread := mkRECT 10 20 810 620;
       os := [] |} in
  VLC_WINSTORE_APP b = false ∧ b_windowless (sys w) = true ∧
  moved_or_resized (WA := fixed_answers) (VO := simple_vout) b some_video w
    = Some false ∧
  UpdateRects (WA := fixed_answers) (VO := simple_vout) b some_video false w
    = Some w ∧
  moved_or_resized (WA := fixed_answers) (VO := simple_vout) b some_video w_seen
    = Some false ∧
  ∃ w', UpdateRects (WA := fixed_answers) (VO := simple_vout) b some_video false w_seen
          = Some w' ∧
        os w' = [] ∧
        rect_dest (sys w') = mkRECT 0 0 0 0 ∧
        rect_dest_changed (sys w') = false ∧
        is_first_placement (sys w') = true.
Proof.
  intros b w w_seen.
  destruct (UpdateRects_not_forced (WA := fixed_answers) (VO := simple_vout)
              b some_video w) as (_ & Hwindowless).
  destruct (UpdateRects_not_forced (WA := fixed_answers) (VO := simple_vout)
              b some_video w_seen) as (Hseen & _).
  assert (moved_or_resized (WA := fixed_answers) (VO := simple_vout) b some_video w_seen
          = Some false) as Hsame by reflexivity.
  split; [reflexivity|]. split; [reflexivity|].
  split; [exact (proj1 (Hwindowless eq_refl eq_refl))|].
  split; [exact (proj2 (Hwindowless eq_refl eq_refl))|].
  split; [exact Hsame|]. exact (Hseen Hsame).
Defined.

(** C4 as stated fails in a Windows Store build: there a windowless call
    compares the visible size of the source with [rect_display], and goes on
    to place the picture when they differ, forced or not. *)
Lemma UpdateRects_winstore_windowless :
  let w := vout_world true false in
  b_windowless (sys w) = true ∧
  ∃ w', UpdateRects (WA := fixed_answers) (VO := simple_vout)
          winstore_build some_video false w = Some w' ∧
        rect_dest (sys w') = mkRECT 0 0 640 480 ∧
        rect_dest (sys w') ≠ rect_dest (sys w) ∧
        rect_dest_changed (sys w) = false ∧
        rect_dest_changed (sys w') = true.
Proof.
  intros w. split; [reflexivity|].
  eexists. split; [vm_compute; reflexivity|].
  split; [reflexivity|]. split; [discriminate|]. split; reflexivity.
Qed.

End UpdateRectsWitnesses.

Section FullscreenFacts.
Import CInt Win32 Win32Spec.
Context {EventThread : Type}.
Context {WA : Win32Answers} {VO : VoutOps EventThread}.

Lemma os_call_app (c : os_call) (w : World EventThread) :
  os (call c w) = os w ++ [c].
Proof. done. Qed.

Lemma CommonControlSetFullscreen_refused b fullscreen (w : World EventThread) :
  switch_refused b fullscreen (sys w) →
  CommonControlSetFullscreen b fullscreen w = (VLC_EGENERIC, w).
Proof.
  unfold switch_refused, CommonControlSetFullscreen.
  intros [(Hm & Hd & Hf)|Hp].
  - by rewrite Hm, Hd, Hf.
  - destruct (_ && _ && _); [done|].
    by rewrite (bool_decide_eq_false_2 (parent_window (sys w) = NULL)).
Qed.

(** The switch itself, when it is not refused. *)
Lemma CommonControlSetFullscreen_accepted b fullscreen (w : World EventThread) :
  ¬ switch_refused b fullscreen (sys w) →
  ∃ w1,
    CommonControlSetFullscreen b fullscreen w = (VLC_SUCCESS, w1) ∧
    sys w1 = sys w ∧ event_thread w1 = event_thread w ∧
    (b_windowless (sys w) = true → w1 = w) ∧
    (b_windowless (sys w) = false →
       let h := fullscreen_window (sys w) in
       ∃ calls,
         os w1 =
           os w ++
           SetWindowLong h GWL_STYLE
             (if fullscreen then Z.lor WS_CLIPCHILDREN WS_VISIBLE
              else EventThreadGetWindowStyle (event_thread w)) :: calls ∧
         (hparent (sys w) = NULL → fullscreen = true →
            calls = [ShowWindow h SW_SHOWMAXIMIZED; SetForegroundWindow h]) ∧
         (hparent (sys w) = NULL → fullscreen = false →
            calls = [SetWindowPlacement h (GetWindowPlacement (os w) h);
                     ShowWindow h SW_SHOWNORMAL]) ∧
         (hparent (sys w) ≠ NULL → fullscreen = true →
            SetParent (hwnd (sys w)) h ∈ calls) ∧
         (hparent (sys w) ≠ NULL → fullscreen = false →
            SetParent (hwnd (sys w)) (hparent (sys w)) ∈ calls)).
Proof.
  intros Hnot. unfold CommonControlSetFullscreen.
  assert (bool_decide (MODULE_NAME b = direct3d9) && use_desktop (sys w) && fullscreen
          = false) as ->.
  { apply not_true_is_false. intros H.
    apply andb_true_iff in H as [H Hf]. apply andb_true_iff in H as [Hm Hd].
    apply bool_decide_eq_true in Hm. apply Hnot. left. done. }
  assert (parent_window (sys w) = NULL) as Hp.
  { destruct (decide (parent_window (sys w) = NULL)); [done|].
    exfalso. apply Hnot. by right. }
  rewrite (bool_decide_eq_true_2 _ Hp). simpl.
  destruct (b_windowless (sys w)) eqn:Hwl.
  { exists w. repeat split; done. }
  fold (fullscreen_window (sys w)).
  set (h := fullscreen_window (sys w)).
  destruct (decide (hparent (sys w) = NULL)) as [Hpar|Hpar].
  - rewrite (bool_decide_eq_true_2 _ Hpar). simpl.
    destruct fullscreen; simpl.
    + eexists. split; [reflexivity|]. split; [done|]. split; [done|].
      split; [done|]. intros _. eexists. simpl. rewrite <- !app_assoc. simpl.
      split; [reflexivity|]. repeat split; done.
    + eexists. split; [reflexivity|]. split; [done|]. split; [done|].
      split; [done|]. intros _. eexists. simpl. rewrite <- !app_assoc. simpl.
      split; [reflexivity|]. repeat split; done.
  - rewrite (bool_decide_eq_false_2 _ Hpar). simpl.
    destruct fullscreen; simpl.
    + destruct (GetMonitorInfo _ _) as [mi|]; simpl.
      * eexists. split; [reflexivity|]. split; [done|]. split; [done|].
        split; [done|]. intros _. eexists. simpl. rewrite <- !app_assoc. simpl.
        split; [reflexivity|]. repeat split; try done. intros _ _. set_solver.
      * eexists. split; [reflexivity|]. split; [done|]. split; [done|].
        split; [done|]. intros _. eexists. simpl. rewrite <- !app_assoc. simpl.
        split; [reflexivity|]. repeat split; try done. intros _ _. set_solver.
    + eexists. split; [reflexivity|]. split; [done|]. split; [done|].
      split; [done|]. intros _. eexists. simpl. rewrite <- !app_assoc. simpl.
      split; [reflexivity|]. repeat split; try done. intros _ _. set_solver.
Qed.

End FullscreenFacts.

Section FullscreenTheorems.
Import CInt Win32 Win32Spec.
Context {EventThread : Type}.
Context {WA : Win32Answers} {VO : VoutOps EventThread}.

Lemma switch_refused_dec b fullscreen s :
  switch_refused b fullscreen s ∨ ¬ switch_refused b fullscreen s.
Proof.
  unfold switch_refused.
  destruct (decide (parent_window s = NULL)) as [Hp|Hp]; [|by left; right].
  destruct (decide (MODULE_NAME b = direct3d9)) as [Hm|Hm];
    [|right; intros [(? & _)|?]; done].
  destruct (use_desktop s); [|right; intros [(_ & ? & _)|?]; done].
  destruct fullscreen; [by left; left|right; intros [(_ & _ & ?)|?]; done].
Qed.

(** C5 (as amended), for a build that is not a Windows Store app: the
    fullscreen query returns [VLC_EGENERIC], with nothing changed, exactly
    when the switch fails; the switch fails when the display is embedded in
    a window of the host, or when Direct3D9 in desktop mode is asked to
    enter fullscreen; otherwise it succeeds, without touching any window
    when the display is windowless, and else by changing the style and the
    placement of the window; after a switch that succeeded the rects are
    updated (not forced) and [VLC_SUCCESS] is returned. *)
Theorem CommonControl_fullscreen (b : build) (vd : vout_display_t) (fs : Z)
    (w : World EventThread) :
  VLC_WINSTORE_APP b = false →
  let fullscreen := negb (bool_decide (fs = 0)) in
  let query := VOUT_DISPLAY_CHANGE_FULLSCREEN fs in
  (switch_refused b fullscreen (sys w) →
     CommonControlSetFullscreen b fullscreen w = (VLC_EGENERIC, w) ∧
     CommonControl b vd query w = Some (VLC_EGENERIC, w)) ∧
  (¬ switch_refused b fullscreen (sys w) →
     ∃ w1,
       CommonControlSetFullscreen b fullscreen w = (VLC_SUCCESS, w1) ∧
       CommonControl b vd query w =
         (λ w2, (VLC_SUCCESS, w2)) <$> UpdateRects b vd false w1 ∧
       sys w1 = sys w ∧
       (b_windowless (sys w) = true →
          w1 = w ∧ CommonControl b vd query w = Some (VLC_SUCCESS, w)) ∧
       (b_windowless (sys w) = false →
          let h := fullscreen_window (sys w) in
          ∃ calls,
            os w1 =
              os w ++
              SetWindowLong h GWL_STYLE
                (if fullscreen then Z.lor WS_CLIPCHILDREN WS_VISIBLE
                 else EventThreadGetWindowStyle (event_thread w)) :: calls ∧
            (hparent (sys w) = NULL → fullscreen = true →
               calls = [ShowWindow h SW_SHOWMAXIMIZED; SetForegroundWindow h]) ∧
            (hparent (sys w) = NULL → fullscreen = false →
               calls = [SetWindowPlacement h (GetWindowPlacement (os w) h);
                        ShowWindow h SW_SHOWNORMAL]) ∧
            (hparent (sys w) ≠ NULL → fullscreen = true →
               SetParent (hwnd (sys w)) h ∈ calls) ∧
            (hparent (sys w) ≠ NULL → fullscreen = false →
               SetParent (hwnd (sys w)) (hparent (sys w)) ∈ calls))) ∧
  ((∃ w', CommonControl b vd query w = Some (VLC_EGENERIC, w')) ↔
   (CommonControlSetFullscreen b fullscreen w).1 = VLC_EGENERIC) ∧
  ((CommonControlSetFullscreen b fullscreen w).1 = VLC_EGENERIC ↔
   switch_refused b fullscreen (sys w)).
Proof.
  intros Hws fullscreen query.
  assert (switch_refused b fullscreen (sys w) →
          CommonControlSetFullscreen b fullscreen w = (VLC_EGENERIC, w) ∧
          CommonControl b vd query w = Some (VLC_EGENERIC, w)) as Hrefused.
  { intros Hr. split; [by apply CommonControlSetFullscreen_refused|].
    unfold query, CommonControl. rewrite Hws. fold fullscreen.
    by rewrite CommonControlSetFullscreen_refused. }
  assert (∀ w1, CommonControlSetFullscreen b fullscreen w = (VLC_SUCCESS, w1) →
          CommonControl b vd query w =
            (λ w2, (VLC_SUCCESS, w2)) <$> UpdateRects b vd false w1) as Hupdate.
  { intros w1 Hw1. unfold query, CommonControl. rewrite Hws. fold fullscreen.
    rewrite Hw1. simpl. by destruct (UpdateRects b vd false w1). }
  split; [exact Hrefused|]. split; [|split].
  - intros Hnot.
    destruct (CommonControlSetFullscreen_accepted b fullscreen w Hnot)
      as (w1 & Hw1 & Hsys & _ & Hwl & Hcalls).
    exists w1. split; [done|]. split; [by apply Hupdate|]. split; [done|].
    split; [|done].
    intros Hwindowless. specialize (Hwl Hwindowless). subst w1. split; [done|].
    rewrite (Hupdate w Hw1).
    destruct (UpdateRects_windowless_desktop b vd w Hws Hwindowless) as (_ & ->).
    done.
  - destruct (switch_refused_dec b fullscreen (sys w)) as [Hr|Hnot].
    + destruct (Hrefused Hr) as (-> & ->). simpl. split; [done|]. by exists w.
    + destruct (CommonControlSetFullscreen_accepted b fullscreen w Hnot)
        as (w1 & Hw1 & _).
      rewrite (Hupdate w1 Hw1), Hw1. simpl. split; [|done].
      intros (w' & H). destruct (UpdateRects b vd false w1); simplify_eq.
  - destruct (switch_refused_dec b fullscreen (sys w)) as [Hr|Hnot].
    + destruct (Hrefused Hr) as (-> & _). done.
    + destruct (CommonControlSetFullscreen_accepted b fullscreen w Hnot)
        as (w1 & -> & _). simpl. split; [done|]. intros Hr. by destruct Hnot.
Qed.

End FullscreenTheorems.

Section FullscreenWitnesses.
Import CInt Win32 Win32Spec Examples.

Lemma CommonControl_fullscreen_witness :
  let b := desktop_build direct3d11 in
  let w := vout_world false false in
  VLC_WINSTORE_APP b = false ∧
  ¬ switch_refused b true (sys w) ∧
  ∃ w1,
    CommonControlSetFullscreen (WA := fixed_answers) (VO := simple_vout) b true w
      = (VLC_SUCCESS, w1) ∧
    CommonControl (WA := fixed_answers) (VO := simple_vout) b some_video
      (VOUT_DISPLAY_CHANGE_FULLSCREEN 1) w =
      (λ w2, (VLC_SUCCESS, w2)) <$>
        UpdateRects (WA := fixed_answers) (VO := simple_vout) b some_video false w1 ∧
    os w1 = [SetWindowLong 100 GWL_STYLE (Z.lor WS_CLIPCHILDREN WS_VISIBLE);
             ShowWindow 100 SW_SHOWMAXIMIZED; SetForegroundWindow 100].
Proof.
  intros b w.
  assert (¬ switch_refused b true (sys w)) as Hnot.
  { intros [(Hm & _)|Hp]; [discriminate Hm|]. by apply Hp. }
  split; [reflexivity|]. split; [exact Hnot|].
  destruct (CommonControl_fullscreen (WA := fixed_answers) (VO := simple_vout)
              b some_video 1 w eq_refl) as (_ & Haccepted & _).
  destruct (Haccepted Hnot) as (w1 & Hswitch & Hcontrol & _ & _ & Hcalls).
  destruct (Hcalls eq_refl) as (calls & Hos & Henter & _).
  exists w1. split; [exact Hswitch|]. split; [exact Hcontrol|].
  rewrite Hos, (Henter eq_refl eq_refl). reflexivity.
Defined.

(** C5 as stated fails in the Direct3D9 build: in desktop mode the switch
    to fullscreen fails although the display is neither embedded in a window
    of the host nor windowless, and no window is touched. *)
Lemma CommonControl_fullscreen_direct3d9_desktop :
  let b := desktop_build direct3d9 in
  let w := vout_world false true in
  parent_window (sys w) = NULL ∧
  b_windowless (sys w) = false ∧
  CommonControlSetFullscreen (WA := fixed_answers) (VO := simple_vout) b true w
    = (VLC_EGENERIC, w) ∧
  CommonControl (WA := fixed_answers) (VO := simple_vout) b some_video
    (VOUT_DISPLAY_CHANGE_FULLSCREEN 1) w = Some (VLC_EGENERIC, w) ∧
  CommonControl (WA := fixed_answers) (VO := simple_vout) b some_video
    (VOUT_DISPLAY_CHANGE_FULLSCREEN 1) w ≠
    (λ w2, (VLC_SUCCESS, w2)) <$>
      UpdateRects (WA := fixed_answers) (VO := simple_vout) b some_video false
        (CommonControlSetFullscreen (WA := fixed_answers) (VO := simple_vout)
           (desktop_build direct3d11) true w).2.
Proof.
  intros b w. split; [reflexivity|]. split; [reflexivity|].
  split; [reflexivity|]. split; [reflexivity|].
  vm_compute. discriminate.
Qed.

End FullscreenWitnesses.

(** * Further properties *)

(** ** The loads of [loadItemsTask] *)

Section LoadWindowFacts.
Import CInt ML Loader LoaderSpec LoaderTasks.
Context {MediaLibrary MLItem : Type} {V : MLOpVirtuals MediaLibrary MLItem}.

(** Whatever the loader returns, a run that ends issued the queries of the
    ranges, in order. *)
Lemma load_ranges_queries op ml q q' indexes rs (items : list (option MLItem))
    queries items' :
  (∀ a b, set_window q' a b = set_window q a b) →
  Forall valid_range rs →
  load_ranges op ml q' indexes rs items = Some (queries, items') →
  queries = range_query q <$> rs.
Proof.
  revert q' items queries items'.
  induction rs as [|r rs IH]; intros q' items queries items' Hq Hrs Hrun; simpl in *.
  - by simplify_eq.
  - apply Forall_cons in Hrs as [Hr Hrs].
    rewrite range_count_valid, Hq in Hrun by done.
    destruct (fill_from_range _ _ _ _ _) as [[d it]|]; simpl in Hrun; [|done].
    destruct (load_ranges _ _ _ _ _ _) as [[qs its]|] eqn:Hrest; simpl in Hrun; [|done].
    simplify_eq. f_equal.
    by eapply (IH (set_window q (low r) (high r - low r + 1))).
Qed.

Lemma extend_ranges_far cur l :
  low cur ≤ high cur → is_row (low cur) → is_row (high cur) → Forall is_row l →
  StronglySorted Z.le (high cur :: l) →
  StronglySorted (λ r r', high r + MAX_DIFFERENCE ≤ low r') (extend_ranges cur l) ∧
  Forall (λ r, low cur ≤ low r) (extend_ranges cur l).
Proof.
  revert cur. induction l as [|y l IH]; intros cur Hle Hlo Hhi Hl Hs; simpl.
  - split; repeat constructor. lia.
  - apply Forall_cons in Hl as [Hy Hl].
    apply StronglySorted_inv in Hs as [Hs' Hall].
    apply Forall_cons in Hall as [Hhy Hall].
    rewrite wrap_int_id by (unfold is_row, INT_MIN, INT_MAX in *; lia).
    destruct (Z.ltb_spec (y - high cur) MAX_DIFFERENCE) as [Hlt|Hge].
    + apply (IH (mkRange (low cur) y)); simpl; auto. lia.
    + destruct (IH (mkRange y y)) as (Hsorted & Hlows); simpl; auto; [lia|].
      simpl in Hlows. split.
      * constructor; [done|]. eapply Forall_impl; [exact Hlows|].
        simpl. intros r Hr. lia.
      * constructor; [lia|]. eapply Forall_impl; [exact Hlows|].
        simpl. intros r Hr. lia.
Qed.

Lemma extend_ranges_bounds cur l r :
  r ∈ extend_ranges cur l →
  (low r = low cur ∨ low r ∈ l) ∧ (high r = high cur ∨ high r ∈ l).
Proof.
  revert cur. induction l as [|y l IH]; intros cur Hr; simpl in *.
  - apply list_elem_of_singleton in Hr as ->. auto.
  - setoid_rewrite elem_of_cons.
    destruct (_ <? _).
    + destruct (IH _ Hr) as (Hlow & Hhigh). simpl in *. split; [tauto|].
      destruct Hhigh as [->|?]; auto.
    + apply elem_of_cons in Hr as [->|Hr]; [by auto|].
      destruct (IH _ Hr) as (Hlow & Hhigh). simpl in *.
      split; [destruct Hlow as [->|?]; auto|destruct Hhigh as [->|?]; auto].
Qed.

Lemma extend_ranges_volume cur l :
  low cur ≤ high cur → is_row (low cur) → is_row (high cur) → Forall is_row l →
  StronglySorted Z.le (high cur :: l) →
  foldr (λ r n, (high r - low r + 1) + n) 0 (extend_ranges cur l)
    + 2 * Z.of_nat (length (extend_ranges cur l))
  ≤ (high cur - low cur + 1) + 2 + 3 * Z.of_nat (length l).
Proof.
  revert cur. induction l as [|y l IH]; intros cur Hle Hlo Hhi Hl Hs; simpl.
  - lia.
  - apply Forall_cons in Hl as [Hy Hl].
    apply StronglySorted_inv in Hs as [Hs' Hall].
    apply Forall_cons in Hall as [Hhy Hall].
    rewrite wrap_int_id by (unfold is_row, INT_MIN, INT_MAX in *; lia).
    destruct (Z.ltb_spec (y - high cur) MAX_DIFFERENCE) as [Hlt|Hge].
    + specialize (IH (mkRange (low cur) y)). simpl in IH.
      unfold MAX_DIFFERENCE in *. etrans; [apply IH; auto; lia|]. lia.
    + specialize (IH (mkRange y y)). simpl in IH. simpl.
      assert (foldr (λ r n, high r - low r + 1 + n) 0 (extend_ranges (mkRange y y) l)
              + 2 * Z.of_nat (length (extend_ranges (mkRange y y) l))
              ≤ y - y + 1 + 2 + 3 * Z.of_nat (length l)) by (apply IH; auto; lia).
      lia.
Qed.

End LoadWindowFacts.

Section LoadWindowTheorems.
Import CInt ML Loader LoaderSpec LoaderTasks.
Context {MediaLibrary MLItem : Type} {V : MLOpVirtuals MediaLibrary MLItem}.

(** The ranges of a request of rows. *)
Lemma build_ranges_rows indexes :
  Forall is_row indexes →
  let rs := build_ranges (merge_sort Z.le indexes) in
  Forall valid_range rs ∧
  StronglySorted (λ r r', high r + MAX_DIFFERENCE ≤ low r') rs ∧
  Forall (λ r, low r ∈ indexes ∧ high r ∈ indexes) rs ∧
  (∀ x, x ∈ indexes → ∃ r, r ∈ rs ∧ in_range r x = true) ∧
  foldr (λ r n, (high r - low r + 1) + n) 0 rs + 2 * Z.of_nat (length rs)
    ≤ 3 * Z.of_nat (length indexes).
Proof.
  intros Hrows.
  pose proof (merge_sort_Permutation Z.le indexes) as Hperm.
  pose proof (StronglySorted_merge_sort Z.le indexes) as Hsorted.
  assert (Forall is_row (merge_sort Z.le indexes)) as Hsrows by by rewrite Hperm.
  assert (length (merge_sort Z.le indexes) = length indexes) as Hlen by by rewrite Hperm.
  destruct (merge_sort Z.le indexes) as [|first rest] eqn:Hs.
  { simpl. repeat split; try constructor; try lia.
    intros x Hx. apply Permutation_nil_l in Hperm. subst. by apply elem_of_nil in Hx. }
  intros rs. unfold rs. rewrite build_ranges_extend.
  apply Forall_cons in Hsrows as [Hfirst Hrest].
  set (cur := mkRange first first).
  assert (low cur ≤ high cur) as Hle by (simpl; lia).
  split; [|split; [|split; [|split]]].
  - apply Forall_forall. intros r Hr. by eapply (extend_ranges_rows cur rest).
  - by apply extend_ranges_far.
  - apply Forall_forall. intros r Hr.
    destruct (extend_ranges_bounds cur rest r Hr) as (Hlow & Hhigh). simpl in *.
    rewrite <- Hperm.
    split; [destruct Hlow as [->|?]|destruct Hhigh as [->|?]];
      apply elem_of_cons; auto.
  - intros x Hx. rewrite <- Hperm in Hx.
    apply (extend_ranges_cover cur rest x); auto.
    apply elem_of_cons in Hx as [->|Hx]; [right; simpl; lia|by left].
  - pose proof (extend_ranges_volume cur rest Hle Hfirst Hfirst Hrest Hsorted) as Hvol.
    simpl in Hvol, Hlen. lia.
Qed.

Lemma loadItemsTask_ml_queries d_off d_lim op (ml : MediaLibrary) indexes queries
    (items : list (option MLItem)) :
  Forall is_row indexes →
  loadItemsTask_ml d_off d_lim op ml indexes = Some (queries, items) →
  queries = range_query (getQueryParams op d_off d_lim)
              <$> build_ranges (merge_sort Z.le indexes).
Proof.
  intros Hrows. unfold loadItemsTask_ml. case_bool_decide as Hnil.
  - subst. intros [= <- <-]. done.
  - intros Hrun. eapply load_ranges_queries; [done| |exact Hrun].
    by apply build_ranges_rows.
Qed.

(** The window of a range between rows fits the 32-bit fields of the
    query. *)
Lemma range_query_rows q r :
  valid_range r →
  i_offset (range_query q r) = low r ∧
  i_nbResults (range_query q r) = high r - low r + 1.
Proof.
  intros (Hle & Hlow & Hhigh). unfold range_query, set_window. simpl.
  rewrite !to_unsigned_id by (unfold is_row, INT_MAX, UINT_MAX in *; lia). done.
Qed.

Lemma rows_asked_range_query q rs :
  Forall valid_range rs →
  rows_asked (range_query q <$> rs) = foldr (λ r n, (high r - low r + 1) + n) 0 rs.
Proof.
  induction 1 as [|r rs Hr Hrs IH]; [done|].
  rewrite fmap_cons. unfold rows_asked in *. cbn [foldr].
  by rewrite IH, (proj2 (range_query_rows q r Hr)).
Qed.

Lemma windows_sorted q rs :
  Forall valid_range rs →
  StronglySorted (λ r r', high r + MAX_DIFFERENCE ≤ low r') rs →
  StronglySorted window_before (range_query q <$> rs).
Proof.
  induction 1 as [|r rs Hr Hrs IH]; intros Hfar; simpl; [constructor|].
  apply StronglySorted_inv in Hfar as [Hfar Hall].
  constructor; [by apply IH|].
  apply Forall_fmap, Forall_forall. intros r' Hr'. simpl.
  rewrite Forall_forall in Hall, Hrs.
  unfold window_before, query_first, query_last.
  destruct (range_query_rows q r Hr) as (-> & ->).
  destruct (range_query_rows q r' (Hrs r' Hr')) as (-> & _).
  specialize (Hall r' Hr'). lia.
Qed.

(** X1: the windows [loadItemsTask] loads never overlap: each starts and ends
    on a requested row, a later window starts at least 4 rows after the end
    of an earlier one, and every requested row lies in one of them. *)
Theorem loadItemsTask_windows (d_off d_lim : Z) (op : MLOp) (ml : MediaLibrary)
    (indexes : list Z) queries (items : list (option MLItem)) :
  Forall is_row indexes →
  loadItemsTask_ml d_off d_lim op ml indexes = Some (queries, items) →
  StronglySorted window_before queries ∧
  Forall (λ q, query_first q ∈ indexes ∧ query_last q ∈ indexes ∧
               query_first q ≤ query_last q) queries ∧
  ∀ x, x ∈ indexes → ∃ q, q ∈ queries ∧ query_first q ≤ x ≤ query_last q.
Proof.
  intros Hrows Hrun.
  rewrite (loadItemsTask_ml_queries _ _ _ _ _ _ _ Hrows Hrun).
  destruct (build_ranges_rows indexes Hrows) as (Hvalid & Hfar & Hbounds & Hcover & _).
  set (rs := build_ranges (merge_sort Z.le indexes)) in *.
  split; [|split].
  - by apply windows_sorted.
  - apply Forall_fmap. rewrite Forall_forall in Hvalid, Hbounds.
    apply Forall_forall. intros r Hr.
    destruct (range_query_rows (getQueryParams op d_off d_lim) r (Hvalid r Hr))
      as (Ho & Hn).
    unfold compose, query_first, query_last. rewrite Ho, Hn.
    destruct (Hvalid r Hr) as (? & _). destruct (Hbounds r Hr) as (? & ?).
    replace (low r + (high r - low r + 1) - 1) with (high r) by lia. done.
  - intros x Hx. destruct (Hcover x Hx) as (r & Hr & Hin).
    apply (in_range_spec (λ _ : Z, @None MLItem)) in Hin.
    exists (range_query (getQueryParams op d_off d_lim) r).
    split; [by apply list_elem_of_fmap_2|].
    rewrite Forall_forall in Hvalid. unfold query_first, query_last.
    destruct (range_query_rows (getQueryParams op d_off d_lim) r (Hvalid r Hr))
      as (-> & ->). lia.
Qed.

(** X2: grouping never costs more than three times the request: the loads ask
    for at most [3 * n - 2 * loads] rows in at most [n] loads, [n] being the
    number of requested rows. *)
Theorem loadItemsTask_volume (d_off d_lim : Z) (op : MLOp) (ml : MediaLibrary)
    (indexes : list Z) queries (items : list (option MLItem)) :
  Forall is_row indexes →
  loadItemsTask_ml d_off d_lim op ml indexes = Some (queries, items) →
  rows_asked queries + 2 * Z.of_nat (length queries) ≤ 3 * Z.of_nat (length indexes) ∧
  (length queries ≤ length indexes)%nat.
Proof.
  intros Hrows Hrun.
  rewrite (loadItemsTask_ml_queries _ _ _ _ _ _ _ Hrows Hrun).
  destruct (build_ranges_rows indexes Hrows) as (Hvalid & _ & _ & _ & Hvol).
  set (rs := build_ranges (merge_sort Z.le indexes)) in *.
  rewrite rows_asked_range_query, length_fmap by done.
  split; [exact Hvol|].
  assert (Z.of_nat (length rs) ≤ foldr (λ r n, (high r - low r + 1) + n) 0 rs) as Hmin.
  { clear Hvol. induction Hvalid as [|r rs' (Hle & _) _ IH]; simpl; [done|]. lia. }
  lia.
Qed.

End LoadWindowTheorems.

Section ShortLoadFacts.
Import CInt ML Loader LoaderSpec LoaderTasks.
Context {MediaLibrary MLItem : Type} {V : MLOpVirtuals MediaLibrary MLItem}.

Lemma move_slot_Some (data items data' items' : list (option MLItem)) k i :
  move_slot data items k i = Some (data', items') →
  0 ≤ k < Z.of_nat (length data) ∧ length data' = length data.
Proof.
  unfold move_slot, vector_at. intros H.
  destruct (bool_decide (0 ≤ k < Z.of_nat (length data))) eqn:Hk; [|done].
  apply bool_decide_eq_true in Hk. split; [done|].
  destruct (data !! Z.to_nat k); simpl in H; [|done].
  destruct (bool_decide _); simpl in H; [|done].
  destruct (items !! _); simpl in H; [|done].
  simplify_eq. by rewrite length_insert.
Qed.

(** The inner loop stops with [std::out_of_range] at a row of the range
    that the loaded window does not reach. *)
Lemma fill_from_range_short r rest i (data items : list (option MLItem)) x :
  is_row (low r) → is_row (high r) → Forall is_row rest →
  x ∈ rest → in_range r x = true → Z.of_nat (length data) ≤ x - low r →
  fill_from_range r rest i data items = None.
Proof.
  intros Hlo Hhi. revert i data items.
  induction rest as [|y rest IH]; intros i data items Hrows Hx Hin Hshort.
  { by apply elem_of_nil in Hx. }
  apply Forall_cons in Hrows as [Hy Hrows]. simpl.
  fold (in_range r y). destruct (in_range r y) eqn:Hiny.
  - destruct (move_slot data items (wrap_int (y - low r)) i) as [[d it]|] eqn:Hmove;
      simpl; [|done].
    apply move_slot_Some in Hmove as [Hk Hlen].
    apply (in_range_spec (λ _ : Z, @None MLItem)) in Hiny.
    rewrite wrap_int_id in Hk by (unfold is_row, INT_MIN, INT_MAX in *; lia).
    apply elem_of_cons in Hx as [->|Hx]; [lia|].
    apply IH; [done|done|done|]. by rewrite Hlen.
  - apply elem_of_cons in Hx as [->|Hx]; [congruence|]. by apply IH.
Qed.

Lemma load_ranges_short op (ml : MediaLibrary) q q' indexes rs
    (items : list (option MLItem)) r x :
  (∀ a b, set_window q' a b = set_window q a b) →
  Forall valid_range rs → Forall is_row indexes →
  r ∈ rs → x ∈ indexes → in_range r x = true →
  Z.of_nat (length (load op ml (range_query q r))) ≤ x - low r →
  load_ranges op ml q' indexes rs items = None.
Proof.
  intros Hq Hrs Hrows Hr Hx Hin Hshort. revert q' items Hq.
  induction rs as [|r' rs IH]; intros q' items Hq; [by apply elem_of_nil in Hr|].
  apply Forall_cons in Hrs as [Hr' Hrs]. simpl.
  rewrite range_count_valid, Hq by done.
  apply elem_of_cons in Hr as [<-|Hr].
  - destruct Hr' as (_ & Hlo & Hhi).
    by rewrite (fill_from_range_short r indexes 0 _ items x).
  - destruct (fill_from_range _ _ _ _ _) as [[d it]|]; simpl; [|done].
    by rewrite (IH Hrs Hr (set_window q (low r') (high r' - low r' + 1)) it).
Qed.

(** X3: when the load of a window returns too few items to reach a requested
    row of the window, [loadItemsTask] ends with [std::out_of_range] and no
    callback is called. *)
Theorem loadItemsTask_short_load (d_off d_lim : Z) (op : MLOp) (ml : MediaLibrary)
    (id : Z) (indexes : list Z) (r : Range) (x : Z) :
  Forall is_row indexes →
  r ∈ build_ranges (merge_sort Z.le indexes) →
  x ∈ indexes → in_range r x = true →
  Z.of_nat (length (load op ml (range_query (getQueryParams op d_off d_lim) r)))
    ≤ x - low r →
  loadItemsTask d_off d_lim op ml id indexes = None.
Proof.
  intros Hrows Hr Hx Hin Hshort. unfold loadItemsTask, loadItemsTask_ml.
  rewrite bool_decide_eq_false_2; [|intros ->; by apply elem_of_nil in Hx].
  rewrite (load_ranges_short op ml (getQueryParams op d_off d_lim) _ indexes _ _ r x);
    try done.
  by apply build_ranges_rows.
Qed.

End ShortLoadFacts.

Section ContiguousFacts.
Import CInt ML Loader LoaderSpec LoaderTasks.
Context {MediaLibrary MLItem : Type} {V : MLOpVirtuals MediaLibrary MLItem}.

Lemma StronglySorted_seqZ m (k : nat) : StronglySorted Z.le (seqZ m (Z.of_nat k)).
Proof.
  revert m. induction k as [|k IH]; intros m.
  - rewrite seqZ_nil by lia. constructor.
  - rewrite seqZ_cons by lia.
    replace (Z.pred (Z.of_nat (S k))) with (Z.of_nat k) by lia.
    constructor; [apply IH|].
    apply Forall_forall. intros y Hy. apply elem_of_seqZ in Hy. lia.
Qed.

Lemma merge_sort_seqZ m n : merge_sort Z.le (seqZ m n) = seqZ m n.
Proof.
  apply (StronglySorted_unique Z.le).
  - apply StronglySorted_merge_sort; apply _.
  - destruct (decide (0 ≤ n)) as [Hn|Hn].
    + rewrite <- (Z2Nat.id n Hn). apply StronglySorted_seqZ.
    + rewrite seqZ_nil by lia. constructor.
  - apply merge_sort_Permutation.
Qed.

(** Rows that follow one another end up in one range. *)
Lemma extend_ranges_seqZ lo h (k : nat) :
  is_row h → is_row (h + Z.of_nat k) →
  extend_ranges (mkRange lo h) (seqZ (h + 1) (Z.of_nat k))
    = [mkRange lo (h + Z.of_nat k)].
Proof.
  revert h. induction k as [|k IH]; intros h Hh Hlast.
  - rewrite seqZ_nil by lia. simpl. by rewrite Z.add_0_r.
  - rewrite seqZ_cons by lia. simpl.
    rewrite wrap_int_id by (unfold INT_MIN, INT_MAX; lia).
    destruct (Z.ltb_spec (h + 1 - h) MAX_DIFFERENCE) as [_|Hge];
      [|unfold MAX_DIFFERENCE in Hge; lia].
    replace (Z.pred (Z.of_nat (S k))) with (Z.of_nat k) by lia.
    replace (Z.succ (h + 1)) with ((h + 1) + 1) by lia.
    rewrite IH by (unfold is_row in *; lia). f_equal. f_equal. lia.
Qed.

Lemma build_ranges_seqZ offset n :
  is_row offset → 0 < n → is_row (offset + n - 1) →
  build_ranges (seqZ offset n) = [mkRange offset (offset + n - 1)].
Proof.
  intros Ho Hn Hlast. rewrite seqZ_cons by done. rewrite build_ranges_extend.
  replace (Z.succ offset) with (offset + 1) by lia.
  replace (Z.pred n) with (Z.of_nat (Z.to_nat (n - 1))) by lia.
  rewrite extend_ranges_seqZ by (unfold is_row in *; lia).
  f_equal. f_equal. lia.
Qed.

(** X4: a request for consecutive rows, in order, is one load of the window,
    and delivers what [loadTask] delivers for that window, provided the load
    returns an item (or a null pointer) for every row of the window. *)
Theorem loadItemsTask_contiguous (d_off d_lim : Z) (op : MLOp) (ml : MediaLibrary)
    (id : Z) (offset n : Z) :
  is_row offset → 0 < n → is_row (offset + n - 1) →
  length (load op ml (getQueryParams op offset n)) = Z.to_nat n →
  loadItemsTask d_off d_lim op ml id (seqZ offset n) =
    Some ([getQueryParams op offset n],
          [ItemsCb id (load op ml (getQueryParams op offset n))]) ∧
  loadTask op ml id offset n = [LoadCb id (load op ml (getQueryParams op offset n))].
Proof.
  intros Ho Hn Hlast Hlen. split; [|done].
  set (data := load op ml (getQueryParams op offset n)) in *.
  set (r := mkRange offset (offset + n - 1)).
  set (row_item := λ x : Z, default None (data !! Z.to_nat (x - offset))).
  assert (data = drained row_item r []) as Hdata.
  { rewrite drained_nil. simpl. apply list_eq. intros j.
    rewrite list_lookup_fmap.
    destruct (decide (Z.of_nat j < n)) as [Hj|Hj].
    - replace (offset + n - 1 - offset + 1) with n by lia.
      rewrite lookup_seqZ_lt by done. simpl. unfold row_item.
      replace (Z.to_nat (offset + Z.of_nat j - offset)) with j by lia.
      destruct (data !! j) eqn:E; [done|].
      apply lookup_ge_None in E. lia.
    - replace (offset + n - 1 - offset + 1) with n by lia.
      rewrite lookup_seqZ_ge by lia. simpl. apply lookup_ge_None. lia. }
  assert (valid_range r) as Hvalid by (repeat split; simpl; unfold is_row in *; lia).
  assert (Forall is_row (seqZ offset n)) as Hrows.
  { apply Forall_forall. intros y Hy. apply elem_of_seqZ in Hy.
    unfold is_row in *. lia. }
  unfold loadItemsTask, loadItemsTask_ml.
  rewrite bool_decide_eq_false_2 by (rewrite seqZ_cons by done; done).
  rewrite merge_sort_seqZ, build_ranges_seqZ by done. simpl.
  fold r. rewrite (range_count_valid r Hvalid). simpl.
  replace (offset + n - 1 - offset + 1) with n by lia.
  change (set_window (getQueryParams op d_off d_lim) offset n)
    with (getQueryParams op offset n).
  fold data. rewrite Hdata at 1.
  rewrite fill_from_range_prefix;
    [|apply Hvalid|apply Hvalid|done|by rewrite length_replicate].
  simpl. unfold loadItemsTask_ui. do 4 f_equal.
  apply list_eq. intros j.
  destruct (decide (Z.of_nat j < n)) as [Hj|Hj].
  - assert (seqZ offset n !! j = Some (offset + Z.of_nat j)) as Hidx
      by by apply lookup_seqZ_lt.
    rewrite (filled_lookup_in row_item r _ _ j _ Hidx).
    + rewrite (first_occurrence_NoDup row_item _ j _ (NoDup_seqZ _ _) Hidx).
      unfold row_item.
      replace (Z.to_nat (offset + Z.of_nat j - offset)) with j by lia.
      destruct (data !! j) eqn:E; [done|]. apply lookup_ge_None in E. lia.
    + apply (in_range_spec row_item). simpl. lia.
    + rewrite length_replicate, length_seqZ. lia.
  - rewrite (proj2 (lookup_ge_None _ _)); [symmetry; apply lookup_ge_None; lia|].
    rewrite length_filled, length_replicate, length_seqZ. lia.
Qed.

End ContiguousFacts.

(** ** The cache of the model *)

Section ValidatedFacts.
Import CInt Qt ML Loader Model ModelSpec ModelMore ModelMoreSpec.
Context {MLItem Cache MediaLib QVariant : Type}.
Context {CO : ListCacheOps MLItem Cache} {MO : MediaLibOps MediaLib}.
Context {MV : ModelVirtuals MLItem Cache QVariant}.
Context {CA : ListCacheAccess MLItem Cache} {MC : ModelConstants MediaLib}.

Ltac run_op :=
  unfold emit, connected, emit_loadingChanged, signal, mbind, Op_bind, bind, update_model, get_model, ret; simpl.

Lemma validateCache_run (w : World Cache MediaLib) :
  validateCache w =
    match m_cache (model w) with
    | Some _ => (tt, w, [])
    | None =>
        if cachable (model w)
        then (tt, with_model (set_cache (Some (fresh_cache (model w)))) w,
              [loadingChanged])
        else (tt, w, [])
    end.
Proof.
  unfold validateCache. run_op.
  destruct (m_cache (model w)); [done|]. by destruct (cachable (model w)).
Qed.

Lemma validated_validateCache (w : World Cache MediaLib) :
  validated (model (validateCache w).1.2).
Proof.
  rewrite validateCache_run. unfold validated.
  destruct (m_cache (model w)) eqn:Hc; simpl; [left; rewrite Hc; eauto|].
  destruct (cachable (model w)) eqn:Hca; simpl; [left; eauto|by right].
Qed.

Lemma validated_reset_model (m : MLBaseModel Cache) : validated (reset_model m).
Proof.
  unfold validated, reset_model. simpl.
  destruct (cachable (set_cache None m)) eqn:Hca; simpl; [left; eauto|by right].
Qed.

Lemma sortByColumn_run name order (w : World Cache MediaLib) :
  sortByColumn name order w =
    let sort := nameToCriteria name in
    let desc := bool_decide (order = DescendingOrder) in
    if bool_decide (m_sort_desc (model w) = desc)
       && bool_decide (Model.m_sort (model w) = sort)
    then (tt, w, [])
    else (tt, with_model (λ m, reset_model (set_sort sort (set_sort_desc desc m))) w,
          reset_signals (set_sort sort (set_sort_desc desc (model w)))).
Proof.
  unfold sortByColumn. run_op. destruct (_ && _); [done|].
  rewrite resetCache_run. reflexivity.
Qed.

Lemma unsetSortCriteria_run (w : World Cache MediaLib) :
  unsetSortCriteria w =
    if bool_decide (Model.m_sort (model w) = VLC_ML_SORTING_DEFAULT) then (tt, w, [])
    else (tt, with_model (λ m, reset_model (set_sort VLC_ML_SORTING_DEFAULT m)) w,
          reset_signals (set_sort VLC_ML_SORTING_DEFAULT (model w))
            ++ [sortCriteriaChanged]).
Proof.
  unfold unsetSortCriteria. run_op. case_bool_decide; [done|].
  rewrite resetCache_run. reflexivity.
Qed.

Lemma invalidateCache_run (w : World Cache MediaLib) :
  invalidateCache w =
    match m_cache (model w) with
    | Some cache =>
        (tt, with_model (set_cache (Some (invalidate cache))) w, [loadingChanged])
    | None => validateCache w
    end.
Proof.
  rewrite validateCache_run. unfold invalidateCache, validateCache. run_op.
  destruct (m_cache (model w)) eqn:Hc; simpl; [done|]. rewrite Hc.
  by destruct (cachable (model w)).
Qed.

(** X5: after each member that replaces or checks the cache, the model has a
    cache whenever it can have one, and the setters keep it so; in such a
    state, and in no other, [validateCache] does nothing. *)
Theorem cache_validated (w : World Cache MediaLib) :
  (validated (model w) ↔ validateCache w = (tt, w, [])) ∧
  validated (model (validateCache w).1.2) ∧
  validated (model (resetCache w).1.2) ∧
  validated (model (invalidateCache w).1.2) ∧
  validated (model (componentComplete w).1.2) ∧
  (∀ parentId, validated (model (setParentId parentId w).1.2)) ∧
  validated (model (unsetParentId w).1.2) ∧
  (validated (model w) →
     (∀ order, validated (model (setSortOrder order w).1.2)) ∧
     (∀ criteria, validated (model (setSortCriteria criteria w).1.2)) ∧
     (∀ pattern, validated (model (setSearchPattern pattern w).1.2)) ∧
     (∀ limit, validated (model (setLimit limit w).1.2)) ∧
     (∀ offset, validated (model (setOffset offset w).1.2)) ∧
     (∀ name order, validated (model (sortByColumn name order w).1.2)) ∧
     validated (model (unsetSortCriteria w).1.2)).
Proof.
  split; [|split; [|split; [|split; [|split; [|split; [|split]]]]]].
  - rewrite validateCache_run. unfold validated. split.
    + intros [[c Hc]|Hca]; [by rewrite Hc|].
      rewrite Hca. by destruct (m_cache (model w)).
    + destruct (m_cache (model w)) eqn:Hc; [left; eauto|].
      destruct (cachable (model w)) eqn:Hca; [|by right].
      intros [=].
  - apply validated_validateCache.
  - rewrite resetCache_run. simpl. apply validated_reset_model.
  - rewrite invalidateCache_run.
    destruct (m_cache (model w)) eqn:Hc; simpl.
    + left. simpl. eauto.
    + apply validated_validateCache.
  - unfold componentComplete. run_op.
    pose proof (validated_validateCache (with_model (set_qmlInitializing false) w)) as H.
    by destruct (validateCache _) as [[[] w'] sigs].
  - intros parentId. rewrite setParentId_run. simpl. apply validated_reset_model.
  - unfold unsetParentId. run_op. rewrite resetCache_run. simpl.
    apply validated_reset_model.
  - intros Hv. repeat split.
    + intros order. rewrite setSortOrder_run. simpl.
      case_bool_decide; simpl; [done|apply validated_reset_model].
    + intros criteria. rewrite setSortCriteria_run. simpl.
      case_bool_decide; simpl; [done|apply validated_reset_model].
    + intros pattern. rewrite setSearchPattern_run. simpl.
      destruct (QString_equal _ _); simpl; [done|apply validated_reset_model].
    + intros limit. rewrite setLimit_run.
      case_bool_decide; simpl; [done|apply validated_reset_model].
    + intros offset. rewrite setOffset_run.
      case_bool_decide; simpl; [done|apply validated_reset_model].
    + intros name order. rewrite sortByColumn_run. simpl.
      destruct (_ && _); simpl; [done|apply validated_reset_model].
    + rewrite unsetSortCriteria_run.
      case_bool_decide; simpl; [done|apply validated_reset_model].
Qed.

End ValidatedFacts.

Section SortByColumnFacts.
Import CInt Qt ML Loader Model ModelSpec ModelMore ModelMoreSpec.
Context {MLItem Cache MediaLib QVariant : Type}.
Context {CO : ListCacheOps MLItem Cache} {MO : MediaLibOps MediaLib}.
Context {MV : ModelVirtuals MLItem Cache QVariant}.
Context {CA : ListCacheAccess MLItem Cache} {MC : ModelConstants MediaLib}.

Lemma with_model_ext f g (w : World Cache MediaLib) :
  f (model w) = g (model w) → with_model f w = with_model g w.
Proof. unfold with_model. by intros ->. Qed.

Lemma set_sort_same (m : MLBaseModel Cache) : set_sort (Model.m_sort m) m = m.
Proof. by destruct m. Qed.

Lemma set_sort_desc_same (m : MLBaseModel Cache) : set_sort_desc (m_sort_desc m) m = m.
Proof. by destruct m. Qed.

Lemma reset_model_reset_model f (m : MLBaseModel Cache) :
  (∀ c m', set_cache None (f (set_cache c m')) = set_cache None (f m')) →
  reset_model (f (reset_model m)) = reset_model (f m).
Proof.
  intros Hf. unfold reset_model at 2. simpl.
  destruct (cachable (set_cache None m)).
  - unfold reset_model. simpl. rewrite (Hf _ (set_cache None m)).
    by rewrite (Hf None m).
  - unfold reset_model. simpl. by rewrite (Hf None m).
Qed.

Lemma not_elem_of_reset_signals s (m : MLBaseModel Cache) :
  s ≠ beginResetModel → s ≠ endResetModel → s ≠ loadingChanged →
  s ∉ reset_signals m.
Proof.
  intros H1 H2 H3 Hin. unfold reset_signals in Hin.
  destruct (cachable _); simpl in Hin;
    repeat (apply elem_of_cons in Hin as [?|Hin]; [done|]);
    by apply elem_of_nil in Hin.
Qed.

(** X6: [sortByColumn] leaves the model as [setSortCriteria] followed by
    [setSortOrder] does, but tells nobody: it emits neither
    [sortCriteriaChanged] nor [sortOrderChanged]. *)
Theorem sortByColumn_as_setters (criteria : QString) (order : SortOrder)
    (w : World Cache MediaLib) :
  ((sortByColumn (toUtf8 criteria) order w).1.2 =
     (setSortOrder order (setSortCriteria criteria w).1.2).1.2) ∧
  (sortCriteriaChanged ∉ (sortByColumn (toUtf8 criteria) order w).2) ∧
  (sortOrderChanged ∉ (sortByColumn (toUtf8 criteria) order w).2).
Proof.
  rewrite sortByColumn_run, setSortCriteria_run. simpl.
  set (sort := nameToCriteria (toUtf8 criteria)).
  set (desc := bool_decide (order = DescendingOrder)).
  split.
  - destruct (decide (Model.m_sort (model w) = sort)) as [Hs|Hs];
      destruct (decide (m_sort_desc (model w) = desc)) as [Hd|Hd];
      rewrite ?(bool_decide_eq_true_2 _ Hs), ?(bool_decide_eq_false_2 _ Hs),
              ?(bool_decide_eq_true_2 _ Hd), ?(bool_decide_eq_false_2 _ Hd);
      simpl; rewrite setSortOrder_run; simpl; fold desc.
    + by rewrite (bool_decide_eq_true_2 _ Hd).
    + rewrite (bool_decide_eq_false_2 _ Hd). simpl.
      apply with_model_ext. f_equal. rewrite <- Hs. by destruct (model w).
    + rewrite (proj1 (reset_model_fields _)). simpl.
      rewrite (bool_decide_eq_true_2 _ Hd). simpl.
      apply with_model_ext. f_equal. rewrite <- Hd. by destruct (model w).
    + rewrite (proj1 (reset_model_fields _)). simpl.
      rewrite (bool_decide_eq_false_2 _ Hd). simpl.
      rewrite with_model_compose. apply with_model_ext. simpl.
      by rewrite (reset_model_reset_model (set_sort_desc desc)).
  - destruct (_ && _); simpl; [split; apply not_elem_of_nil|].
    split; by apply not_elem_of_reset_signals.
Qed.

(** X7: a change of the limit or of the offset replaces the cache by one made
    with the new value: between [beginResetModel] and [endResetModel] the
    old cache is dropped, the new one is created from the updated model, and
    the change signal comes last. *)
Theorem limit_offset_rebuild_cache (w : World Cache MediaLib) :
  (∀ limit, limit ≠ m_limit (model w) →
     let m0 := set_cache None (set_limit limit (model w)) in
     let '(_, w1, signals) := setLimit limit w in
     m_limit (model w1) = limit ∧
     m_cache (model w1) =
       (if cachable m0
        then Some (initCount (cache_new (createLoader m0) false limit
                                        (m_offset (model w))))
        else None) ∧
     signals = [beginResetModel; endResetModel]
                 ++ (if cachable m0 then [loadingChanged] else [])
                 ++ [limitChanged]) ∧
  (∀ offset, offset ≠ m_offset (model w) →
     let m0 := set_cache None (set_offset offset (model w)) in
     let '(_, w1, signals) := setOffset offset w in
     m_offset (model w1) = offset ∧
     m_cache (model w1) =
       (if cachable m0
        then Some (initCount (cache_new (createLoader m0) false
                                        (m_limit (model w)) offset))
        else None) ∧
     signals = [beginResetModel; endResetModel]
                 ++ (if cachable m0 then [loadingChanged] else [])
                 ++ [offsetChanged]).
Proof.
  split.
  - intros limit Hne m0. rewrite setLimit_run.
    rewrite bool_decide_eq_false_2 by congruence.
    simpl. rewrite m_cache_reset_model.
    rewrite (proj1 (proj2 (proj2 (proj2 (reset_model_fields _))))). simpl.
    split; [done|]. split; [done|]. unfold reset_signals. by fold m0.
  - intros offset Hne m0. rewrite setOffset_run.
    rewrite bool_decide_eq_false_2 by congruence.
    simpl. rewrite m_cache_reset_model.
    rewrite (proj1 (proj2 (proj2 (proj2 (proj2 (reset_model_fields _)))))). simpl.
    split; [done|]. split; [done|]. unfold reset_signals. by fold m0.
Qed.

End SortByColumnFacts.

(** ** Reading items *)

Section ItemFacts.
Import CInt Qt ML Loader Model ModelSpec ModelMore ModelMoreSpec.
Context {MLItem Cache MediaLib QVariant : Type}.
Context {CO : ListCacheOps MLItem Cache}.
Context {MV : ModelVirtuals MLItem Cache QVariant}.
Context {CA : ListCacheAccess MLItem Cache}.

Lemma item_negative idx (m : MLBaseModel Cache) : idx < 0 → item idx m = (None, m).
Proof.
  intros Hi. unfold item. destruct (m_cache m); [|done].
  rewrite (bool_decide_eq_true_2 (idx < 0)) by done. by rewrite orb_true_r.
Qed.



Lemma getDataAt_invalid index (m : MLBaseModel Cache) :
  item (row index) m = (None, m) →
  ∀ (roles : list (Z * string)) (dict : gmap string (option QVariant)),
    foldl (λ '(dataDict, m) (role : Z * string),
             let '(v, m) := data index role.1 m in
             (<[role.2 := v]> dataDict, m))
          (dict, m) roles =
    (foldl (λ dataDict (role : Z * string), <[role.2 := None]> dataDict) dict roles, m).
Proof.
  intros Hitem roles. induction roles as [|role roles IH]; intros dict; [done|].
  simpl. unfold data at 2. rewrite Hitem. simpl. apply IH.
Qed.

Lemma foldl_insert_invalid (roles : list (Z * string))
    (dict : gmap string (option QVariant)) name :
  foldl (λ dataDict (role : Z * string), <[role.2 := None]> dataDict) dict roles !! name =
    if bool_decide (name ∈ roles.*2) then Some None else dict !! name.
Proof.
  revert dict. induction roles as [|role roles IH]; intros dict; simpl.
  - done.
  - rewrite IH. destruct (decide (name ∈ roles.*2)) as [Hin|Hin].
    + rewrite !bool_decide_eq_true_2; [done| |done]. apply elem_of_cons. by right.
    + rewrite (bool_decide_eq_false_2 _ Hin).
      destruct (decide (name = role.2)) as [->|Hne].
      * rewrite lookup_insert_eq. rewrite bool_decide_eq_true_2; [done|].
        apply elem_of_cons. by left.
      * rewrite lookup_insert_ne by done.
        rewrite bool_decide_eq_false_2; [done|].
        rewrite elem_of_cons. intros [?|?]; done.
Qed.


(** X9: [getDataAt(int)] for a row the model does not have: every role name
    is mapped to the invalid [QVariant], and the cache is left alone. *)
Theorem getDataAt_row_outside (idx : Z) (m : MLBaseModel Cache) :
  ¬ (0 ≤ idx < rowCount m no_index) →
  (getDataAt_row idx m).2 = m ∧
  ∀ name,
    (getDataAt_row idx m).1 !! name =
      if bool_decide (name ∈ roleNames.*2) then Some None else None.
Proof.
  intros Hout. unfold getDataAt_row, getDataAt, index.
  assert (bool_decide (0 ≤ idx) && bool_decide (idx < rowCount m no_index) = false)
    as ->.
  { apply andb_false_iff. rewrite !bool_decide_eq_false. lia. }
  rewrite (getDataAt_invalid no_index m) by (by apply item_negative).
  split; [done|]. intros name. simpl. by rewrite foldl_insert_invalid, lookup_empty.
Qed.

End ItemFacts.

(** ** Events of the media library *)

Section EventFacts.
Import CInt Qt ML Loader Model ModelSpec ModelMore ModelMoreSpec.
Context {MLItem Cache MediaLib QVariant : Type}.
Context {CO : ListCacheOps MLItem Cache} {MO : MediaLibOps MediaLib}.
Context {MV : ModelVirtuals MLItem Cache QVariant}.
Context {CA : ListCacheAccess MLItem Cache} {MC : ModelConstants MediaLib}.

Lemma invalidateCache_signals (w : World Cache MediaLib) :
  (invalidateCache w).2 = [loadingChanged] ∨ (invalidateCache w).2 = [].
Proof.
  rewrite invalidateCache_run. destruct (m_cache (model w)) eqn:Hc; simpl; [by left|].
  rewrite validateCache_run, Hc.
  destruct (cachable (model w)); simpl; [by left|by right].
Qed.

Lemma request_reset_run (w : World Cache MediaLib) :
  request_reset w =
    (tt, with_model (set_need_reset false) (invalidateCache w).1.2,
     resetRequested :: (invalidateCache w).2).
Proof.
  unfold request_reset, emit, connected, onResetRequested.
  unfold signal, mbind, Op_bind, bind, update_model. simpl.
  destruct (invalidateCache w) as [[[] w1] signals]. simpl.
  by rewrite app_nil_r.
Qed.

(** X10: one event makes the model ask for a reset at most once, and only a
    model that needs one: either nothing changes and no signal is emitted, or
    [m_need_reset] was set, [resetRequested] is emitted once, its slot
    invalidates the cache (or makes one) within the emission, and
    [m_need_reset] is cleared.  A model that needs a reset and whose media
    library is idle asks on any event.  [thumbnailUpdated] is called at most
    once, for an item of the cache whose count is known, with the location
    and the status of the event. *)
Theorem onVlcMlEvent_reset_once (event : MLEvent) (w : World Cache MediaLib) :
  let '(w', signals, thumbnails) := onVlcMlEvent event w in
  ((w' = w ∧ signals = []) ∨
   (m_need_reset (model w) = true ∧
    w' = with_model (set_need_reset false) (invalidateCache w).1.2 ∧
    signals = resetRequested :: (invalidateCache w).2 ∧
    resetRequested ∉ (invalidateCache w).2)) ∧
  (m_need_reset (model w) = true ∧ is_Some (m_mediaLib (model w)) ∧
   idle (medialib w) = true → signals = resetRequested :: (invalidateCache w).2) ∧
  (thumbnails = [] ∨
   ∃ cache i_media_id psz_mrl i_status item row,
     event = VLC_ML_EVENT_MEDIA_THUMBNAIL_GENERATED true i_media_id psz_mrl i_status ∧
     m_cache (model w) = Some cache ∧
     queryCount cache ≠ COUNT_UNINITIALIZED ∧
     find cache (λ item, bool_decide
                   (getId item = mkMLItemId i_media_id VLC_ML_PARENT_UNKNOWN))
       = Some (item, row) ∧
     thumbnails =
       [thumbnailUpdated (index (model w) row) item (qfu psz_mrl) i_status]).
Proof.
  assert (resetRequested ∉ (invalidateCache w).2) as Honce.
  { destruct (invalidateCache_signals w) as [-> | ->]; [|apply not_elem_of_nil].
    intros Hin. apply list_elem_of_singleton in Hin. discriminate. }
  assert (∀ thumbnails : list (ThumbnailCall MLItem),
    let '(w', signals, thumbnails') :=
      if bool_decide (is_Some (m_mediaLib (model w))) && idle (medialib w)
         && m_need_reset (model w)
      then let '(_, w1, signals') := request_reset w in
           (w1, [] ++ signals', thumbnails)
      else (w, [], thumbnails) in
    thumbnails' = thumbnails ∧
    ((w' = w ∧ signals = []) ∨
     (m_need_reset (model w) = true ∧
      w' = with_model (set_need_reset false) (invalidateCache w).1.2 ∧
      signals = resetRequested :: (invalidateCache w).2 ∧
      resetRequested ∉ (invalidateCache w).2)) ∧
    (m_need_reset (model w) = true ∧ is_Some (m_mediaLib (model w)) ∧
     idle (medialib w) = true → signals = resetRequested :: (invalidateCache w).2))
    as Hend.
  { intros thumbnails. rewrite request_reset_run.
    destruct (m_need_reset (model w)) eqn:Hn;
      destruct (bool_decide (is_Some (m_mediaLib (model w)))) eqn:Hml;
      destruct (idle (medialib w)) eqn:Hidle; simpl;
      (split; [reflexivity|]);
      (split;
       [first [by left|by right]
       |intros (H1 & H2 & H3);
        first [done|by apply bool_decide_eq_false in Hml]]). }
  unfold onVlcMlEvent.
  destruct event as [b_idle|b_success i_media_id psz_mrl i_status|i_type].
  - destruct (b_idle && m_need_reset (model w)) eqn:Hfirst.
    + apply andb_true_iff in Hfirst as [_ Hn].
      rewrite request_reset_run. simpl. rewrite andb_false_r.
      split; [by right|]. split; [done|]. by left.
    + specialize (Hend []). destruct (_ && _ && _).
      * destruct (request_reset w) as [[[] w1] signals'].
        destruct Hend as (_ & H1 & H2). split; [done|]. split; [done|]. by left.
      * destruct Hend as (_ & H1 & H2). split; [done|]. split; [done|]. by left.
  - destruct b_success.
    + destruct (m_cache (model w)) as [cache|] eqn:Hc.
      * destruct (bool_decide (queryCount cache = COUNT_UNINITIALIZED)) eqn:Hq.
        -- specialize (Hend []). destruct (_ && _ && _);
             [destruct (request_reset w) as [[[] w1] signals']|];
             destruct Hend as (_ & H1 & H2); (split; [done|]); (split; [done|]);
             by left.
        -- destruct (find cache _) as [[item row]|] eqn:Hfind.
           ++ specialize (Hend [thumbnailUpdated (index (model w) row) item
                                  (qfu psz_mrl) i_status]).
              destruct (_ && _ && _);
                [destruct (request_reset w) as [[[] w1] signals']|];
                destruct Hend as (_ & H1 & H2); (split; [done|]); (split; [done|]);
                right; exists cache, i_media_id, psz_mrl, i_status, item, row;
                apply bool_decide_eq_false in Hq; done.
           ++ specialize (Hend []). destruct (_ && _ && _);
                [destruct (request_reset w) as [[[] w1] signals']|];
                destruct Hend as (_ & H1 & H2); (split; [done|]); (split; [done|]);
                by left.
      * specialize (Hend []). destruct (_ && _ && _);
          [destruct (request_reset w) as [[[] w1] signals']|];
          destruct Hend as (_ & H1 & H2); (split; [done|]); (split; [done|]);
          by left.
    + specialize (Hend []). destruct (_ && _ && _);
        [destruct (request_reset w) as [[[] w1] signals']|];
        destruct Hend as (_ & H1 & H2); (split; [done|]); (split; [done|]); by left.
  - specialize (Hend []). destruct (_ && _ && _);
      [destruct (request_reset w) as [[[] w1] signals']|];
      destruct Hend as (_ & H1 & H2); (split; [done|]); (split; [done|]); by left.
Qed.

End EventFacts.

(** ** The media library of the model *)

Section SetMlFacts.
Import CInt Qt ML Loader Model ModelSpec ModelMore ModelMoreSpec.
Context {MLItem Cache MediaLib QVariant : Type}.
Context {CO : ListCacheOps MLItem Cache} {MO : MediaLibOps MediaLib}.
Context {MV : ModelVirtuals MLItem Cache QVariant}.
Context {CA : ListCacheAccess MLItem Cache} {MC : ModelConstants MediaLib}.

Lemma m_mediaLib_validateCache (w : World Cache MediaLib) :
  m_mediaLib (model (validateCache w).1.2) = m_mediaLib (model w).
Proof.
  rewrite validateCache_run. destruct (m_cache (model w)); [done|].
  by destruct (cachable (model w)).
Qed.

Lemma setMl_run medialib l (w : World Cache MediaLib) :
  medialib ≠ 0 →
  ∃ l' w' signals,
    setMl medialib l w = Some (l', w', signals) ∧
    m_mediaLib (model w') = Some medialib ∧
    (is_Some (m_ml_event_handle l) ∨ m_mediaLib (model w) = Some medialib → l' = l) ∧
    (m_ml_event_handle l = None → m_mediaLib (model w) ≠ Some medialib →
       l' = {| m_ml_event_handle := registerEventListener medialib;
               registered := registered l ++ [medialib] |}).
Proof.
  intros Hne. unfold setMl. rewrite bool_decide_eq_false_2 by done.
  case_bool_decide as Hsame.
  - exists l, w, []. split; [done|]. split; [done|]. split; [done|]. done.
  - pose proof (m_mediaLib_validateCache
                  (with_model (set_mediaLib (Some medialib)) w)) as Hml.
    destruct (validateCache _) as [[[] w'] signals]. simpl in Hml.
    eexists _, w', _. split; [reflexivity|]. split; [done|]. split.
    + intros [[h Hh]|Heq]; [by rewrite Hh|done].
    + intros Hh _. by rewrite Hh.
Qed.

(** X11: [setMl] registers the event listener at most once: with a null media
    library the assertion fails; otherwise the model ends on the last
    library it was given, a listener that is registered stays as it is
    whatever libraries follow, and a model without listener registers on the
    first library that differs from its own. *)
Theorem setMl_registers_once (medialibs : list Z) (l : Listener)
    (w : World Cache MediaLib) :
  (setMl 0 l w = None) ∧
  (Forall (λ medialib, medialib ≠ 0) medialibs →
   ∃ l' w',
     setMl_all medialibs l w = Some (l', w') ∧
     m_mediaLib (model w') = default (m_mediaLib (model w)) (Some <$> last medialibs) ∧
     (is_Some (m_ml_event_handle l) → l' = l) ∧
     (∀ medialib rest h,
        medialibs = medialib :: rest →
        m_ml_event_handle l = None →
        m_mediaLib (model w) ≠ Some medialib →
        registerEventListener medialib = Some h →
        l' = {| m_ml_event_handle := Some h;
                registered := registered l ++ [medialib] |})).
Proof.
  split; [done|].
  intros Hall. revert l w.
  induction Hall as [|medialib rest Hne Hall IH]; intros l w.
  - exists l, w. split; [done|]. split; [done|]. split; [done|].
    intros ???; done.
  - destruct (setMl_run medialib l w Hne) as (l1 & w1 & signals & Hrun & Hml & Hkeep & Hreg).
    destruct (IH l1 w1) as (l' & w' & Hall' & Hml' & Hkeep' & _).
    exists l', w'. simpl. rewrite Hrun. split; [done|]. split; [|split].
    + rewrite Hml', Hml. rewrite last_cons. by destruct (last rest).
    + intros Hsome. rewrite Hkeep' by (rewrite Hkeep; auto). auto.
    + intros medialib' rest' h [= <- <-] Hnone Hdiff Hh.
      rewrite (Hreg Hnone Hdiff), Hh in Hkeep'.
      apply Hkeep'. simpl. eauto.
Qed.

End SetMlFacts.

(** ** The loader of items *)

Section ItemLoaderFacts.
Import CInt Qt ML Loader Model ModelSpec ModelMore ModelMoreSpec ModelRuns.
Context {MLItem Cache MediaLib QVariant : Type}.
Context {CO : ListCacheOps MLItem Cache} {MO : MediaLibOps MediaLib}.
Context {MV : ModelVirtuals MLItem Cache QVariant}.
Context {CA : ListCacheAccess MLItem Cache} {MC : ModelConstants MediaLib}.

Ltac run_op :=
  unfold emit, connected, emit_loadingChanged, signal, mbind, Op_bind, bind, update_model, get_model, ret; simpl.

Lemma same_but_model_refl (w : World Cache MediaLib) : same_but_model w w.
Proof. done. Qed.








Lemma loadItems_run indexes cb (w : World Cache MediaLib) :
  loadItems indexes cb w =
    let loader := default (createLoader (model w)) (m_itemLoader (model w)) in
    let task := LoadItemsTask loader indexes cb in
    (let '(taskId, ml) := runOnMLThread (medialib w) task in
     (taskId,
      {| model := set_itemLoader (Some loader) (model w); medialib := ml;
         cells := cells w; issued := issued w ++ [(taskId, task)];
         jsEngine := jsEngine w |},
      [])).
Proof.
  unfold loadItems, itemLoader, run_task. run_op.
  destruct (m_itemLoader (model w)) as [loader|] eqn:Hl; simpl.
  - destruct (runOnMLThread _ _) as [taskId ml]. simpl.
    do 2 f_equal. f_equal. destruct (model w). simpl in *. by subst.
  - by destruct (runOnMLThread _ _) as [taskId ml].
Qed.


End ItemLoaderFacts.

(** ** Requests of [getData] that overlap *)

Section GetDataTwiceFacts.
Import CInt Qt ML Loader Model ModelSpec.
Context {MLItem Cache MediaLib QVariant : Type}.
Context {CO : ListCacheOps MLItem Cache} {MO : MediaLibOps MediaLib}.
Context {MV : ModelVirtuals MLItem Cache QVariant}.

Lemma getData_run indexes callback (w : World Cache MediaLib) :
  isCallable callback = true →
  getData indexes callback w =
    let requestId := fresh (dom (cells w)) in
    let indx := row <$> indexes in
    let cb := GetDataCallback (Z.of_nat (length indx)) callback requestId in
    let loader := default (createLoader (model w)) (m_itemLoader (model w)) in
    let task := LoadItemsTask loader indx cb in
    (let '(taskId, ml) := runOnMLThread (medialib w) task in
     (tt,
      {| model := set_itemLoader (Some loader) (model w); medialib := ml;
         cells := <[requestId := taskId]> (<[requestId := 0]> (cells w));
         issued := issued w ++ [(taskId, task)]; jsEngine := jsEngine w |},
      [])).
Proof.
  intros Hcallable. unfold getData. rewrite Hcallable. simpl.
  unfold mbind at 1, Op_bind at 1, bind at 1, make_shared. simpl.
  unfold mbind at 1, Op_bind at 1, bind at 1.
  rewrite loadItems_run. simpl.
  destruct (runOnMLThread _ _) as [taskId ml]. done.
Qed.

(** X13: a second call of [getData] does not cancel the first: the two requests
    have two cells, each holding the id of its own task, so the items of
    the first task are still passed to the first JavaScript function after
    the second request was made; both tasks go to the same loader. *)
Theorem getData_requests_apart (indexes indexes' : list QModelIndex)
    (callback callback' : QJSValue) (w : World Cache MediaLib) :
  isCallable callback = true →
  isCallable callback' = true →
  let '(_, w1, _) := getData indexes callback w in
  let '(_, w2, _) := getData indexes' callback' w1 in
  let indxSize := Z.of_nat (length (row <$> indexes)) in
  let indxSize' := Z.of_nat (length (row <$> indexes')) in
  ∃ loader id1 id2 r1 r2,
    issued w2 =
      issued w ++
        [(id1, LoadItemsTask loader (row <$> indexes)
                 (GetDataCallback indxSize callback r1));
         (id2, LoadItemsTask loader (row <$> indexes')
                 (GetDataCallback indxSize' callback' r2))] ∧
    r1 ≠ r2 ∧
    cells w2 !! r1 = Some id1 ∧
    cells w2 !! r2 = Some id2 ∧
    ∀ items : list (option MLItem),
      jsEngine w = true →
      wrap_int (Z.of_nat (length items)) = indxSize →
      GetDataCallback_call w2 indxSize callback r1 id1 items =
        JSCall callback (dataDict <$> items).
Proof.
  intros Hc Hc'. rewrite (getData_run indexes callback w Hc). simpl.
  destruct (runOnMLThread _ _) as [id1 ml1].
  rewrite getData_run by done. simpl.
  destruct (runOnMLThread _ _) as [id2 ml2].
  set (r1 := fresh (dom (cells w))).
  set (cells1 := <[r1 := id1]> (<[r1 := 0]> (cells w))).
  set (r2 := fresh (dom cells1)).
  assert (r1 ≠ r2) as Hne.
  { intros Heq. pose proof (is_fresh (dom cells1)) as Hfresh. fold r2 in Hfresh.
    apply Hfresh. rewrite <- Heq. unfold cells1. rewrite !dom_insert. set_solver. }
  assert ((<[r2 := id2]> (<[r2 := 0]> cells1)) !! r1 = Some id1) as Hcell1.
  { rewrite !lookup_insert_ne by done. unfold cells1. by rewrite lookup_insert_eq. }
  eexists _, id1, id2, r1, r2. split; [by rewrite <- app_assoc|].
  split; [done|]. split; [done|]. split; [simpl; by rewrite lookup_insert_eq|].
  intros items Hjs Hlen.
  match goal with |- GetDataCallback_call ?w2 _ _ _ _ _ = _ =>
    destruct (GetDataCallback_call_spec w2 (Z.of_nat (length (row <$> indexes)))
                callback r1 id1 id1 items Hcell1) as (_ & _ & _ & Hcall)
  end.
  by apply Hcall.
Qed.

End GetDataTwiceFacts.

(** ** The taskbar thumbnail *)

Section ThumbnailFacts.
Import CInt Win32 Win32Spec Win32More Win32MoreSpec.
Context {EventThread : Type}.
Context {WA : Win32Answers} {VO : VoutOps EventThread}.

Lemma EqualRect_eq r1 r2 : EqualRect r1 r2 = true ↔ r1 = r2.
Proof.
  unfold EqualRect. rewrite !andb_true_iff, !bool_decide_eq_true.
  destruct r1, r2; simpl. split.
  - intros [[[-> ->] ->] ->]. done.
  - intros [= -> -> -> ->]. done.
Qed.

Lemma EqualRect_refl r : EqualRect r r = true.
Proof. by apply EqualRect_eq. Qed.

Lemma CommonChangeThumbnailClip_inv show (w w' : World EventThread) :
  CommonChangeThumbnailClip show w = Some w' →
  sys w' = sys w ∧ event_thread w' = event_thread w ∧
  ∃ calls,
    os w' = os w ++ calls ∧
    Forall (λ c, is_taskbar_call c = true) calls ∧
    ((calls = [] ∧
      (GetVersionEx (os w) = None ∨ ∃ v, GetVersionEx (os w) = Some v ∧ v ≤ 5)) ∨
     (thumbnail_calls show calls ∧ ∃ v, GetVersionEx (os w) = Some v ∧ 5 < v)).
Proof.
  unfold CommonChangeThumbnailClip.
  destruct (GetVersionEx (os w)) as [v|] eqn:Hv.
  - destruct (Z.leb_spec v 5) as [Hle|Hgt].
    + intros [= <-]. split; [done|]. split; [done|]. exists [].
      rewrite app_nil_r. split; [done|]. split; [done|]. left. eauto.
    + destruct (CoInitializeEx_succeeds (os w)); simpl; [|done].
      case_bool_decide as Hhr.
      * intros [= <-]. split; [done|]. split; [done|].
        eexists. simpl. rewrite <- !app_assoc. simpl. split; [reflexivity|].
        split; [by repeat constructor|]. right. split; [|by eauto].
        right. eexists _, _. split; [reflexivity|]. by destruct show.
      * intros [= <-]. split; [done|]. split; [done|].
        eexists. simpl. rewrite <- !app_assoc. simpl. split; [reflexivity|].
        split; [by repeat constructor|]. right. split; [by left|by eauto].
  - intros [= <-]. split; [done|]. split; [done|]. exists [].
    rewrite app_nil_r. split; [done|]. split; [done|]. left. eauto.
Qed.


End ThumbnailFacts.

(** ** What [UpdateRects] writes and calls *)

Section UpdateRectsMoreFacts.
Import CInt Win32 Win32Spec Win32More Win32MoreSpec.
Context {EventThread : Type}.
Context {WA : Win32Answers} {VO : VoutOps EventThread}.

Lemma same_windows_refl s : same_windows s s.
Proof. by repeat split. Qed.

Lemma orb_EqualRect_refl (v : bool) r : v = v || negb (EqualRect r r).
Proof. rewrite EqualRect_refl. by destruct v. Qed.

Lemma UpdateRects_result_refl b (w : World EventThread) : UpdateRects_result b w w.
Proof.
  split; [apply same_windows_refl|]. split; [apply orb_EqualRect_refl|].
  split; [done|]. exists [], []. rewrite app_nil_r.
  split; [done|]. split; [done|]. split; [done|]. by left.
Qed.

Lemma observe_geometry_result b rect (w : World EventThread) :
  UpdateRects_result b w (observe_geometry b rect w).2 ∧
  rect_dest (sys (observe_geometry b rect w).2) = rect_dest (sys w) ∧
  is_first_placement (sys (observe_geometry b rect w).2) = is_first_placement (sys w) ∧
  os (observe_geometry b rect w).2 = os w.
Proof.
  unfold observe_geometry.
  destruct (VLC_WINSTORE_APP b) eqn:Hws; simpl.
  - split; [|done].
    split; [by repeat split|]. split; [apply orb_EqualRect_refl|].
    split; [congruence|]. exists [], []. rewrite app_nil_r.
    split; [done|]. split; [done|]. split; [done|]. by left.
  - destruct (b_windowless (sys w)); simpl.
    + split; [|done]. apply UpdateRects_result_refl.
    + destruct (EventThreadUpdateWindowPosition _ _) as [moved e]. simpl.
      split; [|done].
      split; [apply same_windows_refl|]. split; [apply orb_EqualRect_refl|].
      split; [done|]. exists [], []. rewrite app_nil_r.
      split; [done|]. split; [done|]. split; [done|]. by left.
Qed.

Lemma if_negb_orb (c v : bool) : (if negb c then true else v) = v || negb c.
Proof. by destruct c, v. Qed.

Lemma place_picture_result b vd rect point (w w' : World EventThread) :
  place_picture b vd rect point w = Some w' → UpdateRects_result b w w'.
Proof.
  unfold place_picture, UpdateRects_result.
  set (place := vout_display_PlacePicture _ _).
  destruct (VLC_WINSTORE_APP b) eqn:Hws; simpl.
  - intros [= <-]. simpl.
    split; [by repeat split|]. split; [apply if_negb_orb|].
    split; [congruence|]. exists [], []. rewrite app_nil_r.
    split; [done|]. split; [done|]. split; [done|]. by left.
  - destruct (b_windowless (sys w)) eqn:Hwl; simpl.
    + intros Hclip. apply CommonChangeThumbnailClip_inv in Hclip
        as (Hsys & _ & calls & Hos & Hall & _).
      rewrite Hsys, Hos. simpl.
      split; [by repeat split|]. split; [apply if_negb_orb|].
      split; [done|]. exists [], calls.
      split; [done|]. split; [done|]. split; [done|]. by left.
    + destruct (is_first_placement (sys w)) eqn:Hfirst; simpl.
      * intros Hclip. apply CommonChangeThumbnailClip_inv in Hclip
          as (Hsys & _ & calls & Hos & Hall & _).
        rewrite Hsys, Hos. simpl.
        split; [by repeat split|]. split; [apply if_negb_orb|].
        split; [done|]. eexists [_], calls. rewrite <- app_assoc.
        split; [done|]. split; [done|]. split; [done|]. right.
        eexists _, _, _, _, _. split; [reflexivity|]. done.
      * intros Hclip. apply CommonChangeThumbnailClip_inv in Hclip
          as (Hsys & _ & calls & Hos & Hall & _).
        rewrite Hsys, Hos. simpl.
        split; [by repeat split|]. split; [apply if_negb_orb|].
        split; [done|]. eexists [_], calls. rewrite <- app_assoc.
        split; [done|]. split; [done|]. split; [done|]. right.
        eexists _, _, _, _, _. split; [reflexivity|]. done.
Qed.

Lemma UpdateRects_inv b vd is_forced (w w' : World EventThread) :
  UpdateRects b vd is_forced w = Some w' → UpdateRects_result b w w'.
Proof.
  unfold UpdateRects.
  destruct (window_size vd w) as [[|] rect]; simpl;
    [|intros [= <-]; apply UpdateRects_result_refl].
  pose proof (observe_geometry_result b rect w) as (Hobs & Hdest & Hfirst & Hos).
  destruct (observe_geometry b rect w) as [[[moved rect'] point] w1]. simpl in *.
  destruct (negb is_forced && negb moved); [by intros [= <-]|].
  intros Hplace. apply place_picture_result in Hplace.
  destruct Hobs as (Hw1 & Hc1 & Hd1 & _).
  destruct Hplace as (Hw2 & Hc2 & Hd2 & placement & taskbar & Hos2 & Htask & Hstore & Hp).
  split.
  { unfold same_windows in *. destruct_and!. repeat split; congruence. }
  split.
  { rewrite Hc2, Hc1, Hdest, EqualRect_refl. simpl. by rewrite orb_false_r. }
  split; [intros Hws; rewrite Hd2, Hd1; done|].
  exists placement, taskbar. rewrite Hos2, Hos.
  split; [done|]. split; [done|]. split; [done|].
  destruct Hw1 as (_ & _ & _ & Hv & _ & _ & Hwl & _).
  rewrite <- Hfirst, <- Hv, <- Hwl. done.
Qed.

End UpdateRectsMoreFacts.

Section UpdateRectsMoreTheorems.
Import CInt Win32 Win32Spec Win32More Win32MoreSpec.
Context {EventThread : Type}.
Context {WA : Win32Answers} {VO : VoutOps EventThread}.

(** X15: [UpdateRects] never writes the windows, the mode, the configuration or
    the rectangle of the parent, and outside a Windows Store build it leaves
    [rect_display] alone.  [rect_dest_changed] is never cleared: it is set
    when [rect_dest] takes another value and kept otherwise. *)
Theorem UpdateRects_frame (b : build) (vd : vout_display_t) (is_forced : bool)
    (w w' : World EventThread) :
  UpdateRects b vd is_forced w = Some w' →
  same_windows (sys w) (sys w') ∧
  rect_dest_changed (sys w') =
    rect_dest_changed (sys w) || bool_decide (rect_dest (sys w') ≠ rect_dest (sys w)) ∧
  (VLC_WINSTORE_APP b = false → rect_display (sys w') = rect_display (sys w)).
Proof.
  intros Hrun. apply UpdateRects_inv in Hrun as (Hw & Hc & Hd & _).
  split; [done|]. split; [|done]. rewrite Hc. f_equal.
  destruct (EqualRect _ _) eqn:Heq; simpl.
  - apply EqualRect_eq in Heq. by rewrite bool_decide_eq_false_2 by (intros ?; congruence).
  - rewrite bool_decide_eq_true_2; [done|]. intros Hsame.
    rewrite Hsame, EqualRect_refl in Heq. done.
Qed.

(** X16: the calls of [UpdateRects]: at most one [SetWindowPos], on the video
    window, followed by calls to the taskbar only.  The video window is
    shown ([SWP_SHOWWINDOW]) by the first placement and by no later one, and
    it is placed only by a display that has windows; a Windows Store build
    calls nothing. *)
Theorem UpdateRects_calls (b : build) (vd : vout_display_t) (is_forced : bool)
    (w w' : World EventThread) :
  UpdateRects b vd is_forced w = Some w' →
  ∃ placement taskbar,
    os w' = os w ++ placement ++ taskbar ∧
    Forall (λ c, is_taskbar_call c = true) taskbar ∧
    (VLC_WINSTORE_APP b = true → placement = [] ∧ taskbar = []) ∧
    ((placement = [] ∧ is_first_placement (sys w') = is_first_placement (sys w)) ∨
     (∃ X Y cx cy flags,
        placement = [SetWindowPos (hvideownd (sys w)) 0 X Y cx cy flags] ∧
        shows_window flags = is_first_placement (sys w) ∧
        is_first_placement (sys w') = false ∧
        VLC_WINSTORE_APP b = false ∧ b_windowless (sys w) = false)).
Proof.
  intros Hrun. by apply UpdateRects_inv in Hrun as (_ & _ & _ & Hcalls).
Qed.

End UpdateRectsMoreTheorems.

(** ** The queries of [CommonControl] *)

Section ControlFacts.
Import CInt Win32 Win32Spec Win32More Win32MoreSpec.
Context {EventThread : Type}.
Context {WA : Win32Answers} {VO : VoutOps EventThread}.

Lemma update_with_cfg_inv b vd cfg is_forced (w : World EventThread) rc w' :
  update_with_cfg b vd cfg is_forced w = Some (rc, w') →
  rc = VLC_SUCCESS ∧ UpdateRects b vd is_forced (with_sys (set_vdcfg cfg) w) = Some w'.
Proof.
  unfold update_with_cfg. destruct (UpdateRects _ _ _ _); simpl; [|done].
  by intros [= <- <-].
Qed.

Lemma CommonControlSetFullscreen_codes b fullscreen (w : World EventThread) :
  (CommonControlSetFullscreen b fullscreen w).1 = VLC_SUCCESS ∨
  CommonControlSetFullscreen b fullscreen w = (VLC_EGENERIC, w).
Proof.
  destruct (switch_refused_dec b fullscreen (sys w)) as [Hr|Hnot].
  - right. by apply CommonControlSetFullscreen_refused.
  - left. destruct (CommonControlSetFullscreen_accepted b fullscreen w Hnot)
      as (w1 & -> & _). done.
Qed.

(** X17: [CommonControl] answers [VLC_SUCCESS] or [VLC_EGENERIC], and a query
    it refuses changes nothing: neither the display, nor the event thread,
    nor any window.  A Windows Store build accepts the four queries that
    carry a configuration to place the picture, and no other. *)
Theorem CommonControl_refusal (b : build) (vd : vout_display_t) (query : control)
    (w w' : World EventThread) (rc : Z) :
  CommonControl b vd query w = Some (rc, w') →
  (rc = VLC_SUCCESS ∨ rc = VLC_EGENERIC) ∧
  (rc = VLC_EGENERIC → w' = w) ∧
  (rc = VLC_SUCCESS → VLC_WINSTORE_APP b = true →
     ∃ cfg, query ∈ [VOUT_DISPLAY_CHANGE_DISPLAY_FILLED cfg; VOUT_DISPLAY_CHANGE_ZOOM cfg;
                     VOUT_DISPLAY_CHANGE_SOURCE_ASPECT cfg;
                     VOUT_DISPLAY_CHANGE_SOURCE_CROP cfg]).
Proof.
  assert (VLC_SUCCESS ≠ VLC_EGENERIC) as Hcodes by done.
  destruct query as [cfg|cfg|cfg|cfg|cfg|state|fs| |q]; simpl.
  - intros (-> & _)%update_with_cfg_inv.
    split; [by left|]. split; [done|]. intros _ _. exists cfg. set_solver.
  - intros (-> & _)%update_with_cfg_inv.
    split; [by left|]. split; [done|]. intros _ _. exists cfg. set_solver.
  - intros (-> & _)%update_with_cfg_inv.
    split; [by left|]. split; [done|]. intros _ _. exists cfg. set_solver.
  - intros (-> & _)%update_with_cfg_inv.
    split; [by left|]. split; [done|]. intros _ _. exists cfg. set_solver.
  - destruct (VLC_WINSTORE_APP b) eqn:Hws.
    + intros [= <- <-]. split; [by right|]. done.
    + intros (-> & _)%update_with_cfg_inv. split; [by left|]. done.
  - destruct (VLC_WINSTORE_APP b) eqn:Hws.
    + intros [= <- <-]. split; [by right|]. done.
    + destruct (_ && _ && _).
      * intros [= <- <-]. split; [by right|]. done.
      * intros [= <- <-]. split; [by left|]. done.
  - destruct (VLC_WINSTORE_APP b) eqn:Hws.
    + intros [= <- <-]. split; [by right|]. done.
    + destruct (CommonControlSetFullscreen_codes b (negb (bool_decide (fs = 0))) w)
        as [Hok|Hrefused].
      * destruct (CommonControlSetFullscreen _ _ _) as [ret w1]. simpl in Hok.
        rewrite Hok. simpl.
        destruct (UpdateRects _ _ _ _); simpl; [|done].
        intros [= <- <-]. split; [by left|]. done.
      * rewrite Hrefused. simpl. intros [= <- <-]. split; [by right|]. done.
  - destruct (VLC_WINSTORE_APP b) eqn:Hws; [|done].
    intros [= <- <-]. split; [by right|]. done.
  - intros [= <- <-]. split; [by right|]. done.
Qed.

(** X18: the queries that carry a configuration store it: when [CommonControl]
    returns from one of them with [VLC_SUCCESS], [sys->vdcfg] is the
    configuration of the query, and the windows and the mode of the display
    are as before. *)
Theorem CommonControl_stores_cfg (b : build) (vd : vout_display_t)
    (cfg : vout_display_cfg_t) (query : control) (w w' : World EventThread) :
  query ∈ [VOUT_DISPLAY_CHANGE_DISPLAY_FILLED cfg; VOUT_DISPLAY_CHANGE_ZOOM cfg;
           VOUT_DISPLAY_CHANGE_SOURCE_ASPECT cfg; VOUT_DISPLAY_CHANGE_SOURCE_CROP cfg;
           VOUT_DISPLAY_CHANGE_DISPLAY_SIZE cfg] →
  CommonControl b vd query w = Some (VLC_SUCCESS, w') →
  vdcfg (sys w') = cfg ∧
  hwnd (sys w') = hwnd (sys w) ∧ hvideownd (sys w') = hvideownd (sys w) ∧
  hparent (sys w') = hparent (sys w) ∧ hfswnd (sys w') = hfswnd (sys w) ∧
  b_windowless (sys w') = b_windowless (sys w) ∧
  is_on_top (sys w') = is_on_top (sys w).
Proof.
  assert (∀ is_forced (w0 : World EventThread),
            sys w0 = sys w →
            update_with_cfg b vd cfg is_forced w0 = Some (VLC_SUCCESS, w') →
            vdcfg (sys w') = cfg ∧
            hwnd (sys w') = hwnd (sys w) ∧ hvideownd (sys w') = hvideownd (sys w) ∧
            hparent (sys w') = hparent (sys w) ∧ hfswnd (sys w') = hfswnd (sys w) ∧
            b_windowless (sys w') = b_windowless (sys w) ∧
            is_on_top (sys w') = is_on_top (sys w)) as Hupdate.
  { intros is_forced w0 Hsys (_ & Hrun)%update_with_cfg_inv.
    apply UpdateRects_inv in Hrun as (Hsame & _). unfold same_windows in Hsame.
    simpl in Hsame. rewrite Hsys in Hsame. destruct_and!. done. }
  rewrite !elem_of_cons, elem_of_nil.
  intros [->|[->|[->|[->|[->|[]]]]]]; simpl; try (by apply Hupdate).
  destruct (VLC_WINSTORE_APP b); [done|].
  apply Hupdate. by destruct (_ && _).
Qed.

(** X19: [VOUT_DISPLAY_CHANGE_WINDOW_STATE] outside a Windows Store build: the
    Direct3D9 desktop mode refuses to go on top; otherwise [is_on_top] takes
    the requested state and nothing else of the display changes, and the
    window is touched only when its topmost style differs from the request:
    then the menu item is checked or unchecked and the window is moved in
    the Z order, without being resized or moved on the screen. *)
Theorem CommonControl_window_state (b : build) (vd : vout_display_t) (state : Z)
    (w : World EventThread) :
  VLC_WINSTORE_APP b = false →
  let on_top := negb (bool_decide (Z.land state VOUT_WINDOW_STATE_ABOVE = 0)) in
  let topmost :=
    negb (bool_decide
            (Z.land (GetWindowLong (os w) (hwnd (sys w)) GWL_EXSTYLE) WS_EX_TOPMOST = 0)) in
  let refused :=
    bool_decide (MODULE_NAME b = direct3d9) && use_desktop (sys w) && on_top in
  ∃ rc w',
    CommonControl b vd (VOUT_DISPLAY_CHANGE_WINDOW_STATE state) w = Some (rc, w') ∧
    (refused = true → rc = VLC_EGENERIC ∧ w' = w) ∧
    (refused = false →
       rc = VLC_SUCCESS ∧
       sys w' = set_is_on_top on_top (sys w) ∧
       event_thread w' = event_thread w ∧
       os w' =
         os w ++
         (if bool_decide (on_top = topmost) then []
          else [CheckMenuItem (GetSystemMenu (os w) (hwnd (sys w))) IDM_TOGGLE_ON_TOP
                  (Z.lor MF_BYCOMMAND (if on_top then MFS_CHECKED else MFS_UNCHECKED));
                SetWindowPos (hwnd (sys w))
                  (if on_top then HWND_TOPMOST else HWND_NOTOPMOST) 0 0 0 0
                  (Z.lor SWP_NOSIZE SWP_NOMOVE)])).
Proof.
  intros Hws on_top topmost refused. simpl. rewrite Hws.
  fold on_top. fold refused. destruct refused eqn:Hr.
  - eexists _, _. split; [reflexivity|]. done.
  - fold topmost. destruct on_top eqn:Hon, topmost eqn:Htop; simpl;
      eexists _, _; (split; [reflexivity|]); (split; [done|]); intros _;
      simpl; rewrite <- ?app_assoc, ?app_nil_r; done.
Qed.

End ControlFacts.

(** ** The life of the display: [CommonInit], [CommonManage], [CommonClean] *)

Section LifeFacts.
Import CInt Win32 Win32Spec Win32More Win32MoreSpec.
Context {EventThread : Type}.
Context {WA : Win32Answers} {VO : VoutOps EventThread}.
Context {EO : EventThreadOps EventThread}.

(** X20: [CommonInit] calls nothing of the system and leaves the display not
    yet placed, not on top and with [rect_dest_changed] cleared; a build that
    is not a Windows Store app also stores the configuration and its own
    [GetRect], while a Windows Store build leaves [vdcfg] as it was.  A
    display that failed to start, a windowless one and one of a Windows Store
    build have no window; the last two always succeed and never touch the
    event thread. *)
Theorem CommonInit_state (b : build) (windowless : bool) (cfg : vout_display_cfg_t)
    (w : World EventThread) :
  let '(rc, w') := CommonInit b windowless cfg w in
  (rc = VLC_SUCCESS ∨ rc = VLC_EGENERIC) ∧
  os w' = os w ∧
  (rect_dest_changed (sys w') = false ∧ b_windowless (sys w') = windowless ∧
   is_first_placement (sys w') = true ∧ is_on_top (sys w') = false) ∧
  (VLC_WINSTORE_APP b = false →
     vdcfg (sys w') = cfg ∧ pf_GetRect (sys w') = GetRect_common ∧
     rect_parent (sys w') = mkRECT 0 0 0 0) ∧
  (VLC_WINSTORE_APP b = true →
     rect_display (sys w') = mkRECT 0 0 0 0 ∧ vdcfg (sys w') = vdcfg (sys w)) ∧
  (rc = VLC_EGENERIC ∨ VLC_WINSTORE_APP b = true ∨ windowless = true →
     hwnd (sys w') = NULL ∧ hvideownd (sys w') = NULL ∧
     hparent (sys w') = NULL ∧ hfswnd (sys w') = NULL) ∧
  (VLC_WINSTORE_APP b = true ∨ windowless = true →
     rc = VLC_SUCCESS ∧ event_thread w' = event_thread w ∧
     event (sys w') = event (sys w)).
Proof.
  assert (VLC_SUCCESS ≠ VLC_EGENERIC) as Hcodes by done.
  unfold CommonInit. destruct (VLC_WINSTORE_APP b) eqn:Hws; simpl.
  { split; [by left|]. repeat split; done. }
  destruct windowless; simpl.
  { split; [by left|]. repeat split; done. }
  destruct (EventThreadCreate cfg) as [ev e]. simpl.
  case_bool_decide as Hev; simpl.
  { split; [by right|]. repeat split; try done;
      try (intros [?|[?|?]]; done); try (intros [?|?]; done);
      by destruct_or!. }
  destruct (EventThreadStart _ _) as [[ret windows] e']. simpl.
  destruct (bool_decide (ret = 0)); simpl.
  - split; [by left|]. repeat split; try done;
      try (intros [?|[?|?]]; done); try (intros [?|?]; done);
      by destruct_or!.
  - split; [by right|]. repeat split; try done;
      try (intros [?|[?|?]]; done); try (intros [?|?]; done);
      by destruct_or!.
Qed.

Lemma CommonInit_windowless_run b cfg (w : World EventThread) :
  VLC_WINSTORE_APP b = false →
  CommonInit b true cfg w =
    (VLC_SUCCESS,
     with_sys (λ s, set_vdcfg cfg (set_rect_parent (mkRECT 0 0 0 0)
                 (set_pf_GetRect GetRect_common (init_fields true s)))) w).
Proof. intros Hws. unfold CommonInit. by rewrite Hws. Qed.

(** X21: a windowless display of a build that is not a Windows Store app, just
    initialised: its [GetRect] gives no rectangle, [CommonManage] and a call
    of [UpdateRects] that is not forced do nothing, and a forced call places
    no window: it calls the taskbar at most. *)
Theorem CommonInit_windowless_idle (b : build) (vd : vout_display_t)
    (cfg : vout_display_cfg_t) (w : World EventThread) :
  VLC_WINSTORE_APP b = false →
  let '(rc, w1) := CommonInit b true cfg w in
  rc = VLC_SUCCESS ∧
  (call_pf_GetRect w1).1 = false ∧
  CommonManage b vd w1 = Some w1 ∧
  UpdateRects b vd false w1 = Some w1 ∧
  ∀ w2, UpdateRects b vd true w1 = Some w2 →
    ∃ taskbar, os w2 = os w ++ taskbar ∧
               Forall (λ c, is_taskbar_call c = true) taskbar.
Proof.
  intros Hws. rewrite CommonInit_windowless_run by done.
  split; [done|]. split; [done|].
  split; [unfold CommonManage; by rewrite Hws|].
  split; [by apply UpdateRects_windowless_desktop|].
  intros w2 Hrun. apply UpdateRects_inv in Hrun
    as (_ & _ & _ & placement & taskbar & Hos & Htask & _ & Hplace).
  exists taskbar. split; [|done].
  destruct Hplace as [[-> _]|(X & Y & cx & cy & flags & _ & _ & _ & _ & Hwl)]; [done|].
  done.
Qed.

(** X22: [CommonManage] with windows, outside a Windows Store build: the
    rectangle of the parent kept in [rect_parent] is the one seen by this
    call; when it differs from the one kept before, the window is first
    resized to the parent; and when neither the parent nor the window
    moved, no call is made and the display is as before. *)
Theorem CommonManage_follows_parent (b : build) (vd : vout_display_t)
    (w w' : World EventThread) :
  VLC_WINSTORE_APP b = false →
  b_windowless (sys w) = false →
  CommonManage b vd w = Some w' →
  (hwnd (sys w') = hwnd (sys w) ∧ hparent (sys w') = hparent (sys w) ∧
   vdcfg (sys w') = vdcfg (sys w)) ∧
  (hparent (sys w) ≠ NULL → rect_parent (sys w') = parent_rect w) ∧
  (hparent (sys w) = NULL → rect_parent (sys w') = rect_parent (sys w)) ∧
  (hparent (sys w) ≠ NULL → parent_rect w ≠ rect_parent (sys w) →
     ∃ calls,
       os w' =
         os w ++
         SetWindowPos (hwnd (sys w)) 0 0 0
           (RECTWidth (parent_rect w)) (RECTHeight (parent_rect w)) SWP_NOZORDER
         :: calls) ∧
  (hparent (sys w) = NULL ∨ parent_rect w = rect_parent (sys w) →
   (EventThreadGetAndResetHasMoved (event_thread w)).1 = false →
   os w' = os w ∧ sys w' = sys w).
Proof.
  intros Hws Hwl. unfold CommonManage. rewrite Hws, Hwl.
  assert (∀ w1 : World EventThread,
            (let '(moved, e) := EventThreadGetAndResetHasMoved (event_thread w1) in
             if moved then UpdateRects b vd false (with_event_thread e w1)
             else Some (with_event_thread e w1)) = Some w' →
            same_windows (sys w1) (sys w') ∧
            (∃ calls, os w' = os w1 ++ calls) ∧
            ((EventThreadGetAndResetHasMoved (event_thread w1)).1 = false →
             os w' = os w1 ∧ sys w' = sys w1)) as Hmoved.
  { intros w1. destruct (EventThreadGetAndResetHasMoved _) as [[|] e]; simpl.
    - intros Hrun. apply UpdateRects_inv in Hrun
        as (Hsame & _ & _ & placement & taskbar & Hos & _).
      split; [done|]. split; [by eexists|]. done.
    - intros [= <-]. split; [apply same_windows_refl|].
      split; [exists []; by rewrite app_nil_r|]. done. }
  unfold follow_parent.
  destruct (decide (hparent (sys w) = NULL)) as [Hpar|Hpar].
  - rewrite (bool_decide_eq_true_2 _ Hpar). simpl. intros Hrun.
    destruct (Hmoved w Hrun) as (Hsame & _ & Hquiet).
    unfold same_windows in Hsame. destruct_and!.
    split; [done|]. split; [done|]. split; [done|]. split; [done|].
    intros _. apply Hquiet.
  - rewrite (bool_decide_eq_false_2 _ Hpar). simpl.
    destruct (EqualRect (parent_rect w) (rect_parent (sys w))) eqn:Heq; simpl.
    + apply EqualRect_eq in Heq. intros Hrun.
      destruct (Hmoved w Hrun) as (Hsame & _ & Hquiet).
      unfold same_windows in Hsame. destruct_and!.
      split; [done|]. split; [intros _; congruence|]. split; [done|].
      split; [done|]. intros _. apply Hquiet.
    + assert (parent_rect w ≠ rect_parent (sys w)) as Hne.
      { intros Hsame. rewrite Hsame, EqualRect_refl in Heq. done. }
      destruct (UpdateRects b vd true _) as [w1|] eqn:Hforced; simpl; [|done].
      intros Hrun. destruct (Hmoved w1 Hrun) as (Hsame & (calls & Hos) & _).
      apply UpdateRects_inv in Hforced
        as (Hsame1 & _ & _ & placement & taskbar & Hos1 & _).
      unfold same_windows in Hsame, Hsame1. simpl in Hsame1, Hos1. destruct_and!.
      split; [split; [|split]; congruence|].
      split; [intros _; congruence|]. split; [done|].
      split; [|intros [?|?]; done].
      intros _ _. eexists. rewrite Hos, Hos1. rewrite <- !app_assoc. simpl.
      reflexivity.
Qed.

(** X23: [CommonClean] after [CommonInit] of a display with windows: [sys->event]
    is what [EventThreadCreate] gave.  If that is null, [CommonInit] failed
    and [CommonClean] does nothing; otherwise, whether the thread started or
    not, [CommonClean] stops and destroys it, after removing the clip from
    the taskbar. *)
Theorem CommonClean_after_init (b : build) (cfg : vout_display_cfg_t)
    (w : World EventThread) :
  VLC_WINSTORE_APP b = false →
  let '(rc, w1) := CommonInit b false cfg w in
  event (sys w1) = (EventThreadCreate cfg).1 ∧
  (event (sys w1) = NULL →
     rc = VLC_EGENERIC ∧ event_thread w1 = event_thread w ∧
     CommonClean w1 = Some w1) ∧
  (event (sys w1) ≠ NULL →
     ∀ w2, CommonClean w1 = Some w2 →
       event_thread w2 = EventThreadDestroy (EventThreadStop (event_thread w1)) ∧
       sys w2 = sys w1 ∧
       ∃ calls, os w2 = os w ++ calls ∧ (calls = [] ∨ thumbnail_calls false calls)).
Proof.
  intros Hws.
  assert (∀ w1 : World EventThread,
            os w1 = os w → event (sys w1) ≠ NULL →
            ∀ w2, CommonClean w1 = Some w2 →
              event_thread w2 = EventThreadDestroy (EventThreadStop (event_thread w1)) ∧
              sys w2 = sys w1 ∧
              ∃ calls, os w2 = os w ++ calls ∧
                       (calls = [] ∨ thumbnail_calls false calls)) as Hclean.
  { intros w1 Hos Hev w2. unfold CommonClean.
    rewrite (bool_decide_eq_false_2 _ Hev). simpl.
    destruct (CommonChangeThumbnailClip false w1) as [w1'|] eqn:Hclip; simpl; [|done].
    intros [= <-]. apply CommonChangeThumbnailClip_inv in Hclip
      as (Hsys & He & calls & Hos' & _ & Hcalls).
    simpl. rewrite He. split; [done|]. split; [done|].
    exists calls. rewrite Hos', Hos. split; [done|].
    destruct Hcalls as [[-> _]|[Hc _]]; [by left|by right]. }
  unfold CommonInit. rewrite Hws. simpl.
  destruct (EventThreadCreate cfg) as [ev e]. simpl.
  case_bool_decide as Hev; simpl.
  - split; [done|]. split; [|done]. intros _. split; [done|]. split; [done|].
    unfold CommonClean. simpl. by rewrite bool_decide_eq_true_2.
  - destruct (EventThreadStart _ _) as [[ret windows] e']. simpl.
    destruct (bool_decide (ret = 0)); simpl.
    + split; [done|]. split; [done|]. intros _. by apply Hclean.
    + split; [done|]. split; [done|]. intros _. by apply Hclean.
Qed.

End LifeFacts.

(** ** The further properties on the examples *)

Section LoaderWitnesses.
Import CInt Qt ML Loader LoaderSpec LoaderTasks Examples MoreExamples.

Lemma loadItemsTask_windows_witness :
  let indexes := [7; 2; 30; 4; 9] in
  Forall is_row indexes ∧
  ∃ queries items,
    loadItemsTask_ml (V := row_library) 0 0 some_op tt indexes = Some (queries, items) ∧
    StronglySorted window_before queries ∧
    ∀ x, x ∈ indexes → ∃ q, q ∈ queries ∧ query_first q ≤ x ≤ query_last q.
Proof.
  assert (Forall is_row [7; 2; 30; 4; 9]) as Hrows.
  { repeat constructor; unfold INT_MAX; lia. }
  split; [exact Hrows|].
  destruct (loadItemsTask_ml (V := row_library) 0 0 some_op tt [7; 2; 30; 4; 9])
    as [[queries items]|] eqn:Hrun; [|by vm_compute in Hrun].
  exists queries, items. split; [reflexivity|].
  destruct (loadItemsTask_windows (V := row_library) 0 0 some_op tt
              [7; 2; 30; 4; 9] queries items Hrows Hrun) as (Hsorted & _ & Hcover).
  split; [exact Hsorted|exact Hcover].
Defined.

Lemma loadItemsTask_volume_witness :
  let indexes := [7; 2; 30; 4; 9] in
  Forall is_row indexes ∧
  ∃ queries items,
    loadItemsTask_ml (V := row_library) 0 0 some_op tt indexes = Some (queries, items) ∧
    rows_asked queries + 2 * Z.of_nat (length queries) ≤ 15.
Proof.
  assert (Forall is_row [7; 2; 30; 4; 9]) as Hrows.
  { repeat constructor; unfold INT_MAX; lia. }
  split; [exact Hrows|].
  destruct (loadItemsTask_ml (V := row_library) 0 0 some_op tt [7; 2; 30; 4; 9])
    as [[queries items]|] eqn:Hrun; [|by vm_compute in Hrun].
  exists queries, items. split; [reflexivity|].
  exact (proj1 (loadItemsTask_volume (V := row_library) 0 0 some_op tt
                  [7; 2; 30; 4; 9] queries items Hrows Hrun)).
Defined.

(** Rows 2 and 5 of a library of three rows: the window from 2 to 5 comes
    back with one item, and row 5 is out of its range. *)
Lemma loadItemsTask_short_load_witness :
  Forall is_row [2; 5] ∧
  in_range (mkRange 2 5) 5 = true ∧
  length (load (MLOpVirtuals := short_library) some_op tt
            (range_query (getQueryParams some_op 0 0) (mkRange 2 5))) = 1%nat ∧
  loadItemsTask (V := short_library) 0 0 some_op tt 1 [2; 5] = None.
Proof.
  assert (Forall is_row [2; 5]) as Hrows.
  { repeat constructor; unfold INT_MAX; lia. }
  split; [exact Hrows|]. split; [reflexivity|]. split; [reflexivity|].
  apply (loadItemsTask_short_load (V := short_library) 0 0 some_op tt 1 [2; 5]
           (mkRange 2 5) 5 Hrows).
  - apply (bool_decide_unpack _). vm_compute. exact I.
  - apply (bool_decide_unpack _). vm_compute. exact I.
  - reflexivity.
  - vm_compute. discriminate.
Defined.

Lemma loadItemsTask_contiguous_witness :
  is_row 5 ∧ is_row 7 ∧
  loadItemsTask (V := row_library) 0 0 some_op tt 1 [5; 6; 7] =
    Some ([getQueryParams some_op 5 3], [ItemsCb 1 [Some 5; Some 6; Some 7]]) ∧
  loadTask (V := row_library) some_op tt 1 5 3 = [LoadCb 1 [Some 5; Some 6; Some 7]].
Proof.
  assert (is_row 5) as H5 by (unfold is_row, INT_MAX; lia).
  assert (is_row (5 + 3 - 1)) as H7 by (unfold is_row, INT_MAX; lia).
  split; [exact H5|]. split; [exact H7|].
  exact (loadItemsTask_contiguous (V := row_library) 0 0 some_op tt 1 5 3
           H5 eq_refl H7 eq_refl).
Defined.

End LoaderWitnesses.

Section ModelWitnesses.
Import CInt Qt ML Loader Model ModelSpec ModelMore ModelMoreSpec ModelRuns.
Import Examples MoreExamples.


Lemma getDataAt_row_outside_witness :
  let m := model_with (Some unloaded_cache) in
  ¬ (0 ≤ 0 < rowCount (CO := simple_cache_ops) m no_index) ∧
  (getDataAt_row (CO := simple_cache_ops) (MV := simple_virtuals)
     (CA := simple_access) 0 m).2 = m.
Proof.
  intros m.
  assert (¬ (0 ≤ 0 < rowCount (CO := simple_cache_ops) m no_index)) as Hout.
  { intros [_ H]. vm_compute in H. discriminate. }
  split; [exact Hout|].
  exact (proj1 (getDataAt_row_outside (CO := simple_cache_ops) (MV := simple_virtuals)
                  (CA := simple_access) 0 m Hout)).
Defined.

Lemma getData_requests_apart_witness :
  let w := world_with (Some loaded_cache) in
  let callback := mkQJSValue 1 true in
  let callback' := mkQJSValue 2 true in
  isCallable callback = true ∧ isCallable callback' = true ∧
  let '(_, w1, _) :=
    getData (MO := counting_medialib) (MV := simple_virtuals)
      [mkQModelIndex 1 0 true] callback w in
  let '(_, w2, _) :=
    getData (MO := counting_medialib) (MV := simple_virtuals)
      [mkQModelIndex 2 0 true] callback' w1 in
  ∃ id1 id2 r1 r2,
    r1 ≠ r2 ∧ cells w2 !! r1 = Some id1 ∧ cells w2 !! r2 = Some id2 ∧
    GetDataCallback_call (MV := simple_virtuals) w2 1 callback r1 id1 [Some 11] =
      JSCall callback (dataDict (MV := simple_virtuals) <$> [Some 11]).
Proof.
  intros w callback callback'. split; [reflexivity|]. split; [reflexivity|].
  pose proof (getData_requests_apart (MO := counting_medialib) (MV := simple_virtuals)
                [mkQModelIndex 1 0 true] [mkQModelIndex 2 0 true]
                callback callback' w eq_refl eq_refl) as H.
  destruct (getData [mkQModelIndex 1 0 true] callback w) as [[u1 w1] s1].
  destruct (getData [mkQModelIndex 2 0 true] callback' w1) as [[u2 w2] s2].
  destruct H as (loader & id1 & id2 & r1 & r2 & _ & Hne & Hc1 & Hc2 & Hcall).
  exists id1, id2, r1, r2. split; [exact Hne|]. split; [exact Hc1|].
  split; [exact Hc2|]. apply Hcall; reflexivity.
Defined.

(** Two libraries in a row, for a model that has the library 1 and no
    listener: the listener is registered on the first and stays there. *)
Lemma setMl_registers_once_witness :
  let w := world_with None in
  let l := mkListener None [] in
  ∃ w',
    setMl_all (CO := simple_cache_ops) (MV := simple_virtuals) (MC := simple_constants)
      [5; 6] l w = Some (mkListener (Some 1005) [5], w') ∧
    m_mediaLib (model w') = Some 6.
Proof.
  intros w l.
  destruct (setMl_registers_once (CO := simple_cache_ops) (MV := simple_virtuals)
              (MC := simple_constants) [5; 6] l w) as (_ & Hall).
  destruct Hall as (l' & w' & Hrun & Hml & _ & Hreg).
  { repeat constructor; discriminate. }
  exists w'. rewrite Hrun.
  rewrite (Hreg 5 [6] 1005 eq_refl eq_refl ltac:(discriminate) eq_refl).
  split; [reflexivity|exact Hml].
Defined.

(** A model that can have a cache and has none yet. *)
Lemma cache_validated_witness :
  let w := world_with None in
  let w1 := (validateCache (CO := simple_cache_ops) (MV := simple_virtuals) w).1.2 in
  ¬ validated (MV := simple_virtuals) (model w) ∧
  validated (MV := simple_virtuals) (model w1) ∧
  validated (MV := simple_virtuals)
    (model (setLimit (CO := simple_cache_ops) (MV := simple_virtuals) 5 w1).1.2).
Proof.
  intros w w1.
  destruct (cache_validated (CO := simple_cache_ops) (MV := simple_virtuals)
              (MC := simple_constants) w) as (Hiff & Hv & _).
  destruct (cache_validated (CO := simple_cache_ops) (MV := simple_virtuals)
              (MC := simple_constants) w1)
    as (_ & _ & _ & _ & _ & _ & _ & Hkeep).
  split.
  { intros Hval. apply Hiff in Hval. discriminate. }
  split; [exact Hv|].
  destruct (Hkeep Hv) as (_ & _ & _ & Hlimit & _). exact (Hlimit 5).
Defined.

Lemma sortByColumn_as_setters_witness :
  let w := world_with (Some loaded_cache) in
  (sortByColumn (CO := simple_cache_ops) (MV := simple_virtuals)
     (toUtf8 (QString_of "title")) DescendingOrder w).1.2 =
  (setSortOrder (CO := simple_cache_ops) (MV := simple_virtuals) DescendingOrder
     (setSortCriteria (CO := simple_cache_ops) (MV := simple_virtuals)
        (QString_of "title") w).1.2).1.2.
Proof.
  intros w.
  exact (proj1 (sortByColumn_as_setters (CO := simple_cache_ops) (MV := simple_virtuals)
                  (QString_of "title") DescendingOrder w)).
Defined.

Lemma limit_offset_rebuild_cache_witness :
  let w := world_with (Some loaded_cache) in
  let '(_, w1, signals) :=
    setLimit (CO := simple_cache_ops) (MV := simple_virtuals) 10 w in
  m_limit (model w1) = 10 ∧
  m_cache (model w1) = Some unloaded_cache ∧
  signals = [beginResetModel; endResetModel; loadingChanged; limitChanged].
Proof.
  intros w.
  destruct (limit_offset_rebuild_cache (CO := simple_cache_ops) (MV := simple_virtuals) w)
    as (Hlimit & _).
  specialize (Hlimit 10 ltac:(discriminate)).
  destruct (setLimit 10 w) as [[u w1] signals].
  exact Hlimit.
Defined.

(** A thumbnail arrives at a model that needs a reset and whose media
    library is idle. *)
Lemma onVlcMlEvent_reset_once_witness :
  let event := VLC_ML_EVENT_MEDIA_THUMBNAIL_GENERATED true 11 (Some "file"%string) 1 in
  let '(w', signals, _) :=
    onVlcMlEvent (CO := simple_cache_ops) (MV := simple_virtuals)
      (MC := simple_constants) event stale_world in
  signals = [resetRequested; loadingChanged] ∧
  m_need_reset (model w') = false ∧
  m_cache (model w') = Some unloaded_cache.
Proof.
  intros event.
  pose proof (onVlcMlEvent_reset_once (CO := simple_cache_ops) (MV := simple_virtuals)
                (MC := simple_constants) event stale_world) as H.
  destruct (onVlcMlEvent event stale_world) as [[w' signals] thumbnails].
  destruct H as (Hreset & Hidle & _).
  assert (signals = [resetRequested; loadingChanged]) as Hsignals.
  { apply Hidle. split; [reflexivity|]. split; [by eexists|reflexivity]. }
  split; [exact Hsignals|].
  destruct Hreset as [[_ Hnone]|(_ & -> & _)]; [|split; reflexivity].
  rewrite Hsignals in Hnone. discriminate.
Defined.


End ModelWitnesses.

Section Win32Witnesses.
Import CInt Win32 Win32Spec Win32More Win32MoreSpec Examples MoreExamples.

Lemma UpdateRects_frame_witness :
  let b := desktop_build direct3d11 in
  let w := vout_world false false in
  ∃ w',
    UpdateRects (WA := fixed_answers) (VO := simple_vout) b some_video true w = Some w' ∧
    same_windows (sys w) (sys w') ∧
    rect_dest_changed (sys w') = bool_decide (rect_dest (sys w') ≠ mkRECT 0 0 0 0).
Proof.
  intros b w.
  destruct (UpdateRects (WA := fixed_answers) (VO := simple_vout) b some_video true w)
    as [w'|] eqn:Hrun; [|by vm_compute in Hrun].
  exists w'. split; [reflexivity|].
  destruct (UpdateRects_frame (WA := fixed_answers) (VO := simple_vout)
              b some_video true w w' Hrun) as (Hsame & Hchanged & _).
  split; [exact Hsame|exact Hchanged].
Defined.

Lemma UpdateRects_calls_witness :
  let b := desktop_build direct3d11 in
  let w := vout_world false false in
  ∃ w' placement taskbar,
    UpdateRects (WA := fixed_answers) (VO := simple_vout) b some_video true w = Some w' ∧
    os w' = placement ++ taskbar ∧
    Forall (λ c, is_taskbar_call c = true) taskbar.
Proof.
  intros b w.
  destruct (UpdateRects (WA := fixed_answers) (VO := simple_vout) b some_video true w)
    as [w'|] eqn:Hrun; [|by vm_compute in Hrun].
  destruct (UpdateRects_calls (WA := fixed_answers) (VO := simple_vout)
              b some_video true w w' Hrun)
    as (placement & taskbar & Hos & Htask & _).
  exists w', placement, taskbar. split; [reflexivity|]. split; [exact Hos|exact Htask].
Defined.

(** The Direct3D9 desktop mode asked to go on top. *)
Lemma CommonControl_refusal_witness :
  let b := desktop_build direct3d9 in
  let w := vout_world false true in
  CommonControl (WA := fixed_answers) (VO := simple_vout) b some_video
    (VOUT_DISPLAY_CHANGE_WINDOW_STATE 1) w = Some (VLC_EGENERIC, w) ∧
  (VLC_EGENERIC = VLC_SUCCESS ∨ VLC_EGENERIC = VLC_EGENERIC).
Proof.
  intros b w.
  assert (CommonControl (WA := fixed_answers) (VO := simple_vout) b some_video
            (VOUT_DISPLAY_CHANGE_WINDOW_STATE 1) w = Some (VLC_EGENERIC, w)) as Hrun
    by reflexivity.
  split; [exact Hrun|].
  exact (proj1 (CommonControl_refusal (WA := fixed_answers) (VO := simple_vout)
                  b some_video _ w w VLC_EGENERIC Hrun)).
Defined.

Lemma CommonControl_stores_cfg_witness :
  let b := desktop_build direct3d11 in
  let w := vout_world false false in
  let cfg := mkCfg 1024 768 VLC_VIDEO_ALIGN_TOP false 0 in
  ∃ w',
    CommonControl (WA := fixed_answers) (VO := simple_vout) b some_video
      (VOUT_DISPLAY_CHANGE_ZOOM cfg) w = Some (VLC_SUCCESS, w') ∧
    vdcfg (sys w') = cfg ∧ hwnd (sys w') = 100.
Proof.
  intros b w cfg.
  assert (∃ w', CommonControl (WA := fixed_answers) (VO := simple_vout) b some_video
                  (VOUT_DISPLAY_CHANGE_ZOOM cfg) w = Some (VLC_SUCCESS, w')) as [w' Hrun].
  { eexists. vm_compute. reflexivity. }
  exists w'. split; [exact Hrun|].
  destruct (CommonControl_stores_cfg (WA := fixed_answers) (VO := simple_vout)
              b some_video cfg (VOUT_DISPLAY_CHANGE_ZOOM cfg) w w')
    as (Hcfg & Hhwnd & _).
  - apply elem_of_cons. right. apply elem_of_cons. by left.
  - exact Hrun.
  - split; [exact Hcfg|exact Hhwnd].
Defined.

Lemma CommonControl_window_state_witness :
  let b := desktop_build direct3d11 in
  let w := vout_world false false in
  ∃ w',
    CommonControl (WA := fixed_answers) (VO := simple_vout) b some_video
      (VOUT_DISPLAY_CHANGE_WINDOW_STATE 1) w = Some (VLC_SUCCESS, w') ∧
    is_on_top (sys w') = true ∧
    os w' = [CheckMenuItem 1 0x0401 8; SetWindowPos 100 HWND_TOPMOST 0 0 0 0 3].
Proof.
  intros b w.
  destruct (CommonControl_window_state (WA := fixed_answers) (VO := simple_vout)
              b some_video 1 w eq_refl) as (rc & w' & Hrun & _ & Hok).
  destruct (Hok eq_refl) as (Hrc & Hsys & _ & Hos).
  exists w'. rewrite Hrun, Hrc, Hsys, Hos. split; [reflexivity|].
  split; reflexivity.
Defined.

Lemma CommonInit_windowless_idle_witness :
  let b := desktop_build direct3d11 in
  let w := vout_world false false in
  let '(rc, w1) := CommonInit (EO := simple_events) b true some_cfg w in
  rc = VLC_SUCCESS ∧
  CommonManage (WA := fixed_answers) (VO := simple_vout) b some_video w1 = Some w1 ∧
  UpdateRects (WA := fixed_answers) (VO := simple_vout) b some_video false w1 = Some w1.
Proof.
  intros b w.
  pose proof (CommonInit_windowless_idle (WA := fixed_answers) (VO := simple_vout)
                (EO := simple_events) b some_video some_cfg w eq_refl) as H.
  destruct (CommonInit b true some_cfg w) as [rc w1].
  destruct H as (Hrc & _ & Hmanage & Hupdate & _).
  split; [exact Hrc|]. split; [exact Hmanage|exact Hupdate].
Defined.

(** The host moved its window: the display follows. *)
Lemma CommonManage_follows_parent_witness :
  let b := desktop_build direct3d11 in
  ∃ w' calls,
    CommonManage (WA := fixed_answers) (VO := simple_vout) b some_video embedded_world
      = Some w' ∧
    rect_parent (sys w') = mkRECT 10 20 810 620 ∧
    os w' = SetWindowPos 100 0 0 0 800 600 SWP_NOZORDER :: calls.
Proof.
  intros b.
  assert (∃ w', CommonManage (WA := fixed_answers) (VO := simple_vout) b some_video
                  embedded_world = Some w') as [w' Hrun].
  { eexists. vm_compute. reflexivity. }
  destruct (CommonManage_follows_parent (WA := fixed_answers) (VO := simple_vout)
              b some_video embedded_world w' eq_refl eq_refl Hrun)
    as (_ & Hparent & _ & Hcalls & _).
  destruct Hcalls as (calls & Hos); [discriminate|discriminate|].
  exists w', calls. split; [exact Hrun|]. split; [apply Hparent; discriminate|exact Hos].
Defined.

Lemma CommonClean_after_init_witness :
  let b := desktop_build direct3d11 in
  let w := vout_world false false in
  let '(rc, w1) := CommonInit (EO := simple_events) b false some_cfg w in
  event (sys w1) = 1 ∧
  ∃ w2, CommonClean (WA := fixed_answers) (EO := simple_events) w1 = Some w2 ∧
        sys w2 = sys w1.
Proof.
  intros b w.
  pose proof (CommonClean_after_init (WA := fixed_answers)
                (EO := simple_events) b some_cfg w eq_refl) as H.
  destruct (CommonInit b false some_cfg w) as [rc w1] eqn:Hinit.
  destruct H as (Hev & _ & Hclean).
  split; [exact Hev|].
  assert (event (sys w1) ≠ NULL) as Hne by (rewrite Hev; discriminate).
  destruct (CommonClean (WA := fixed_answers) (EO := simple_events) w1)
    as [w2|] eqn:Hrun.
  - exists w2. split; [reflexivity|]. exact (proj1 (proj2 (Hclean Hne w2 eq_refl))).
  - exfalso. injection Hinit as <- <-. vm_compute in Hrun. discriminate.
Defined.


Lemma CommonInit_state_witness :
  let w := vout_world false false in
  let '(rc, w') :=
    CommonInit (EO := simple_events) (desktop_build direct3d11) false some_cfg w in
  os w' = os w ∧ is_first_placement (sys w') = true ∧ vdcfg (sys w') = some_cfg.
Proof.
  intros w.
  pose proof (CommonInit_state (EO := simple_events) (desktop_build direct3d11)
                false some_cfg w) as H.
  destruct (CommonInit (desktop_build direct3d11) false some_cfg w) as [rc w'].
  destruct H as (_ & Hos & (_ & _ & Hfirst & _) & Hdesktop & _).
  split; [exact Hos|]. split; [exact Hfirst|]. exact (proj1 (Hdesktop eq_refl)).
Defined.

End Win32Witnesses.
